(** * VoteTrackerPlus: contest schema, CVR submission, merge and receipt

    A shallow embedding of
      - bin/contest.py                         (module [ContestPy]),
      - vtp/ops/merge_contests_operation.py    (module [Merge]),
      - vtp/ops/accept_ballot_operation.py     (module [Accept]),
      - vtp/run_mock_election.py               (module [RunMockElection]),
      - bin/run_mock_election.py               (module [BinRunMockElection]),
    with the Python standard library calls they make ([random], [secrets])
    in module [Rand] and the git repository they shell out to in module
    [Git].

    Conventions.
      - A Python [dict] whose iteration order is observable is an
        association list in insertion order ([dict]); the pending-pool
        snapshot, which is only ever indexed, is a [gmap].
      - A function that can raise returns a [result]; a function that also
        touches the repository or consumes randomness is a state
        transformer returning its [result] together with the final state,
        so that the state left behind by an exception stays observable.
      - JSON numbers are integers ([Z]); floating point is not modelled. *)

From Stdlib Require Import ZArith String Ascii List Permutation Lia Bool.
From Stdlib Require DecimalString.
From stdpp Require Import base option list gmap strings.

Import ListNotations.
Local Open Scope string_scope.
Local Open Scope list_scope.

(** ** Exceptions and results *)

Inductive exn : Type :=
| StopIteration
| KeyError (key : string)
| ValueError (msg : string)
| TypeError (msg : string)
| IndexError (msg : string)
| RuntimeError (msg : string)
| AttributeError (msg : string)
| CalledProcessError (returncode : Z).

Inductive result (A : Type) : Type :=
| Ok (a : A)
| Raise (e : exn).

Arguments Ok {A} a.
Arguments Raise {A} e.

Definition rbind {A B} (r : result A) (k : A -> result B) : result B :=
  match r with
  | Ok a => k a
  | Raise e => Raise e
  end.

Declare Scope result_scope.
Delimit Scope result_scope with result.
Notation "'do' x <- r ; k" := (rbind r (fun x => k))
  (at level 10, x name, r at level 100, k at level 200) : result_scope.

(** ** Insertion-ordered dictionaries *)

Definition dict (V : Type) : Type := list (string * V).

Fixpoint dict_get {V} (d : dict V) (k : string) : option V :=
  match d with
  | [] => None
  | (k', v) :: d' => if String.eqb k' k then Some v else dict_get d' k
  end.

Definition dict_mem {V} (k : string) (d : dict V) : bool :=
  match dict_get d k with Some _ => true | None => false end.

(** [d[k] = v]: overwrite in place when the key exists, append otherwise. *)
Fixpoint dict_set {V} (d : dict V) (k : string) (v : V) : dict V :=
  match d with
  | [] => [(k, v)]
  | (k', v') :: d' =>
      if String.eqb k' k then (k', v) :: d' else (k', v') :: dict_set d' k v
  end.

Definition dict_keys {V} (d : dict V) : list string := map fst d.
Definition dict_values {V} (d : dict V) : list V := map snd d.

(** [d[k]], raising [KeyError] when the key is missing. *)
Definition dict_index {V} (d : dict V) (k : string) : result V :=
  match dict_get d k with
  | Some v => Ok v
  | None => Raise (KeyError k)
  end.

(** [sep.join(parts)] *)
Fixpoint join (sep : string) (parts : list string) : string :=
  match parts with
  | [] => ""
  | [p] => p
  | p :: ps => p ++ sep ++ join sep ps
  end.

(** Membership of a string in a list of strings, as Python's [in]. *)
Definition str_in (k : string) (l : list string) : bool :=
  existsb (String.eqb k) l.

(** * bin/contest.py *)

Module ContestPy.

(** The JSON values a contest blob holds. *)
Inductive value : Type :=
| VInt (z : Z)
| VStr (s : string)
| VBool (b : bool)
| VList (l : list string).

Definition value_eqb (a b : value) : bool :=
  match a, b with
  | VInt x, VInt y => Z.eqb x y
  | VStr x, VStr y => String.eqb x y
  | VBool x, VBool y => Bool.eqb x y
  | VList x, VList y => if decide (x = y) then true else false
  | VInt x, VBool y => Z.eqb x (if y then 1 else 0)
  | VBool x, VInt y => Z.eqb (if x then 1 else 0) y
  | _, _ => false
  end.

(** [v < 1]: integers compare, [bool] is a subclass of [int], anything
    else raises [TypeError]. *)
Definition lt_one (v : value) : result bool :=
  match v with
  | VInt z => Ok (z <? 1)%Z
  | VBool b => Ok ((if b then 1 else 0) <? 1)%Z
  | VStr _ => Raise (TypeError "'<' not supported between instances of 'str' and 'int'")
  | VList _ => Raise (TypeError "'<' not supported between instances of 'list' and 'int'")
  end.

(** Legitimate Contest keys. *)
Definition _keys : list string :=
  ["candidates"; "question"; "tally"; "win-by"; "max"; "write-in"; "selection"].

(** The loop [for key in a_contest_blob[name]: if key not in _keys: raise]. *)
Fixpoint check_keys (keys : list string) : result unit :=
  match keys with
  | [] => Ok tt
  | key :: rest =>
      if str_in key _keys then check_keys rest
      else Raise (KeyError key)
  end.

Definition check_syntax (a_contest_blob : dict (dict value)) : result string :=
  match a_contest_blob with
  | [] => Raise StopIteration
  | (name, _) :: _ =>
      (do contest <- dict_index a_contest_blob name;
       do _ <- check_keys (dict_keys contest);
       Ok name)%result
  end.

Record Contest : Type := mkContest {
  name : string;
  contest : dict value;
  ggo : string;
  index : Z
}.

Definition illegal_max : string := "Illegal value for max - must be greater than 0".

(** [Contest.__init__] *)
Definition init (a_contest_blob : dict (dict value)) (ggo : string)
    (contests_index : Z) : result Contest :=
  (do name <- check_syntax a_contest_blob;
   do contest <- dict_index a_contest_blob name;
   (* set defaults *)
   do contest <-
     (if negb (dict_mem "max" contest) then
        do tally <- dict_index contest "tally";
        if value_eqb tally (VStr "plurality")
        then Ok (dict_set contest "max" (VInt 1))
        else Ok contest
      else Ok contest);
   (* constructor time sanity checks *)
   do bad <-
     (if dict_mem "max" contest then
        do m <- dict_index contest "max";
        lt_one m
      else Ok false);
   if bad then Raise (ValueError illegal_max)
   else Ok (mkContest name contest ggo contests_index))%result.

(** The key set the specification lists for a contest blob. *)
Definition spec_keys : list string :=
  ["candidates"; "question"; "tally"; "win-by"; "max"; "write-in";
   "selection"; "uid"; "cast_branch"; "cloak"].

(** [Contest.get]: the generic getter.  The name and the ggo come back as
    text, the index as a number. *)
Definition get (self : Contest) (key : string) : result value :=
  let rest :=
    (* return contest meta data, else contest data *)
    if String.eqb key "name" then Ok (VStr (name self))
    else if String.eqb key "ggo" then Ok (VStr (ggo self))
    else if String.eqb key "index" then Ok (VInt (index self))
    else dict_index (contest self) key in
  if String.eqb key "choices" then
    if dict_mem "candidates" (contest self) then dict_index (contest self) "candidates"
    else if dict_mem "question" (contest self) then dict_index (contest self) "question"
    else rest
  else rest.

End ContestPy.

(** * The Python standard library: [random] and [secrets]

    Every generator reads an explicit entropy source: the list of the raw
    draws it will get, consumed in order.  An exhausted source keeps
    answering 0.  Any behaviour of the real generators is the behaviour of
    the model on some source. *)

Module Rand.

Definition entropy : Type := list nat.

Definition draw (e : entropy) : nat * entropy :=
  match e with
  | [] => (0, [])
  | x :: e' => (x, e')
  end.

(** [_randbelow(n)], for [n > 0]. *)
Definition randbelow (n : nat) (e : entropy) : nat * entropy :=
  let (x, e') := draw e in (x mod n, e').

(** [random.randrange(n)] *)
Definition randrange (n : nat) (e : entropy) : result nat * entropy :=
  if Nat.eqb n 0 then (Raise (ValueError "empty range for randrange()"), e)
  else let (x, e') := randbelow n e in (Ok x, e').

(** [random.randint(a, b)], both ends included. *)
Definition randint (a b : nat) (e : entropy) : result nat * entropy :=
  if Nat.ltb b a then (Raise (ValueError "empty range for randrange()"), e)
  else let (x, e') := randbelow (b - a + 1) e in (Ok (a + x), e').

(** [random.choice(seq)] *)
Definition choice {A} (seq : list A) (e : entropy) : result A * entropy :=
  match seq with
  | [] => (Raise (IndexError "Cannot choose from an empty sequence"), e)
  | _ :: _ =>
      let (i, e') := randbelow (length seq) e in
      match seq !! i with
      | Some x => (Ok x, e')
      | None => (Raise (IndexError "list index out of range"), e')
      end
  end.

(** [x[i], x[j] = x[j], x[i]] *)
Definition swap {A} (i j : nat) (x : list A) : list A :=
  match x !! i, x !! j with
  | Some a, Some b => <[j := a]> (<[i := b]> x)
  | _, _ => x
  end.

(** [for i in reversed(range(1, len(x))): j = randbelow(i + 1); swap]:
    the loop of [random.shuffle], entered at index [i]. *)
Fixpoint shuffle_from {A} (i : nat) (x : list A) (e : entropy) : list A * entropy :=
  match i with
  | 0 => (x, e)
  | S i' =>
      let (j, e') := randbelow (S i) e in
      shuffle_from i' (swap i j x) e'
  end.

(** [random.shuffle(x)], in place: the caller's list becomes the result. *)
Definition shuffle {A} (x : list A) (e : entropy) : list A * entropy :=
  shuffle_from (length x - 1) x e.

Definition hex_alphabet : list ascii := list_ascii_of_string "0123456789abcdef".

Definition hex_digit (n : nat) : ascii := nth (n mod 16) hex_alphabet "0"%char.

Definition hex_byte (b : nat) : string :=
  String (hex_digit (b / 16)) (String (hex_digit (b mod 16)) EmptyString).

(** [secrets.token_hex(nbytes)]: two lower-case hex digits per random byte. *)
Fixpoint token_hex (nbytes : nat) (e : entropy) : string * entropy :=
  match nbytes with
  | 0 => (EmptyString, e)
  | S n =>
      let (b, e') := randbelow 256 e in
      let (s, e'') := token_hex n e' in
      ((hex_byte b ++ s)%string, e'')
  end.

Definition base64_alphabet : list ascii :=
  list_ascii_of_string
    "ABCDEFGHIJKLMNOPQRSTUVWXYZabcdefghijklmnopqrstuvwxyz0123456789+/".

Fixpoint base64_chars (n : nat) (e : entropy) : string * entropy :=
  match n with
  | 0 => (EmptyString, e)
  | S n' =>
      let (b, e') := randbelow 64 e in
      let (s, e'') := base64_chars n' e' in
      (String (nth b base64_alphabet "A"%char) s, e'')
  end.

(** The text of [openssl rand -base64 nbytes] for [nbytes] a multiple of 3
    (48 in the source): four alphabet characters per three random bytes. *)
Definition rand_base64 (nbytes : nat) (e : entropy) : string * entropy :=
  base64_chars (4 * (nbytes / 3)) e.

Definition is_hex (c : ascii) : bool :=
  existsb (Ascii.eqb c) hex_alphabet.

End Rand.

(** ** String helpers *)

(** [Some rest] when [s = p ++ rest]. *)
Fixpoint strip_prefix (p s : string) : option string :=
  match p with
  | EmptyString => Some s
  | String a p' =>
      match s with
      | EmptyString => None
      | String b s' => if Ascii.eqb a b then strip_prefix p' s' else None
      end
  end.

(** [s.removeprefix(p)] *)
Definition removeprefix (p s : string) : string :=
  match strip_prefix p s with
  | Some rest => rest
  | None => s
  end.

(** The text before the first slash of [s], and the text after it. *)
Fixpoint until_slash (s : string) : option (string * string) :=
  match s with
  | EmptyString => None
  | String c s' =>
      if Ascii.eqb c "/"%char then Some (EmptyString, s')
      else match until_slash s' with
           | Some (u, r) => Some (String c u, r)
           | None => None
           end
  end.

(** [s.replace(a, b)] for single characters. *)
Fixpoint replace_char (a b : ascii) (s : string) : string :=
  match s with
  | EmptyString => EmptyString
  | String c s' => String (if Ascii.eqb c a then b else c) (replace_char a b s')
  end.

Definition dquote : ascii := ascii_of_nat 34.
Definition squote : ascii := ascii_of_nat 39.

(** [os.path.join(a, b)] for a relative [b]. *)
Definition path_join (a b : string) : string :=
  if String.eqb a "" then b else (a ++ "/" ++ b)%string.

Definition dict_remove {V} (k : string) (d : dict V) : dict V :=
  List.filter (fun kv => negb (String.eqb (fst kv) k)) d.

(** * The git repository and the shell *)

Module Git.

(** A commit: its digest ([%H]), the digests of its parents, the one file
    it records (the contest file) with that file's content, and its
    message ([%B]). *)
Record commit : Type := mkCommit {
  digest : string;
  parents : list string;
  path : string;
  content : string;
  message : string
}.

(** What [git diff-tree --no-commit-id -r --name-only] prints for a commit:
    the path it changes against its single parent; nothing for a merge
    commit or a root commit. *)
Definition changed (c : commit) : string :=
  match parents c with
  | [_] => path c
  | _ => ""
  end.

(** The command lines the two operations run. *)
Inductive cmd : Type :=
| git_log_h (branch : string)            (* git log <branch> --pretty=format:'%h' *)
| git_rev_parse_HEAD                     (* git rev-parse --abbrev-ref HEAD *)
| git_checkout_b (branch branchpoint : string) (* git checkout -b <branch> <branchpoint> *)
| git_push_u (branch : string)           (* git push -u origin <branch> *)
| git_push (branch : string)             (* git push origin <branch> *)
| git_push_d (branch : string)           (* git push origin -d <branch> *)
| git_checkout (branch : string)         (* git checkout <branch> *)
| git_branch_D (branch : string)         (* git branch -D <branch> *)
| git_branch_d (branch : string)         (* git branch -d <branch> *)
| git_add (file : string)                (* git add <file> *)
| git_commit_F (file : string)           (* git commit -F <file> *)
| git_commit_m (msg : string)            (* git commit -m <msg> *)
| git_log_1_H (branch : string)          (* git log <branch> -1 --pretty=format:%H *)
| git_rev_list_heads                     (* git rev-list --no-walk --exclude=...main... --all *)
| git_diff_tree (branch : string)        (* git diff-tree --no-commit-id -r --name-only <branch> *)
| git_merge_no_ff (branch : string)      (* git merge --no-ff --no-commit <branch> *)
| git_pull                               (* git pull *)
| git_branch_list (remote : bool)        (* git branch [-r] *)
| openssl_rand_base64 (nbytes : nat)     (* openssl rand -base64 <nbytes> *)
| git_log_grep (branch uid cloak : string) (* git log <branch> --oneline --all-match --grep=... *)
| write_receipt_csv (rows : list string) (* Ballot.write_receipt_csv, logged with the shell-outs *).

(** What [Shellout.run] hands back: the return code and the captured
    standard output, line by line. *)
Record completed : Type := mkCompleted {
  returncode : Z;
  stdout : list string
}.

(** [.stdout.strip()] of a one-line answer. *)
Definition stdout_strip (r : completed) : string := hd "" (stdout r).

(** [.stdout] as one text. *)
Definition stdout_text (r : completed) : string := join "" (stdout r).

(** The state both operations run against.
      - [entropy]: the draws of [random], [secrets] and [openssl rand];
      - [push_rejects]: the remote's verdict on the coming pushes of a CVR
        branch, in order ([true]: rejected); past its end every push is
        accepted;
      - [HEAD]: the branch checked out;
      - [local], [origin]: the local branches and the remote's branches
        other than main, each with its tip, in the order git lists them;
      - [main]: the first-parent history of main, newest first (pull and
        push keep the local and the remote main in step);
      - [worktree]: path to content; [index]: the path staged by git add;
        [merge_head]: the commit of a merge begun with --no-commit;
      - [trace]: every command that was executed with its return code,
        newest first;
      - [warnings]: what [logging.warning] and [logging.error] were given,
        newest first. *)
Record world : Type := mkWorld {
  entropy : Rand.entropy;
  push_rejects : list bool;
  HEAD : string;
  local : dict commit;
  origin : dict commit;
  main : list commit;
  worktree : dict string;
  index : option string;
  merge_head : option commit;
  trace : list (cmd * Z);
  warnings : list string
}.

Definition set_entropy (e : Rand.entropy) (w : world) : world :=
  mkWorld e (push_rejects w) (HEAD w) (local w) (origin w) (main w)
          (worktree w) (index w) (merge_head w) (trace w) (warnings w).
Definition set_push_rejects (r : list bool) (w : world) : world :=
  mkWorld (entropy w) r (HEAD w) (local w) (origin w) (main w)
          (worktree w) (index w) (merge_head w) (trace w) (warnings w).
Definition set_HEAD (h : string) (w : world) : world :=
  mkWorld (entropy w) (push_rejects w) h (local w) (origin w) (main w)
          (worktree w) (index w) (merge_head w) (trace w) (warnings w).
Definition set_local (l : dict commit) (w : world) : world :=
  mkWorld (entropy w) (push_rejects w) (HEAD w) l (origin w) (main w)
          (worktree w) (index w) (merge_head w) (trace w) (warnings w).
Definition set_origin (o : dict commit) (w : world) : world :=
  mkWorld (entropy w) (push_rejects w) (HEAD w) (local w) o (main w)
          (worktree w) (index w) (merge_head w) (trace w) (warnings w).
Definition set_main (m : list commit) (w : world) : world :=
  mkWorld (entropy w) (push_rejects w) (HEAD w) (local w) (origin w) m
          (worktree w) (index w) (merge_head w) (trace w) (warnings w).
Definition set_worktree (t : dict string) (w : world) : world :=
  mkWorld (entropy w) (push_rejects w) (HEAD w) (local w) (origin w) (main w)
          t (index w) (merge_head w) (trace w) (warnings w).
Definition set_index (i : option string) (w : world) : world :=
  mkWorld (entropy w) (push_rejects w) (HEAD w) (local w) (origin w) (main w)
          (worktree w) i (merge_head w) (trace w) (warnings w).
Definition set_merge_head (m : option commit) (w : world) : world :=
  mkWorld (entropy w) (push_rejects w) (HEAD w) (local w) (origin w) (main w)
          (worktree w) (index w) m (trace w) (warnings w).
Definition set_trace (t : list (cmd * Z)) (w : world) : world :=
  mkWorld (entropy w) (push_rejects w) (HEAD w) (local w) (origin w) (main w)
          (worktree w) (index w) (merge_head w) t (warnings w).
Definition set_warnings (l : list string) (w : world) : world :=
  mkWorld (entropy w) (push_rejects w) (HEAD w) (local w) (origin w) (main w)
          (worktree w) (index w) (merge_head w) (trace w) l.

(** [logging.warning(msg)] / [logging.error(msg)] *)
Definition warn (msg : string) (w : world) : world :=
  set_warnings (msg :: warnings w) w.

(** The commit a ref names: main, a local branch, or else a
    remote-tracking ref origin/<b> (git looks under refs/heads before
    refs/remotes). *)
Definition resolve (w : world) (ref : string) : option commit :=
  if String.eqb ref "main" then head (main w)
  else match dict_get (local w) ref with
       | Some c => Some c
       | None =>
           match strip_prefix "origin/" ref with
           | Some b => dict_get (origin w) b
           | None => None
           end
       end.

(** The digests reachable from main that the model knows: the commits of
    main and the branch tips they merged. *)
Definition merged_digests (w : world) : list string :=
  flat_map (fun c => digest c :: parents c) (main w).

(** [git commit]: a new commit on the branch checked out, recording the
    staged path; a merge commit when a merge is open. *)
Definition do_commit (sha : list string -> string -> string -> string)
    (msg : string) (w : world) : Z * world :=
  match index w, merge_head w with
  | None, None => (1%Z, w)      (* nothing to commit *)
  | _, _ =>
      let p := default "" (index w) in
      let ps := match resolve w (HEAD w) with Some t => [digest t] | None => [] end
                ++ match merge_head w with Some m => [digest m] | None => [] end in
      let body := default "" (dict_get (worktree w) p) in
      let c := mkCommit (sha ps msg body) ps p body msg in
      let w1 := if String.eqb (HEAD w) "main"
                then set_main (c :: main w) w
                else set_local (dict_set (local w) (HEAD w) c) w in
      (0%Z, set_merge_head None (set_index None w1))
  end.

(** [git push [-u] origin <branch>] *)
Definition do_push (branch : string) (w : world) : Z * world :=
  if String.eqb branch "main" then (0%Z, w)
  else match dict_get (local w) branch with
       | None => (1%Z, w)
       | Some c =>
           match push_rejects w with
           | true :: rest => (1%Z, set_push_rejects rest w)
           | false :: rest =>
               (0%Z, set_origin (dict_set (origin w) branch c) (set_push_rejects rest w))
           | [] => (0%Z, set_origin (dict_set (origin w) branch c) w)
           end
       end.

(** [git branch -d] refuses a branch that is not fully merged: into its
    upstream when the remote has the branch, into main otherwise. *)
Definition fully_merged (w : world) (branch : string) (c : commit) : bool :=
  match dict_get (origin w) branch with
  | Some c' => String.eqb (digest c') (digest c)
  | None => str_in (digest c) (merged_digests w)
  end.

Definition do_delete (force : bool) (branch : string) (w : world) : Z * world :=
  match dict_get (local w) branch with
  | None => (1%Z, w)
  | Some c =>
      if String.eqb branch (HEAD w) then (1%Z, w)
      else if force || fully_merged w branch c
           then (0%Z, set_local (dict_remove branch (local w)) w)
           else (1%Z, w)
  end.

Fixpoint dedup_str (l : list string) : list string :=
  match l with
  | [] => []
  | x :: l' => if str_in x l' then dedup_str l' else x :: dedup_str l'
  end.

(** What one command does to the state, with its return code and output. *)
Definition exec (sha : list string -> string -> string -> string)
    (c : cmd) (w : world) : completed * world :=
  match c with
  | git_log_h branch =>
      (* only the history of main is kept; %h is not abbreviated *)
      if String.eqb branch "main"
      then (mkCompleted 0 (map digest (main w)), w)
      else (mkCompleted 128 [], w)
  | git_rev_parse_HEAD => (mkCompleted 0 [HEAD w], w)
  | git_checkout_b branch branchpoint =>
      if String.eqb branch "main" || dict_mem branch (local w)
      then (mkCompleted 128 [], w)
      else match find (fun c => String.eqb (digest c) branchpoint) (main w) with
           | None => (mkCompleted 128 [], w)
           | Some c =>
               (mkCompleted 0 [],
                set_HEAD branch (set_local (local w ++ [(branch, c)]) w))
           end
  | git_push_u branch | git_push branch =>
      let (rc, w') := do_push branch w in (mkCompleted rc [], w')
  | git_push_d branch =>
      if dict_mem branch (origin w)
      then (mkCompleted 0 [], set_origin (dict_remove branch (origin w)) w)
      else (mkCompleted 1 [], w)
  | git_checkout branch =>
      if String.eqb branch "main" || dict_mem branch (local w)
      then (mkCompleted 0 [], set_HEAD branch w)
      else (mkCompleted 1 [], w)
  | git_branch_D branch =>
      let (rc, w') := do_delete true branch w in (mkCompleted rc [], w')
  | git_branch_d branch =>
      let (rc, w') := do_delete false branch w in (mkCompleted rc [], w')
  | git_add file =>
      if dict_mem file (worktree w)
      then (mkCompleted 0 [], set_index (Some file) w)
      else (mkCompleted 128 [], w)
  | git_commit_F file =>
      match dict_get (worktree w) file with
      | None => (mkCompleted 128 [], w)
      | Some msg => let (rc, w') := do_commit sha msg w in (mkCompleted rc [], w')
      end
  | git_commit_m msg =>
      let (rc, w') := do_commit sha msg w in (mkCompleted rc [], w')
  | git_log_1_H branch =>
      match resolve w branch with
      | Some c => (mkCompleted 0 [digest c], w)
      | None => (mkCompleted 128 [], w)
      end
  | git_rev_list_heads =>
      (mkCompleted 0 (dedup_str (map (fun kv => digest (snd kv)) (local w ++ origin w))), w)
  | git_diff_tree branch =>
      match resolve w branch with
      | Some c => (mkCompleted 0 [changed c], w)
      | None => (mkCompleted 128 [], w)
      end
  | git_merge_no_ff branch =>
      (* the payload always conflicts: the command never returns zero *)
      match resolve w branch with
      | Some c => (mkCompleted 1 [], set_merge_head (Some c) w)
      | None => (mkCompleted 1 [], w)
      end
  | git_pull => (mkCompleted 0 [], w)
  | git_branch_list remote =>
      (* the lines after strip(); the lines of main and of HEAD never match
         the CVR pattern and are left out *)
      if remote
      then (mkCompleted 0 (map (fun kv => ("origin/" ++ fst kv)%string) (origin w)), w)
      else (mkCompleted 0 (dict_keys (local w)), w)
  | openssl_rand_base64 nbytes =>
      let (s, e) := Rand.rand_base64 nbytes (entropy w) in
      (mkCompleted 0 [s], set_entropy e w)
  | git_log_grep _ _ _ => (mkCompleted 0 [], w)
  | write_receipt_csv rows => (mkCompleted 0 [], w)
  end.

(** [Shellout.run(argv, printonly=..., check=...)]: a print-only call runs
    nothing and reports success; [check] turns a non-zero return code into
    [CalledProcessError]. *)
Definition Shellout_run (sha : list string -> string -> string -> string)
    (argv : cmd) (printonly check : bool) (w : world) : result completed * world :=
  if printonly then (Ok (mkCompleted 0 []), w)
  else
    let (r, w') := exec sha argv w in
    let w'' := set_trace ((argv, returncode r) :: trace w') w' in
    if check && negb (Z.eqb (returncode r) 0)
    then (Raise (CalledProcessError (returncode r)), w'')
    else (Ok r, w'').

End Git.

(** ** Operations on the repository: state and exceptions *)

Definition M (A : Type) : Type := Git.world -> result A * Git.world.

Definition ret {A} (a : A) : M A := fun w => (Ok a, w).
Definition raise {A} (e : exn) : M A := fun w => (Raise e, w).
Definition bind {A B} (m : M A) (k : A -> M B) : M B :=
  fun w => match m w with
           | (Ok a, w') => k a w'
           | (Raise e, w') => (Raise e, w')
           end.
(** [try: body finally: cleanup] *)
Definition finally {A} (body : M A) (cleanup : M unit) : M A :=
  fun w => match body w with
           | (Ok a, w') =>
               match cleanup w' with
               | (Ok _, w'') => (Ok a, w'')
               | (Raise e, w'') => (Raise e, w'')
               end
           | (Raise e, w') =>
               match cleanup w' with
               | (Ok _, w'') => (Raise e, w'')
               | (Raise e', w'') => (Raise e', w'')
               end
           end.
Definition lift {A} (r : result A) : M A := fun w => (r, w).
Definition modify (f : Git.world -> Git.world) : M unit := fun w => (Ok tt, f w).

Declare Scope M_scope.
Delimit Scope M_scope with M.
Notation "'let*' x := m 'in' k" := (bind m (fun x => k))
  (at level 10, x name, m at level 100, k at level 200) : M_scope.
Notation "m ;; k" := (bind m (fun _ => k))
  (at level 100, k at level 200, right associativity) : M_scope.

(** A generator of [Rand] run on the world's entropy. *)
Definition rand {A} (g : Rand.entropy -> result A * Rand.entropy) : M A :=
  fun w => let (r, e) := g (Git.entropy w) in (r, Git.set_entropy e w).

(** [l[i]] *)
Definition list_index {A} (l : list A) (i : nat) : result A :=
  match l !! i with
  | Some x => Ok x
  | None => Raise (IndexError "list index out of range")
  end.

(** [re.search(cvr_regex, line).group(1)] for the pattern
    [^[origin/]CONTEST_FILE_SUBDIR/([^/]+?)/]: the text between the prefix
    and the next slash, which must not be empty. *)
Definition cvr_uid (CONTEST_FILE_SUBDIR : string) (remote : bool)
    (line : string) : option string :=
  let pre := ((if remote then "origin/" else "") ++ CONTEST_FILE_SUBDIR ++ "/")%string in
  match strip_prefix pre line with
  | None => None
  | Some rest =>
      match until_slash rest with
      | Some (uid, _) => if String.eqb uid "" then None else Some uid
      | None => None
      end
  end.

(** * vtp/ops/merge_contests_operation.py *)

Module Merge.

Record args : Type := mkArgs {
  verbosity : Z;
  printonly : bool;
  minimum_cast_cache : Z;
  flush : bool;
  remote : bool;
  branch : string
}.

Section Operation.

(** The digest function of the log store and the name of the CVR
    directory ([Globals.get('CONTEST_FILE_SUBDIR')]). *)
Variable sha : list string -> string -> string -> string.
Variable CONTEST_FILE_SUBDIR : string.
(** [self.args] *)
Variable a : args.

Definition write_file (file text : string) (w : Git.world) : Git.world :=
  Git.set_worktree (dict_set (Git.worktree w) file text) w.

(** Merge a specific branch. *)
Definition merge_contest_branch (branch : string) : M unit :=
  (let* r := Git.Shellout_run sha (Git.git_diff_tree branch) false true in
   let contest_file := Git.stdout_strip r in
   if String.eqb contest_file "" then
     (* no file to merge: pass *)
     modify (Git.warn "Error - git diff-tree returned no files.  Skipping")
   else
     Git.Shellout_run sha (Git.git_merge_no_ff branch) (printonly a) false ;;
     let* result := Git.Shellout_run sha (Git.openssl_rand_base64 48) false true in
     if String.eqb (Git.stdout_text result) "" then
       raise (ValueError "'openssl rand' should never return an empty string")
     else
       (if printonly a then ret tt
        else modify (write_file contest_file (Git.stdout_text result))) ;;
       Git.Shellout_run sha (Git.git_add contest_file) (printonly a) true ;;
       Git.Shellout_run sha (Git.git_commit_m "auto commit - thank you for voting")
                        (printonly a) true ;;
       Git.Shellout_run sha (Git.git_push "main") (printonly a) true ;;
       if negb (remote a) then
         (* delete the local and remote branch if this is a local branch *)
         Git.Shellout_run sha (Git.git_push_d branch) (printonly a) true ;;
         Git.Shellout_run sha (Git.git_branch_d branch) (printonly a) true ;;
         ret tt
       else
         (* otherwise just delete the remote *)
         Git.Shellout_run sha (Git.git_push_d (removeprefix "origin/" branch))
                          (printonly a) true ;;
         ret tt)%M.

(** The [while loop:] of [randomly_merge_contests]; [batch] is edited in
    place and handed back. *)
Fixpoint merge_loop (loop : nat) (batch : list string) : M (list string) :=
  match loop with
  | 0 => ret batch
  | S loop' =>
      (let* pick := rand (Rand.randrange (length batch)) in
       let* branch := lift (list_index batch pick) in
       merge_contest_branch branch ;;
       (* end of loop maintenance *)
       merge_loop loop' (delete pick batch))%M
  end.

(** Returns [count] and the batch as the in-place deletions left it. *)
Definition randomly_merge_contests (uid : string) (batch : list string)
    : M (Z * list string) :=
  let n := Z.of_nat (length batch) in
  let go (count : Z) : M (Z * list string) :=
    (let* batch' := merge_loop (Z.to_nat count) batch in
     ret (count, batch'))%M in
  if (n <=? minimum_cast_cache a)%Z then
    if flush a then go n
    else ret (0%Z, batch)   (* Contest not merged - only n available *)
  else go (n - minimum_cast_cache a)%Z.

Definition truthy (current_uid : option string) : bool :=
  match current_uid with
  | Some u => negb (String.eqb u "")
  | None => false
  end.

(** The [for branch in cvr_branches:] loop of [run], with its three
    variables [batch], [current_uid] and [merged]. *)
Fixpoint run_loop (cvr_branches : list string) (batch : list string)
    (current_uid : option string) (merged : Z)
    : M (list string * option string * Z) :=
  match cvr_branches with
  | [] => ret (batch, current_uid, merged)
  | branch :: rest =>
      match cvr_uid CONTEST_FILE_SUBDIR (remote a) branch with
      | None => raise (AttributeError "'NoneType' object has no attribute 'group'")
      | Some uid =>
          if decide (current_uid = Some uid) then
            run_loop rest (batch ++ [branch]) current_uid merged
          else
            (let* merged :=
               (if truthy current_uid then
                  (* see if previous batch can be merged *)
                  let* r := randomly_merge_contests (default "" current_uid) batch in
                  ret (merged + fst r)%Z
                else ret merged) in
             (* start a new next batch *)
             run_loop rest [branch] (Some uid) merged)%M
      end
  end.

(** [run]; the value handed back is the counter [merged] as it stands when
    the function returns (the source logs it and returns nothing). *)
Definition run : M Z :=
  (Git.Shellout_run sha Git.git_pull (printonly a) true ;;
   if negb (String.eqb (branch a) "") then
     merge_contest_branch (branch a) ;;
     ret 0%Z
   else
     (* get the pending CVR branches *)
     let* r := Git.Shellout_run sha (Git.git_branch_list (remote a)) false true in
     let cvr_branches :=
       filter (fun line => is_Some (cvr_uid CONTEST_FILE_SUBDIR (remote a) line))
              (Git.stdout r) in
     let* st := run_loop cvr_branches [] None 0%Z in
     match st with
     | (batch, current_uid, merged) =>
         match batch with
         | _ :: _ =>
             (* always try to merge the remaining batch *)
             let* r := randomly_merge_contests (default "" current_uid) batch in
             ret (merged + fst r)%Z
         | [] => ret merged
         end
     end)%M.

End Operation.

End Merge.

(** * vtp/ops/accept_ballot_operation.py *)

Module Accept.

(** One entry of [unmerged_cvrs[uid]]: the digest of a pending CVR commit
    and its payload. *)
Record cvr : Type := mkCvr {
  cvr_digest : string;
  cvr_payload : string
}.

(** What the operation takes from the rest of the package (vtp.core is
    not under src/): the values of [Globals], the digest function of the
    log store, and the methods of [Ballot] and [Shellout] it calls. *)
Record services : Type := mkServices {
  sha : list string -> string -> string -> string;
  BALLOT_RECEIPT_ROWS : nat;
  CONTEST_FILE_SUBDIR : string;
  CONTEST_FILE : string;
  (* the text Ballot.write_contest writes for a contest *)
  contest_json : ContestPy.Contest -> string;
  (* Ballot.get_contest_name_by_uid *)
  get_contest_name_by_uid : string -> string;
  (* the path Ballot.write_receipt_csv returns *)
  receipt_path : list string -> string;
  (* Shellout.cvr_parse_git_log_output on the given head commits *)
  cvr_parse_git_log_output : list string -> Git.world -> gmap string (list cvr)
}.

Definition INSUFFICIENT_CVRS : string := "INSUFFICIENT_CVRS".

Section Operation.

Variable env : services.
(** [self.printonly] *)
Variable printonly : bool.

Definition sh (argv : Git.cmd) (printonly check : bool) : M Git.completed :=
  Git.Shellout_run (sha env) argv printonly check.

(** Return a random branchpoint on the supplied branch. *)
Definition get_random_branchpoint (branch : string) : M string :=
  (let* result := sh (Git.git_log_h branch) false true in
   let commits := filter (fun c => negb (String.eqb c "")) (Git.stdout result) in
   rand (Rand.choice commits))%M.

(** Modelled from the spec: the Contest objects that vtp.core.ballot's
    Contests yields are missing; they keep the shape of bin/contest.py's
    Contest, [get] reading and [set] writing a key of the contest
    dictionary.  The uid is used as text. *)
Definition contest_get_uid (c : ContestPy.Contest) : result string :=
  match dict_index (ContestPy.contest c) "uid" with
  | Ok (ContestPy.VStr u) => Ok u
  | Ok _ => Raise (TypeError "can only concatenate str to str")
  | Raise e => Raise e
  end.

Definition contest_set (c : ContestPy.Contest) (k : string) (v : ContestPy.value)
    : ContestPy.Contest :=
  ContestPy.mkContest (ContestPy.name c) (dict_set (ContestPy.contest c) k v)
                      (ContestPy.ggo c) (ContestPy.index c).

(** The body of [for _ in [0, 1, 2]:] in [checkout_new_contest_branch],
    with the [raise] that follows the loop. *)
Fixpoint attempts (tries : nat) (uid branchpoint current_branch branch : string)
    : M string :=
  match tries with
  | 0 =>
      raise (RuntimeError
               ("could not create git branch " ++ branch ++ " on the third attempt"))
  | S tries' =>
      (let* cmd1 := sh (Git.git_checkout_b branch branchpoint) printonly false in
       let* pushed :=
         (if Z.eqb (Git.returncode cmd1) 0 then
            (* created the local branch - see if it is push-able *)
            let* cmd2 := sh (Git.git_push_u branch) printonly false in
            if Z.eqb (Git.returncode cmd2) 0 then ret true
            else
              (* some type of push failure - delete the local branch *)
              sh (Git.git_checkout current_branch) printonly true ;;
              sh (Git.git_branch_D branch) printonly true ;;
              ret false
          else ret false) in
       if (pushed : bool) then ret branch
       else
         (* the local did not get created - try again *)
         let* token := rand (fun e => let (t, e') := Rand.token_hex 5 e in (Ok t, e')) in
         attempts tries' uid branchpoint current_branch (uid ++ "/" ++ token))%M
  end.

(** Will checkout a new branch for a specific contest. *)
Definition checkout_new_contest_branch (contest : ContestPy.Contest)
    (ref_branch : string) : M string :=
  (let* branchpoint := get_random_branchpoint ref_branch in
   let* uid := lift (contest_get_uid contest) in
   let* token := rand (fun e => let (t, e') := Rand.token_hex 5 e in (Ok t, e')) in
   let branch := (CONTEST_FILE_SUBDIR env ++ "/" ++ uid ++ "/" ++ token)%string in
   let* r := sh Git.git_rev_parse_HEAD false true in
   let current_branch := Git.stdout_strip r in
   attempts 3 uid branchpoint current_branch branch)%M.

(** Queries git for the unmerged CVRs. *)
Definition get_unmerged_contests : M (gmap string (list cvr)) :=
  (let* r := sh Git.git_rev_list_heads false true in
   fun w => (Ok (cvr_parse_git_log_output env (Git.stdout r) w), w))%M.

(** Return the cloaked cast CVRs for the specified contest. *)
Definition get_cloaked_contests (uid cloak : string) (branch : string) : M string :=
  (let* r := sh (Git.git_log_grep branch uid cloak) false true in
   ret (Git.stdout_strip r))%M.

Definition contest_file : string :=
  path_join (CONTEST_FILE_SUBDIR env) (CONTEST_FILE env).

(** Will git add and commit the new contest content. *)
Definition contest_add_and_commit (branch : string) : M string :=
  (sh (Git.git_add contest_file) printonly false ;;
   sh (Git.git_commit_F contest_file) printonly false ;;
   (* capture the digest *)
   let* r := sh (Git.git_log_1_H branch) printonly true in
   ret (Git.stdout_strip r))%M.

(** *** The receipt *)

(** The first loop of [create_ballot_receipt]: the warnings, the flag
    [skip_receipt] and the in-place shuffle of each pool of the ballot. *)
Fixpoint shuffle_pools (uids : list string) (unmerged_cvrs : gmap string (list cvr))
    (skip_receipt : bool) : M (bool * gmap string (list cvr)) :=
  match uids with
  | [] => ret (skip_receipt, unmerged_cvrs)
  | uid :: rest =>
      match unmerged_cvrs !! uid with
      | None =>
          (modify (Git.warn ("Warning - no unmerged_cvrs yet for contest " ++ uid)) ;;
           shuffle_pools rest unmerged_cvrs true)%M
      | Some pool =>
          (let* skip :=
             (if Nat.ltb (length pool) (BALLOT_RECEIPT_ROWS env) then
                modify (Git.warn ("Warning - not enough unmerged CVRs to print receipt for contest " ++ uid)) ;;
                ret true
              else ret skip_receipt) in
           let* pool' := rand (fun e => let (p, e') := Rand.shuffle pool e in (Ok p, e')) in
           shuffle_pools rest (<[uid := pool']> unmerged_cvrs) skip)%M
      end
  end.

(** One column label of the header row. *)
Definition header_cell (uid : string) : string :=
  (String dquote uid ++ " - "
   ++ replace_char dquote squote (get_contest_name_by_uid env uid)
   ++ String dquote "")%string.

(** One cell of a row that is not the voter's, with the set
    [redacted_uids] as the cell leaves it. *)
Definition receipt_cell (unmerged_cvrs : gmap string (list cvr)) (voters_row row : nat)
    (uid digest : string) (redacted_uids : gset string)
    : result (string * gset string) :=
  match unmerged_cvrs !! uid with
  | None =>
      (* there are no other such cast uids in this case *)
      Ok (INSUFFICIENT_CVRS, {[uid]} ∪ redacted_uids)
  | Some pool =>
      if Nat.ltb (length pool) row then
        Ok (INSUFFICIENT_CVRS, {[uid]} ∪ redacted_uids)
      else
        (do c <- list_index pool row;
         if String.eqb digest (cvr_digest c) then
           (* this is the voter's own digest! *)
           if Nat.ltb (length pool) (voters_row - 1) then
             Ok (INSUFFICIENT_CVRS, {[uid]} ∪ redacted_uids)
           else
             do c' <- list_index pool (voters_row - 1);
             Ok (cvr_digest c', redacted_uids)
         else Ok (cvr_digest c, redacted_uids))%result
  end.

(** [for uid, digest in contest_receipts.items():] building [next_row]. *)
Fixpoint receipt_row (unmerged_cvrs : gmap string (list cvr)) (voters_row row : nat)
    (items : dict string) (redacted_uids : gset string)
    : result (list string * gset string) :=
  match items with
  | [] => Ok ([], redacted_uids)
  | (uid, digest) :: rest =>
      (do c <- receipt_cell unmerged_cvrs voters_row row uid digest redacted_uids;
       do r <- receipt_row unmerged_cvrs voters_row row rest (snd c);
       Ok (fst c :: fst r, snd r))%result
  end.

(** [for row in range(BALLOT_RECEIPT_ROWS):] over the row numbers [rows];
    the rows come back cell by cell, before they are joined. *)
Fixpoint receipt_rows (unmerged_cvrs : gmap string (list cvr)) (voters_row : nat)
    (contest_receipts : dict string) (rows : list nat) (redacted_uids : gset string)
    : result (list (list string) * gset string) :=
  match rows with
  | [] => Ok ([], redacted_uids)
  | row :: rest =>
      if Nat.eqb row (voters_row - 1) then
        (* include the voter's receipts instead *)
        (do r <- receipt_rows unmerged_cvrs voters_row contest_receipts rest redacted_uids;
         Ok (dict_values contest_receipts :: fst r, snd r))%result
      else
        (do next_row <- receipt_row unmerged_cvrs voters_row row contest_receipts redacted_uids;
         do r <- receipt_rows unmerged_cvrs voters_row contest_receipts rest (snd next_row);
         Ok (fst next_row :: fst r, snd r))%result
  end.

Definition inner_loop (unmerged_cvrs : gmap string (list cvr)) (voters_row : nat)
    (contest_receipts : dict string) : result (list (list string) * gset string) :=
  receipt_rows unmerged_cvrs voters_row contest_receipts
               (seq 0 (BALLOT_RECEIPT_ROWS env)) ∅.

(** Create the voter's receipt: the lines of the csv, the voter's row (not
    0 based) and the path of the file. *)
Definition create_ballot_receipt (contest_receipts : dict string)
    (unmerged_cvrs : gmap string (list cvr)) : M (list string * nat * string) :=
  (let* st := shuffle_pools (dict_keys contest_receipts) unmerged_cvrs false in
   let unmerged_cvrs := snd st in
   if fst st then
     modify (Git.warn "Skipping ballot receipt due to lack of unmerged CVRs") ;;
     ret ([], 0, "")
   else
     let* voters_row := rand (Rand.randint 1 (BALLOT_RECEIPT_ROWS env)) in
     let header := join "," (map header_cell (dict_keys contest_receipts)) in
     let* rows := lift (inner_loop unmerged_cvrs voters_row contest_receipts) in
     let ballot_receipt := header :: map (join ",") (fst rows) in
     sh (Git.write_receipt_csv ballot_receipt) false false ;;
     ret (ballot_receipt, voters_row, receipt_path env ballot_receipt))%M.

(** *** The operation *)

(** Modelled from the spec: [Shellout.changed_branch] is missing; it
    checks the branch out on entry and again on every exit path. *)
Definition changed_branch {A} (branch : string) (body : M A) : M A :=
  (sh (Git.git_checkout branch) false true ;;
   finally body (sh (Git.git_checkout branch) false true ;; ret tt))%M.

(** The body of [for contest in contests:] in [run]. *)
Definition submit_contest (contest : ContestPy.Contest)
    (branches : list string) (contest_receipts : dict string)
    : M (list string * dict string) :=
  changed_branch "main"
    (let* uid := lift (contest_get_uid contest) in
     (* atomically create the branch locally and remotely *)
     let* branch := checkout_new_contest_branch contest "main" in
     let branches := branches ++ [branch] in
     (* add the cast_branch to the contest json payload *)
     let contest := contest_set contest "cast_branch" (ContestPy.VStr branch) in
     (* write out the voter's contest to CVRs/contest.json *)
     modify (fun w => Git.set_worktree
                        (dict_set (Git.worktree w) contest_file (contest_json env contest)) w) ;;
     (* commit the voter's contest *)
     let* digest := contest_add_and_commit branch in
     let contest_receipts := dict_set contest_receipts uid digest in
     (* if cloaking, get those as well *)
     match dict_get (ContestPy.contest contest) "cloak" with
     | Some cloak =>
         let target := match cloak with ContestPy.VStr s => s | _ => "" end in
         get_cloaked_contests uid target "main" ;;
         ret (branches, contest_receipts)
     | None => ret (branches, contest_receipts)
     end)%M.

Fixpoint submit_contests (contests : list ContestPy.Contest)
    (branches : list string) (contest_receipts : dict string)
    : M (list string * dict string) :=
  match contests with
  | [] => ret (branches, contest_receipts)
  | contest :: rest =>
      (let* st := submit_contest contest branches contest_receipts in
       submit_contests rest (fst st) (snd st))%M
  end.

(** [for branch in branches:] push, then delete the local branch; neither
    return code is looked at. *)
Fixpoint push_branches (branches : list string) : M unit :=
  match branches with
  | [] => ret tt
  | branch :: rest =>
      (sh (Git.git_push branch) printonly false ;;
       sh (Git.git_branch_d branch) printonly false ;;
       push_branches rest)%M
  end.

(** Demo mode: merge each branch from its remote reference. *)
Fixpoint merge_branches (branches : list string) : M unit :=
  match branches with
  | [] => ret tt
  | branch :: rest =>
      (Merge.run (sha env) (CONTEST_FILE_SUBDIR env)
                 (Merge.mkArgs 3 printonly 100 false true ("origin/" ++ branch)) ;;
       merge_branches rest)%M
  end.

(** [run], from the verified ballot on: the contests of the ballot are its
    input. *)
Definition run (contests : list ContestPy.Contest) (merge_contests : bool)
    : M (list string * nat) :=
  (let* unmerged_cvrs := get_unmerged_contests in
   let* st := submit_contests contests [] [] in
   let branches := fst st in
   let contest_receipts := snd st in
   (* push as atomically as possible all the contests *)
   push_branches branches ;;
   (if merge_contests then merge_branches branches else ret tt) ;;
   (* create the ballot check *)
   let* r := create_ballot_receipt contest_receipts unmerged_cvrs in
   match r with
   | (ballot_check, index, receipt_file) => ret (ballot_check, index)
   end)%M.

End Operation.

End Accept.

(** * The mock election drivers *)

(** The two run_mock_election.py scripts shell out to the other scripts of
    the package.  What those do is not their business: the machine they
    run on and the effect of a command line on it are left open. *)
Module Shell.

(** One word of a command line: text, or a number as argparse left it. *)
Inductive word : Type :=
| Str (s : string)
| Num (z : Z).

Section Machine.

(** The machine, and what a command line does to it: the return code and
    the machine afterwards. *)
Variable W : Type.
Variable exec : list word -> W -> Z * W.

(** The machine with the log of the commands that were executed, each with
    its return code, newest first. *)
Record state : Type := mkState {
  machine : W;
  trace : list (list word * Z)
}.

Definition M (A : Type) : Type := state -> result A * state.

Definition ret {A} (a : A) : M A := fun s => (Ok a, s).
Definition raise {A} (e : exn) : M A := fun s => (Raise e, s).
Definition bind {A B} (m : M A) (k : A -> M B) : M B :=
  fun s => match m s with
           | (Ok a, s') => k a s'
           | (Raise e, s') => (Raise e, s')
           end.

(** [for x in l: body(x)] *)
Fixpoint for_each {A} (l : list A) (body : A -> M unit) : M unit :=
  match l with
  | [] => ret tt
  | x :: rest => bind (body x) (fun _ => for_each rest body)
  end.

(** [Shellout.run(argv, printonly=..., check=...)]: a print-only call runs
    nothing and reports success; [check] turns a non-zero return code into
    [CalledProcessError]. *)
Definition Shellout_run (argv : list word) (printonly check : bool) : M Z :=
  fun s =>
    if printonly then (Ok 0%Z, s)
    else
      let (rc, w') := exec argv (machine s) in
      let s' := mkState w' ((argv, rc) :: trace s) in
      if check && negb (Z.eqb rc 0) then (Raise (CalledProcessError rc), s')
      else (Ok rc, s').

End Machine.

Arguments mkState {W}.
Arguments machine {W}.
Arguments trace {W}.
Arguments ret {W A}.
Arguments raise {W A}.
Arguments bind {W A B}.
Arguments for_each {W A}.

(** [s.endswith(suffix)] *)
Definition endswith (suffix s : string) : bool :=
  let n := String.length suffix in
  let m := String.length s in
  Nat.leb n m && String.eqb (substring (m - n) n s) suffix.

(** The blank ballots under the election data: the files of [os.walk]
    named ...,ballot.json in a directory ...blank-ballots/json, each joined
    to its directory. *)
Definition find_blank_ballots (walk : list (string * list string)) : list string :=
  flat_map (fun entry =>
              map (path_join (fst entry))
                  (List.filter (fun f => endswith ",ballot.json" f
                                         && endswith "blank-ballots/json" (fst entry))
                               (snd entry)))
           walk.

Definition string_of_Z (z : Z) : string := DecimalString.NilZero.string_of_int (Z.to_int z).

End Shell.

(** ** src/vtp/run_mock_election.py *)

Module RunMockElection.

Import Shell.

(** [ARGS]: the namespace of the command line, without the address. *)
Record args : Type := mkArgs {
  blank_ballot : option string;
  device : string;
  minimum_cast_cache : Z;
  flush_mode : Z;
  iterations : Z;
  verbosity : Z;
  printonly : bool
}.

(** [parse_arguments], from the namespace [parser.parse_args()] returned
    on: the level lookup for logging, then the validation. *)
Definition parse_arguments (parsed_args : args) : result args :=
  if negb (existsb (Z.eqb (verbosity parsed_args)) [0; 1; 2; 3; 4]%Z) then
    (* verbose[parsed_args.verbosity] *)
    Raise (KeyError (string_of_Z (verbosity parsed_args)))
  else if negb (str_in (device parsed_args) ["scanner"; "server"; "both"]) then
    Raise (ValueError
             ("The --device parameter only accepts 'device' or 'server' or 'both' - ("
              ++ device parsed_args ++ ") was suppllied."))
  else if negb (existsb (Z.eqb (flush_mode parsed_args)) [0; 1; 2]%Z) then
    Raise (ValueError
             ("The value of flush_mode must be either 0, 1, or 2 - "
              ++ string_of_Z (flush_mode parsed_args) ++ " was supplied."))
  else Ok parsed_args.

(** What [scanner_mockup] takes from the rest of the package (vtp.utils is
    not under src/): the paths [Shellout.get_script_name] gives for the four
    scripts, [Ballot.get_cast_from_blank], and what [os.walk] finds under
    the election data. *)
Record scripts : Type := mkScripts {
  merge_contests : string;
  tally_contests : string;
  cast_ballot : string;
  accept_ballot : string;
  get_cast_from_blank : string -> string;
  walk : list (string * list string)
}.

Section Scanner.

Variable W : Type.
Variable exec : list word -> W -> Z * W.
Variable ARGS : args.
Variable sc : scripts.

Definition run (argv : list word) : M W unit :=
  bind (Shellout_run W exec argv (printonly ARGS) true) (fun _ => ret tt).

Definition git_pull : list word := [Str "git"; Str "pull"].
Definition git_gc : list word := [Str "git"; Str "gc"].

Definition cast_cmd (blank : string) : list word :=
  [Str (cast_ballot sc); Str ("--blank_ballot=" ++ blank); Str "--demo_mode";
   Str "-v"; Num (verbosity ARGS)].

Definition accept_cmd (blank : string) : list word :=
  [Str (accept_ballot sc); Str ("--cast_ballot=" ++ get_cast_from_blank sc blank);
   Str "-v"; Num (verbosity ARGS)].

Definition merge_flush_cmd : list word :=
  [Str (merge_contests sc); Str "-f"; Str "-v"; Num (verbosity ARGS)].

Definition merge_cmd : list word :=
  [Str (merge_contests sc); Str "-m"; Num (minimum_cast_cache ARGS);
   Str "-v"; Num (verbosity ARGS)].

Definition tally_cmd : list word :=
  [Str (tally_contests sc); Str "-v"; Num (verbosity ARGS)].

(** The body of [for blank_ballot in blank_ballots:]. *)
Definition cast_one (count : nat) (blank : string) : M W unit :=
  bind (run git_pull) (fun _ =>
  (* cast a ballot *)
  bind (run (cast_cmd blank)) (fun _ =>
  (* accept the ballot *)
  bind (run (accept_cmd blank)) (fun _ =>
  if String.eqb (device ARGS) "both" then
    (* merge the ballot's contests *)
    bind (if Z.eqb (flush_mode ARGS) 2 then run merge_flush_cmd else run merge_cmd)
         (fun _ =>
    (* don't let too much garbage build up *)
    if Nat.eqb (count mod 10) 9 then run git_gc else ret tt)
  else ret tt))).

(** The list of available blank ballots: the one that was specified, or
    all those of the election data. *)
Definition blank_ballots (ballot : option string) : list string :=
  match ballot with
  | Some b =>
      if negb (String.eqb b "") then [b] else find_blank_ballots (walk sc)
  | None => find_blank_ballots (walk sc)
  end.

(** Simulate a VTP scanner. *)
Definition scanner_mockup (ballot : option string) : M W unit :=
  match blank_ballots ballot with
  | [] => raise (ValueError "found no blank ballots to cast")
  | _ :: _ =>
      bind (for_each (seq 0 (Z.to_nat (iterations ARGS)))
                     (fun count => for_each (blank_ballots ballot) (cast_one count)))
           (fun _ =>
      bind (if String.eqb (device ARGS) "both" then
              (* merge the remaining contests, tally the contests *)
              bind (run merge_flush_cmd) (fun _ => run tally_cmd)
            else ret tt)
           (fun _ =>
      (* clean up git just in case *)
      run git_gc))
  end.

End Scanner.

End RunMockElection.

(** ** bin/run_mock_election.py *)

Module BinRunMockElection.

Import Shell.

Section Main.

Variable W : Type.
Variable exec : list word -> W -> Z * W.
(** [args.iterations], [args.printonly] *)
Variable iterations : Z.
Variable printonly : bool.
(** what [os.walk] finds under the election data *)
Variable walk : list (string * list string).

Definition run (argv : list word) : M W unit :=
  bind (Shellout_run W exec argv printonly false) (fun _ => ret tt).

(** The body of [for blank_ballot in blank_ballots:]. *)
Definition cast_one (blank : string) : M W unit :=
  bind (run [Str "./cast_ballot.py"; Str ("blank_ballot=" ++ blank)]) (fun _ =>
  bind (run [Str "./accept_ballot.py"; Str ("ballot_ballot=" ++ blank)]) (fun _ =>
  (* merge the ballot (first 100 will be a noop) *)
  run [Str "./merge_ballot.py"])).

Definition main : M W unit :=
  let blank_ballots := find_blank_ballots walk in
  bind (for_each (seq 0 (Z.to_nat iterations))
                 (fun _ => for_each blank_ballots cast_one))
       (fun _ =>
  (* merge the remaining contests *)
  bind (run [Str "./merge_ballot.py"; Str "-f"]) (fun _ =>
  (* tally the contests *)
  run [Str "./tally_ballot.py"])).

End Main.

End BinRunMockElection.

(** * Vocabulary of the statements *)

Section Vocabulary.

Import Accept.

(** The pool of [uid] is missing from the snapshot, or has fewer than
    [rows] entries. *)
Definition short_pool (rows : nat) (unmerged_cvrs : gmap string (list cvr))
    (uid : string) : bool :=
  match unmerged_cvrs !! uid with
  | None => true
  | Some pool => Nat.ltb (length pool) rows
  end.

(** The pending pool is degraded for a ballot: some uid of
    [contest_receipts] has a short pool. *)
Definition degraded (env : services) (contest_receipts : dict string)
    (unmerged_cvrs : gmap string (list cvr)) : bool :=
  existsb (short_pool (BALLOT_RECEIPT_ROWS env) unmerged_cvrs)
          (dict_keys contest_receipts).

(** Two snapshots hold the same pools up to the order inside each pool. *)
Definition pools_perm (um um' : gmap string (list cvr)) : Prop :=
  forall uid,
    match um !! uid, um' !! uid with
    | Some p, Some p' => p' ≡ₚ p
    | None, None => True
    | _, _ => False
    end.

Definition digests (pool : list cvr) : list string := map cvr_digest pool.

(** The digest [d] is the digest of at most one entry of the pool. *)
Definition at_most_once (d : string) (pool : list cvr) : Prop :=
  count_occ string_dec (digests pool) d <= 1.

(** What a cell outside the voter's row is, in the column of the receipt
    item [(uid, d)]: a digest of the pool of [uid], and not the voter's
    digest [d] when that digest is in the pool at most once. *)
Definition good_cell (um : gmap string (list cvr)) (item : string * string)
    (cell : string) : Prop :=
  exists pool,
    um !! fst item = Some pool
    /\ cell ∈ digests pool
    /\ (at_most_once (snd item) pool -> cell <> snd item).

(** The header line of a receipt. *)
Definition receipt_header (env : services) (contest_receipts : dict string) : string :=
  join "," (map (header_cell env) (dict_keys contest_receipts)).

End Vocabulary.

(** * Vocabulary of the repository *)

Section RepoVocabulary.

(** The part of the state that is the repository proper. *)
Definition repo (w : Git.world) : string * dict Git.commit * dict Git.commit * list Git.commit :=
  (Git.HEAD w, Git.local w, Git.origin w, Git.main w).

(** The commands that read the repository without changing it. *)
Definition quiet (c : Git.cmd) : bool :=
  match c with
  | Git.git_checkout_b _ _ | Git.git_push_u _ | Git.git_push _ | Git.git_push_d _
  | Git.git_checkout _ | Git.git_branch_D _ | Git.git_branch_d _
  | Git.git_commit_F _ | Git.git_commit_m _ => false
  | _ => true
  end.

(** The lines of [git branch] ([git branch -r] when [remote]). *)
Definition listing (remote : bool) (w : Git.world) : list string :=
  if remote then map (fun kv => ("origin/" ++ fst kv)%string) (Git.origin w)
  else dict_keys (Git.local w).

(** The pending CVR branches: the lines that match the CVR pattern. *)
Definition pending (subdir : string) (remote : bool) (w : Git.world) : list string :=
  filter (fun line => is_Some (cvr_uid subdir remote line)) (listing remote w).

(** The tip of the branch changes a file: [merge_contest_branch] does not
    skip it. *)
Definition has_diff (w : Git.world) (branch : string) : Prop :=
  exists c, Git.resolve w branch = Some c /\ Git.changed c <> "".

(** Equal uids stand next to each other: once a uid is followed by another
    one it does not come back. *)
Fixpoint grouped (uids : list (option string)) : Prop :=
  match uids with
  | [] => True
  | u :: rest =>
      match rest with
      | [] => True
      | v :: _ => (u = v \/ ~ In u rest) /\ grouped rest
      end
  end.

(** How many lines of [l] carry the uid [u]. *)
Definition uid_count (subdir : string) (remote : bool) (u : option string)
    (l : list string) : nat :=
  length (filter (fun x => cvr_uid subdir remote x = u) l).

(** No contest has more than [k] of the branches of [l]. *)
Definition small (subdir : string) (remote : bool) (k : Z) (l : list string) : Prop :=
  forall b, b ∈ l ->
    (Z.of_nat (uid_count subdir remote (cvr_uid subdir remote b) l) <= k)%Z.

(** The branch names [git checkout -b] was run with, oldest first. *)
Definition attempted (w : Git.world) : list string :=
  flat_map (fun ev => match fst ev with
                      | Git.git_checkout_b branch _ => [branch]
                      | _ => []
                      end)
           (rev (Git.trace w)).

(** The trace of [w'] continues the trace of [w]. *)
Definition grows (w w' : Git.world) : Prop :=
  exists t, Git.trace w' = t ++ Git.trace w.

(** [m] raises nothing but exceptions of the kind [P]. *)
Definition raises_only {A} (P : exn -> Prop) (m : M A) : Prop :=
  forall w e w', m w = (Raise e, w') -> P e.

(** Every exception but the RuntimeError of a failed branch allocation. *)
Definition not_RuntimeError (e : exn) : Prop :=
  match e with RuntimeError _ => False | _ => True end.

(** The local branches of [w] are still there in [w']. *)
Definition keeps (w w' : Git.world) : Prop :=
  forall b, dict_mem b (Git.local w) = true -> dict_mem b (Git.local w') = true.

(** The commands that delete a local branch. *)
Definition deletes (c : Git.cmd) : bool :=
  match c with
  | Git.git_branch_D _ | Git.git_branch_d _ => true
  | _ => false
  end.

(** The commands that create, move or delete a local branch. *)
Definition alters_local (c : Git.cmd) : bool :=
  match c with
  | Git.git_checkout_b _ _ | Git.git_branch_D _ | Git.git_branch_d _
  | Git.git_commit_F _ | Git.git_commit_m _ => true
  | _ => false
  end.

(** [w'] has the local branches of [w], at the same commits. *)
Definition same_local (w w' : Git.world) : Prop := Git.local w' = Git.local w.

(** What is known of the result [r] of an operation: [Q] of the value it
    returns, [P] when it gives up with the RuntimeError of a failed branch
    allocation; any other exception is left open. *)
Definition outcome {A} (Q : A -> Prop) (P : Prop) (r : result A) : Prop :=
  match r with
  | Ok a => Q a
  | Raise (RuntimeError _) => P
  | Raise _ => True
  end.

(** What [merge_contest_branch] logs when it skips a branch. *)
Definition no_files : string := "Error - git diff-tree returned no files.  Skipping".

(** [w'] has the branches of [w]: the local ones, the remote ones and
    main; HEAD may have moved. *)
Definition same_branches (w w' : Git.world) : Prop :=
  Git.local w' = Git.local w /\ Git.origin w' = Git.origin w /\ Git.main w' = Git.main w.

(** [w'] has the repository of [w]. *)
Definition same_repo (w w' : Git.world) : Prop := repo w' = repo w.

(** One round of the loop of [checkout_new_contest_branch], up to the
    point where the next name is drawn: whether the branch was created and
    pushed. *)
Definition attempt_once (env : Accept.services) (branchpoint current_branch branch : string)
    : M bool :=
  (let* cmd1 := Accept.sh env (Git.git_checkout_b branch branchpoint) false false in
   if Z.eqb (Git.returncode cmd1) 0 then
     let* cmd2 := Accept.sh env (Git.git_push_u branch) false false in
     if Z.eqb (Git.returncode cmd2) 0 then ret true
     else
       Accept.sh env (Git.git_checkout current_branch) false true ;;
       Accept.sh env (Git.git_branch_D branch) false true ;;
       ret false
   else ret false)%M.

(** A token of [secrets.token_hex(5)]: ten hex digits. *)
Definition is_token (t : string) : Prop :=
  String.length t = 10
  /\ Forall (fun c => Rand.is_hex c = true) (list_ascii_of_string t).

(** [w'] has the repository of [w] and no further branch was attempted. *)
Definition calm (w w' : Git.world) : Prop :=
  repo w' = repo w /\ attempted w' = attempted w.



(** The number of branches [randomly_merge_contests] sets out to merge. *)
Definition merge_count (a : Merge.args) (n : Z) : Z :=
  if (n <=? Merge.minimum_cast_cache a)%Z
  then (if Merge.flush a then n else 0%Z)
  else (n - Merge.minimum_cast_cache a)%Z.

End RepoVocabulary.

(** * Sample inputs

    A small election for the concrete runs: receipts of three rows, the
    CVR directory CVRs, and a log store whose digest is a tag of the commit
    message. *)

Section Samples.

Import Accept.

Definition sample_sha (ps : list string) (msg body : string) : string :=
  ("#" ++ join "," ps ++ ":" ++ msg)%string.

Definition sample_json (c : ContestPy.Contest) : string :=
  match dict_get (ContestPy.contest c) "cast_branch" with
  | Some (ContestPy.VStr b) => (ContestPy.name c ++ "@" ++ b)%string
  | _ => ContestPy.name c
  end.

Definition sample_env : services :=
  mkServices sample_sha 3 "CVRs" "contest.json" sample_json
             (fun uid => uid) (fun _ => "receipt.csv") (fun _ _ => ∅).

Definition root_commit : Git.commit :=
  Git.mkCommit "c0" [] "" "" "initial".

(** A fresh clone: main holds its root commit, nothing is pending. *)
Definition sample_world (entropy : Rand.entropy) (push_rejects : list bool)
    : Git.world :=
  Git.mkWorld entropy push_rejects "main" [] [] [root_commit] [] None None [] [].

Definition sample_cvr (d : string) : cvr := mkCvr d "".

(** Contest A with three pending CVRs. *)
Definition sample_pool : gmap string (list cvr) :=
  {[ "A" := [sample_cvr "a1"; sample_cvr "a2"; sample_cvr "a3"] ]}.


(** A CVR commit on top of the root commit, with the digest [d]. *)
Definition cvr_commit (d : string) : Git.commit :=
  Git.mkCommit d ["c0"] "CVRs/contest.json" d d.

(** The remote holds three pending CVR branches of contest A and one of
    contest B. *)
Definition pending_world (entropy : Rand.entropy) : Git.world :=
  Git.mkWorld entropy [] "main" []
    [("CVRs/A/01", cvr_commit "a1"); ("CVRs/A/02", cvr_commit "a2");
     ("CVRs/A/03", cvr_commit "a3"); ("CVRs/B/01", cvr_commit "b1")]
    [root_commit] [] None None [] [].

(** The remote holds three branches of contest A; the first one was
    pushed without its CVR commit and still points at the root commit. *)
Definition orphan_world (entropy : Rand.entropy) : Git.world :=
  Git.mkWorld entropy [] "main" []
    [("CVRs/A/01", root_commit); ("CVRs/A/02", cvr_commit "a2");
     ("CVRs/A/03", cvr_commit "a3")]
    [root_commit] [] None None [] [].

(** Two contests of a cast ballot. *)
Definition mayor : ContestPy.Contest :=
  ContestPy.mkContest "Mayor"
    [("uid", ContestPy.VStr "A"); ("selection", ContestPy.VList ["0"])] "town" 0.

Definition clerk : ContestPy.Contest :=
  ContestPy.mkContest "Clerk"
    [("uid", ContestPy.VStr "B"); ("selection", ContestPy.VList ["1"])] "town" 1.




(** accept-ballot on a ballot of two contests, against a remote that
    accepts the branch of the first and rejects the next three pushes. *)
Definition aborted_run : result (list string * nat) * Git.world :=
  Accept.run sample_env false [mayor; clerk] false
             (sample_world [] [false; true; true; true]).

(** A blob with one contest: ranked choice, two candidates, no max. *)
Definition rcv_blob : dict (dict ContestPy.value) :=
  [("Mayor", [("candidates", ContestPy.VList ["Ann"; "Bob"]);
              ("tally", ContestPy.VStr "rcv")])].

(** A blob with one question, plurality. *)
Definition question_blob : dict (dict ContestPy.value) :=
  [("Bond", [("question", ContestPy.VStr "Borrow?");
             ("tally", ContestPy.VStr "plurality")])].


(** merge-contests on the remote branches with threshold 1. *)
Definition merge_args (flush : bool) : Merge.args :=
  Merge.mkArgs 3 false 1 flush true "".

End Samples.

(** * Vocabulary of the mock election *)

Section ShellVocabulary.

Import Shell.

Variable W : Type.
Variable exec : list word -> W -> Z * W.

(** Running a list of commands one after the other. *)
Definition run_list (printonly check : bool) (cmds : list (list word))
    : Shell.M W unit :=
  for_each cmds (fun c => bind (Shellout_run W exec c printonly check)
                               (fun _ => ret tt)).

(** The machine after a list of commands. *)
Definition after (cmds : list (list word)) (w : W) : W :=
  fold_left (fun w c => snd (exec c w)) cmds w.

(** A log entry of a command that returned 0. *)
Definition passed (e : list word * Z) : Prop := snd e = 0%Z.

End ShellVocabulary.

Arguments passed /.

Section ScannerVocabulary.

Import Shell RunMockElection.

Variable ARGS : args.
Variable sc : scripts.

(** The commands of one ballot in iteration [count]. *)
Definition ballot_cmds (count : nat) (blank : string) : list (list word) :=
  [git_pull; cast_cmd ARGS sc blank; accept_cmd ARGS sc blank]
  ++ (if String.eqb (device ARGS) "both" then
        [if Z.eqb (flush_mode ARGS) 2 then merge_flush_cmd ARGS sc
         else merge_cmd ARGS sc]
        ++ (if Nat.eqb (count mod 10) 9 then [git_gc] else [])
      else []).

(** The commands of a whole run over [ballots]. *)
Definition scanner_cmds (ballots : list string) : list (list word) :=
  flat_map (fun count => flat_map (ballot_cmds count) ballots)
           (seq 0 (Z.to_nat (iterations ARGS)))
  ++ (if String.eqb (device ARGS) "both" then
        [merge_flush_cmd ARGS sc; tally_cmd ARGS sc]
      else [])
  ++ [git_gc].

(** Casting and accepting [blank]: the commands of a scanner that does
    not merge. *)
Definition cast_and_accept (blank : string) : list (list word) :=
  [git_pull; cast_cmd ARGS sc blank; accept_cmd ARGS sc blank].

End ScannerVocabulary.

Section MockSamples.

Import Shell RunMockElection.

Definition sample_scripts : scripts :=
  mkScripts "merge_contests.py" "tally_contests.py" "cast_ballot.py"
            "accept_ballot.py" (fun blank => (blank ++ ".cast")%string)
            [(".", ["config.yaml"]);
             ("./GGOs/towns/Concord/blank-ballots/json",
              ["000001,ballot.json"; "notes.txt"])].

Definition scanner_args : args := mkArgs None "scanner" 100 0 2 3 false.
Definition both_args : args := mkArgs None "both" 100 0 1 3 false.
Definition dry_args : args := mkArgs None "both" 100 2 2 3 true.

(** A machine that counts the commands it ran, all of them with success. *)
Definition obliging (argv : list word) (n : nat) : Z * nat := (0%Z, S n).

(** The same machine with an accept script that fails. *)
Definition refusing (argv : list word) (n : nat) : Z * nat :=
  match argv with
  | Str p :: _ => if String.eqb p "accept_ballot.py" then (1%Z, S n) else (0%Z, S n)
  | _ => (0%Z, S n)
  end.

Definition fresh : state nat := mkState 0 [].

End MockSamples.

Section BinVocabulary.

Import Shell.

(** The three commands bin/run_mock_election.py issues for one ballot. *)
Definition bin_ballot_cmds (blank : string) : list (list word) :=
  [[Str "./cast_ballot.py"; Str ("blank_ballot=" ++ blank)];
   [Str "./accept_ballot.py"; Str ("ballot_ballot=" ++ blank)];
   [Str "./merge_ballot.py"]].

End BinVocabulary.

(** * Properties *)

(** ** Dictionaries and strings *)

Lemma str_in_spec k l : str_in k l = true <-> In k l.
Proof.
  unfold str_in. rewrite existsb_exists. split.
  - intros [x [Hx Hk]]. apply String.eqb_eq in Hk. now subst.
  - intros Hk. exists k. split; [assumption | apply String.eqb_refl].
Qed.

Lemma str_in_false k l : str_in k l = false <-> ~ In k l.
Proof.
  rewrite <- str_in_spec. destruct (str_in k l); split; congruence.
Qed.

Lemma dict_get_set_eq {V} (d : dict V) k v : dict_get (dict_set d k v) k = Some v.
Proof.
  induction d as [| [k' v'] d IH]; simpl.
  - now rewrite String.eqb_refl.
  - destruct (String.eqb k' k) eqn:E; simpl; rewrite E; [reflexivity | exact IH].
Qed.

Lemma dict_index_Ok {V} (d : dict V) k v : dict_index d k = Ok v <-> dict_get d k = Some v.
Proof.
  unfold dict_index. destruct (dict_get d k); split; intros H; congruence.
Qed.

(** ** bin/contest.py *)

Section ContestFacts.

Import ContestPy.

Lemma check_keys_Ok keys :
  check_keys keys = Ok tt <-> Forall (fun k => In k _keys) keys.
Proof.
  induction keys as [| k keys IH]; cbn [check_keys].
  - split; [constructor | reflexivity].
  - destruct (str_in k _keys) eqn:E.
    + rewrite IH. apply str_in_spec in E. split.
      * now constructor.
      * now inversion 1.
    + apply str_in_false in E. split; [discriminate |].
      inversion 1; contradiction.
Qed.

Lemma check_keys_KeyError keys :
  (exists k, check_keys keys = Raise (KeyError k))
  <-> Exists (fun k => ~ In k _keys) keys.
Proof.
  induction keys as [| k keys IH]; cbn [check_keys].
  - split; [intros [k H]; discriminate | inversion 1].
  - destruct (str_in k _keys) eqn:E.
    + rewrite IH. apply str_in_spec in E. split.
      * now constructor 2.
      * inversion 1; [contradiction | assumption].
    + apply str_in_false in E. split.
      * intros _. now constructor 1.
      * intros _. now exists k.
Qed.

Lemma check_keys_cases keys :
  check_keys keys = Ok tt \/ exists k, check_keys keys = Raise (KeyError k).
Proof.
  induction keys as [| k keys IH]; cbn [check_keys]; [now left |].
  destruct (str_in k _keys); [exact IH | right; now exists k].
Qed.

Lemma check_syntax_first name contest rest :
  check_syntax ((name, contest) :: rest)
  = rbind (check_keys (dict_keys contest)) (fun _ => Ok name).
Proof.
  unfold check_syntax, dict_index. simpl. now rewrite String.eqb_refl.
Qed.

(** C3, as the code has it: the approved set of [check_syntax] is the
    seven keys of [_keys] (candidates, question, tally, win-by, max,
    write-in, selection).  A blob whose first top-level value has all its
    keys in that set is accepted and its name returned, and [KeyError] is
    raised if and only if some key of that value is outside the set; uid,
    cast_branch and cloak are outside it. *)
Theorem check_syntax_approved_keys name contest rest :
  (check_syntax ((name, contest) :: rest) = Ok name
   <-> Forall (fun k => In k _keys) (dict_keys contest))
  /\ ((exists k, check_syntax ((name, contest) :: rest) = Raise (KeyError k))
      <-> Exists (fun k => ~ In k _keys) (dict_keys contest))
  /\ ~ In "uid" _keys /\ ~ In "cast_branch" _keys /\ ~ In "cloak" _keys.
Proof.
  rewrite check_syntax_first. split; [| split].
  - rewrite <- check_keys_Ok.
    destruct (check_keys (dict_keys contest)) as [[] | e]; simpl;
      split; congruence.
  - rewrite <- check_keys_KeyError.
    destruct (check_keys (dict_keys contest)) as [[] | e]; simpl.
    + split; intros [k H]; discriminate.
    + split; intros [k H]; exists k; injection H as ->; reflexivity.
  - repeat split; rewrite <- str_in_false; reflexivity.
Qed.

(** C3, as the specification states it, fails: a blob whose only key is
    uid has every key in the specification's set of ten, and the code
    raises [KeyError] for it. *)
Lemma check_syntax_rejects_uid :
  Forall (fun k => In k spec_keys) (dict_keys [("uid", VStr "0001")])
  /\ check_syntax [("Mayor", [("uid", VStr "0001")])] = Raise (KeyError "uid").
Proof.
  split; [| reflexivity].
  constructor; [| constructor]. apply str_in_spec. reflexivity.
Qed.

Lemma lt_one_int z : lt_one (VInt z) = Ok (z <? 1)%Z.
Proof. reflexivity. Qed.



End ContestFacts.

(** ** [random] and [secrets] *)

Section RandFacts.

Import Rand.

Lemma randbelow_lt n e : 0 < n -> fst (randbelow n e) < n.
Proof.
  intros Hn. unfold randbelow. destruct (draw e) as [x e']. simpl.
  apply Nat.mod_upper_bound. lia.
Qed.

Lemma randint_range a b e v e' :
  randint a b e = (Ok v, e') -> a <= v <= b.
Proof.
  unfold randint. destruct (Nat.ltb b a) eqn:E; [discriminate |].
  apply Nat.ltb_ge in E.
  pose proof (randbelow_lt (b - a + 1) e ltac:(lia)) as Hlt.
  destruct (randbelow (b - a + 1) e) as [x e1]. simpl in Hlt.
  intros [= <- <-]. lia.
Qed.

Lemma randint_total a b e : a <= b -> exists v e', randint a b e = (Ok v, e').
Proof.
  intros Hab. unfold randint.
  destruct (Nat.ltb b a) eqn:E; [apply Nat.ltb_lt in E; lia |].
  destruct (randbelow (b - a + 1) e) as [x e1]. eauto.
Qed.

Lemma randrange_lt n e v e' : randrange n e = (Ok v, e') -> v < n.
Proof.
  unfold randrange. destruct (Nat.eqb n 0) eqn:E; [discriminate |].
  apply Nat.eqb_neq in E.
  pose proof (randbelow_lt n e ltac:(lia)) as Hlt.
  destruct (randbelow n e) as [x e1]. simpl in Hlt. intros [= <- <-]. exact Hlt.
Qed.

Lemma swap_perm {A} i j (x : list A) : swap i j x ≡ₚ x.
Proof.
  unfold swap.
  destruct (x !! i) as [a |] eqn:Hi; [| reflexivity].
  destruct (x !! j) as [b |] eqn:Hj; [| reflexivity].
  now apply Permutation_insert_swap.
Qed.

Lemma shuffle_from_perm {A} i (x : list A) e : fst (shuffle_from i x e) ≡ₚ x.
Proof.
  revert x e. induction i as [| i IH]; intros x e; simpl; [reflexivity |].
  destruct (randbelow (S (S i)) e) as [j e'].
  rewrite IH. apply swap_perm.
Qed.

(** [random.shuffle] rearranges its list and nothing else. *)
Lemma shuffle_perm {A} (x : list A) e : fst (shuffle x e) ≡ₚ x.
Proof. apply shuffle_from_perm. Qed.

Lemma shuffle_length {A} (x : list A) e : length (fst (shuffle x e)) = length x.
Proof. apply Permutation_length, shuffle_perm. Qed.

Lemma hex_digit_is_hex n : is_hex (hex_digit n) = true.
Proof.
  unfold hex_digit.
  assert (H : n mod 16 < 16) by (apply Nat.mod_upper_bound; lia).
  remember (n mod 16) as m eqn:Hm. clear Hm.
  do 16 (destruct m as [| m]; [reflexivity |]). lia.
Qed.

Lemma hex_byte_app b s :
  (hex_byte b ++ s)%string
  = String (hex_digit (b / 16)) (String (hex_digit (b mod 16)) s).
Proof. reflexivity. Qed.

(** A token of [token_hex n] is [2 n] characters, each a hex digit. *)
Lemma token_hex_shape n e :
  String.length (fst (token_hex n e)) = 2 * n
  /\ Forall (fun c => is_hex c = true) (list_ascii_of_string (fst (token_hex n e))).
Proof.
  revert e. induction n as [| n IH]; intros e; simpl.
  - split; [reflexivity | constructor].
  - destruct (randbelow 256 e) as [b e'].
    specialize (IH e'). destruct (token_hex n e') as [s e''].
    cbn [fst] in *. rewrite hex_byte_app. simpl.
    destruct IH as [Hl Hf]. split.
    + rewrite Hl. lia.
    + repeat constructor; try apply hex_digit_is_hex. exact Hf.
Qed.

End RandFacts.

(** ** The receipt *)

Section ReceiptFacts.

Import Accept.

Variable env : services.

Lemma pools_perm_refl um : pools_perm um um.
Proof. intros uid. destruct (um !! uid); [reflexivity | exact I]. Qed.

Lemma pools_perm_trans um1 um2 um3 :
  pools_perm um1 um2 -> pools_perm um2 um3 -> pools_perm um1 um3.
Proof.
  intros H12 H23 uid. specialize (H12 uid). specialize (H23 uid).
  destruct (um1 !! uid), (um2 !! uid), (um3 !! uid); try tauto.
  now rewrite H23.
Qed.

Lemma pools_perm_insert (um : gmap string (list cvr)) uid pool pool' :
  um !! uid = Some pool -> pool' ≡ₚ pool -> pools_perm um (<[uid := pool']> um).
Proof.
  intros Hu Hp uid'. destruct (decide (uid = uid')) as [<- | Hne].
  - rewrite Hu, lookup_insert_eq. exact Hp.
  - rewrite lookup_insert_ne by exact Hne.
    destruct (um !! uid'); [reflexivity | exact I].
Qed.

Lemma short_pool_perm rows um um' uid :
  pools_perm um um' -> short_pool rows um' uid = short_pool rows um uid.
Proof.
  intros H. specialize (H uid). unfold short_pool.
  destruct (um !! uid), (um' !! uid); try tauto.
  now rewrite (Permutation_length H).
Qed.

Lemma existsb_short_pool_perm rows um um' uids :
  pools_perm um um' ->
  existsb (short_pool rows um') uids = existsb (short_pool rows um) uids.
Proof.
  intros H. induction uids as [| u uids IH]; simpl; [reflexivity |].
  now rewrite IH, (short_pool_perm _ _ _ _ H).
Qed.

(** The first loop never raises; it computes the degraded flag, leaves
    every pool a rearrangement of itself, and touches only the entropy and
    the warnings. *)
Lemma shuffle_pools_spec uids um skip w :
  exists um' w',
    shuffle_pools env uids um skip w
    = (Ok (skip || existsb (short_pool (BALLOT_RECEIPT_ROWS env) um) uids, um'), w')
    /\ pools_perm um um'
    /\ Git.trace w' = Git.trace w
    /\ Git.local w' = Git.local w /\ Git.origin w' = Git.origin w
    /\ Git.main w' = Git.main w.
Proof.
  revert um skip w. induction uids as [| uid uids IH]; intros um skip w.
  - exists um, w. simpl. rewrite orb_false_r.
    repeat split; auto using pools_perm_refl.
  - cbn [shuffle_pools existsb]. unfold short_pool at 1.
    destruct (um !! uid) as [pool |] eqn:Hu.
    + unfold bind at 1.
      set (flag := Nat.ltb (length pool) (BALLOT_RECEIPT_ROWS env)).
      assert (Hstep : exists w1,
        (if flag
         then (modify (Git.warn ("Warning - not enough unmerged CVRs to print receipt for contest " ++ uid)) ;;
               ret true)%M
         else ret skip) w = (Ok (skip || flag), w1)
        /\ Git.entropy w1 = Git.entropy w /\ Git.trace w1 = Git.trace w
        /\ Git.local w1 = Git.local w /\ Git.origin w1 = Git.origin w
        /\ Git.main w1 = Git.main w).
      { destruct flag.
        - eexists. rewrite orb_true_r. repeat split.
        - eexists. rewrite orb_false_r. repeat split. }
      destruct Hstep as (w1 & -> & He & Ht & Hl & Ho & Hm).
      unfold bind at 1, rand at 1.
      destruct (Rand.shuffle pool (Git.entropy w1)) as [pool' e'] eqn:Hs.
      assert (Hp : pool' ≡ₚ pool).
      { pose proof (shuffle_perm pool (Git.entropy w1)) as H. now rewrite Hs in H. }
      destruct (IH (<[uid := pool']> um) (skip || flag) (Git.set_entropy e' w1))
        as (um' & w' & -> & Hperm & Ht' & Hl' & Ho' & Hm').
      exists um', w'.
      pose proof (pools_perm_insert um uid pool pool' Hu Hp) as Hins.
      rewrite (existsb_short_pool_perm _ _ _ _ Hins), orb_assoc.
      repeat split; simpl in *; try congruence.
      eapply pools_perm_trans; eassumption.
    + unfold bind at 1, modify at 1.
      destruct (IH um true (Git.warn ("Warning - no unmerged_cvrs yet for contest " ++ uid) w))
        as (um' & w' & -> & Hperm & Ht' & Hl' & Ho' & Hm').
      exists um', w'. rewrite orb_true_r. simpl. repeat split; assumption.
Qed.

Lemma lookup_twice_count (l : list string) i j x :
  l !! i = Some x -> l !! j = Some x -> i <> j ->
  2 <= count_occ string_dec l x.
Proof.
  intros Hi Hj Hne.
  rewrite (proj1 (Permutation_count_occ string_dec _ _)
                 (delete_Permutation l i x Hi) x).
  simpl. destruct (string_dec x x) as [_ | Hx]; [| congruence].
  assert (Hin : In x (delete i l)).
  { apply list_elem_of_In, list_elem_of_lookup.
    destruct (decide (j < i)) as [Hlt | Hge].
    - exists j. now rewrite list_lookup_delete_lt.
    - exists (j - 1). rewrite list_lookup_delete_ge by lia.
      replace (S (j - 1)) with j by lia. exact Hj. }
  apply (count_occ_In string_dec) in Hin. lia.
Qed.


Lemma receipt_cell_spec um voters_row row uid d red pool :
  um !! uid = Some pool ->
  row < length pool -> voters_row - 1 < length pool ->
  exists cell,
    receipt_cell um voters_row row uid d red = Ok (cell, red)
    /\ cell ∈ digests pool
    /\ (row <> voters_row - 1 -> at_most_once d pool -> cell <> d).
Proof.
  intros Hu Hrow Hvr. unfold receipt_cell. rewrite Hu.
  destruct (Nat.ltb (length pool) row) eqn:E1; [apply Nat.ltb_lt in E1; lia |].
  destruct (lookup_lt_is_Some_2 pool row Hrow) as [c Hc].
  destruct (lookup_lt_is_Some_2 pool (voters_row - 1) Hvr) as [c' Hc'].
  unfold list_index. rewrite Hc. simpl.
  destruct (String.eqb d (cvr_digest c)) eqn:E2.
  - destruct (Nat.ltb (length pool) (voters_row - 1)) eqn:E3;
      [apply Nat.ltb_lt in E3; lia |].
    rewrite Hc'. simpl. exists (cvr_digest c'). split; [reflexivity |]. split.
    + apply list_elem_of_fmap. exists c'. split; [reflexivity |].
      apply list_elem_of_lookup. eauto.
    + intros Hne Honce Heq. apply String.eqb_eq in E2.
      unfold at_most_once in Honce.
      assert (H2 : 2 <= count_occ string_dec (digests pool) d).
      { apply (lookup_twice_count _ row (voters_row - 1)); [| | exact Hne];
          unfold digests; rewrite list_lookup_fmap.
        - rewrite Hc. simpl. congruence.
        - rewrite Hc'. simpl. congruence. }
      lia.
  - exists (cvr_digest c). split; [reflexivity |]. split.
    + apply list_elem_of_fmap. exists c. split; [reflexivity |].
      apply list_elem_of_lookup. eauto.
    + intros _ _ Heq. apply String.eqb_neq in E2. congruence.
Qed.

(** The pools of the ballot are all deep enough in [um]. *)
Definition deep_pools (um : gmap string (list cvr)) (items : dict string) : Prop :=
  Forall (fun item => short_pool (BALLOT_RECEIPT_ROWS env) um (fst item) = false) items.

Lemma deep_pools_existsb um items :
  existsb (short_pool (BALLOT_RECEIPT_ROWS env) um) (dict_keys items) = false
  <-> deep_pools um items.
Proof.
  unfold deep_pools. induction items as [| [uid d] items IH]; simpl.
  - split; [constructor | reflexivity].
  - rewrite orb_false_iff, IH. split.
    + intros [H1 H2]. now constructor.
    + inversion 1; subst. now split.
Qed.

Lemma receipt_row_spec um voters_row row items red :
  deep_pools um items ->
  row < BALLOT_RECEIPT_ROWS env -> voters_row - 1 < BALLOT_RECEIPT_ROWS env ->
  exists cells,
    receipt_row um voters_row row items red = Ok (cells, red)
    /\ (row <> voters_row - 1 -> Forall2 (good_cell um) items cells)
    /\ Forall2 (fun item cell => exists pool,
                  um !! fst item = Some pool /\ cell ∈ digests pool) items cells.
Proof.
  intros Hdeep Hrow Hvr.
  induction Hdeep as [| [uid d] items Hs Hdeep IH]; cbn [receipt_row].
  - exists []. repeat split; constructor.
  - unfold short_pool in Hs. simpl in Hs.
    destruct (um !! uid) as [pool |] eqn:Hu; [| discriminate].
    apply Nat.ltb_ge in Hs.
    destruct (receipt_cell_spec um voters_row row uid d red pool Hu)
      as (cell & -> & Hin & Hne); [lia | lia |].
    cbn [rbind fst snd].
    destruct IH as (cells & -> & Hgood & Hfrom). cbn [rbind fst snd].
    exists (cell :: cells). split; [reflexivity |]. split.
    + intros Hr. constructor; [| now apply Hgood].
      exists pool. simpl. repeat split; auto.
    + constructor; [| exact Hfrom]. exists pool. now split.
Qed.

Lemma receipt_rows_spec um voters_row items rows red :
  deep_pools um items ->
  Forall (fun row => row < BALLOT_RECEIPT_ROWS env) rows ->
  voters_row - 1 < BALLOT_RECEIPT_ROWS env ->
  exists cells,
    receipt_rows um voters_row items rows red = Ok (cells, red)
    /\ Forall2 (fun row line =>
                  (row = voters_row - 1 -> line = dict_values items)
                  /\ (row <> voters_row - 1 -> Forall2 (good_cell um) items line)
                  /\ (row <> voters_row - 1 ->
                      Forall2 (fun item cell => exists pool,
                                 um !! fst item = Some pool /\ cell ∈ digests pool)
                              items line))
               rows cells.
Proof.
  intros Hdeep Hrows Hvr.
  induction Hrows as [| row rows Hrow Hrows IH]; cbn [receipt_rows].
  - exists []. split; [reflexivity | constructor].
  - destruct IH as (cells & IHeq & IHrel).
    destruct (Nat.eqb row (voters_row - 1)) eqn:E.
    + apply Nat.eqb_eq in E. rewrite IHeq. cbn [rbind fst snd].
      exists (dict_values items :: cells). split; [reflexivity |].
      constructor; [| exact IHrel]. repeat split; intros; congruence.
    + apply Nat.eqb_neq in E.
      destruct (receipt_row_spec um voters_row row items red Hdeep Hrow Hvr)
        as (line & -> & Hgood & Hfrom). cbn [rbind fst snd].
      rewrite IHeq. cbn [rbind fst snd].
      exists (line :: cells). split; [reflexivity |].
      constructor; [| exact IHrel]. repeat split; intros; auto; congruence.
Qed.

(** With deep pools and the voter's row inside the table, the row loop
    returns a table of BALLOT_RECEIPT_ROWS rows, redacts nothing, puts the
    voter's digests at [voters_row] and good cells everywhere else. *)
Lemma inner_loop_spec um voters_row items :
  deep_pools um items ->
  1 <= voters_row <= BALLOT_RECEIPT_ROWS env ->
  exists cells,
    inner_loop env um voters_row items = Ok (cells, ∅)
    /\ length cells = BALLOT_RECEIPT_ROWS env
    /\ cells !! (voters_row - 1) = Some (dict_values items)
    /\ (forall r line, cells !! r = Some line -> r <> voters_row - 1 ->
          Forall2 (good_cell um) items line
          /\ Forall2 (fun item cell => exists pool,
                        um !! fst item = Some pool /\ cell ∈ digests pool)
                     items line).
Proof.
  intros Hdeep Hvr. unfold inner_loop.
  destruct (receipt_rows_spec um voters_row items (seq 0 (BALLOT_RECEIPT_ROWS env)) ∅ Hdeep)
    as (cells & Heq & Hrel).
  { apply Forall_forall. intros r Hr. apply list_elem_of_In, in_seq in Hr. lia. }
  { lia. }
  exists cells. split; [exact Heq |].
  pose proof (Forall2_length _ _ _ Hrel) as Hlen. rewrite length_seq in Hlen.
  split; [congruence |]. split.
  - destruct (lookup_lt_is_Some_2 cells (voters_row - 1)) as [line Hline]; [lia |].
    assert (Hseq : seq 0 (BALLOT_RECEIPT_ROWS env) !! (voters_row - 1) = Some (voters_row - 1)).
    { apply lookup_seq. lia. }
    destruct (Forall2_lookup_lr _ _ _ _ _ _ Hrel Hseq Hline) as (H1 & _).
    now rewrite Hline, H1.
  - intros r line Hline Hne.
    assert (Hr : r < BALLOT_RECEIPT_ROWS env).
    { apply lookup_lt_Some in Hline. lia. }
    assert (Hseq : seq 0 (BALLOT_RECEIPT_ROWS env) !! r = Some r).
    { apply lookup_seq. lia. }
    destruct (Forall2_lookup_lr _ _ _ _ _ _ Hrel Hseq Hline) as (_ & H2 & H3).
    split; auto.
Qed.

Lemma degraded_spec crs um :
  degraded env crs um = true
  <-> exists uid, In uid (dict_keys crs)
        /\ (um !! uid = None
            \/ exists pool, um !! uid = Some pool
                 /\ length pool < BALLOT_RECEIPT_ROWS env).
Proof.
  unfold degraded. rewrite existsb_exists. unfold short_pool.
  split; intros (uid & Hin & H); exists uid; (split; [exact Hin |]).
  - destruct (um !! uid) as [pool |]; [| now left].
    right. exists pool. split; [reflexivity | now apply Nat.ltb_lt].
  - destruct H as [-> | (pool & -> & Hlt)]; [reflexivity | now apply Nat.ltb_lt].
Qed.

Definition skipping : string :=
  "Skipping ballot receipt due to lack of unmerged CVRs".

(** A degraded pool: the empty receipt comes back, after the warning. *)
Lemma create_ballot_receipt_degraded crs um w :
  degraded env crs um = true ->
  exists w',
    create_ballot_receipt env crs um w = (Ok ([], 0, ""), w')
    /\ In skipping (Git.warnings w')
    /\ Git.trace w' = Git.trace w.
Proof.
  intros Hd. unfold create_ballot_receipt, bind at 1.
  destruct (shuffle_pools_spec (dict_keys crs) um false w)
    as (um' & w1 & -> & _ & Ht & _).
  simpl. unfold degraded in Hd. rewrite Hd.
  eexists. split; [reflexivity |]. split; [now left | exact Ht].
Qed.

(** A pool that is not degraded: [randint] raises when there is no row to
    choose (BALLOT_RECEIPT_ROWS = 0); otherwise the receipt is the header
    and the joined rows of the row loop, run on the shuffled pools. *)
Lemma create_ballot_receipt_full crs um w :
  degraded env crs um = false ->
  (BALLOT_RECEIPT_ROWS env = 0
   /\ exists e w', create_ballot_receipt env crs um w = (Raise e, w'))
  \/ (exists um' voters_row cells w',
        pools_perm um um' /\ deep_pools um' crs
        /\ 1 <= voters_row <= BALLOT_RECEIPT_ROWS env
        /\ inner_loop env um' voters_row crs = Ok (cells, ∅)
        /\ create_ballot_receipt env crs um w
           = (Ok (receipt_header env crs :: map (join ",") cells, voters_row,
                  receipt_path env (receipt_header env crs :: map (join ",") cells)),
              w')
        /\ Git.trace w'
           = (Git.write_receipt_csv (receipt_header env crs :: map (join ",") cells), 0%Z)
               :: Git.trace w
        /\ Git.local w' = Git.local w /\ Git.origin w' = Git.origin w
        /\ Git.main w' = Git.main w).
Proof.
  intros Hd.
  remember (create_ballot_receipt env crs um w) as res eqn:Hres.
  unfold create_ballot_receipt, bind at 1 in Hres.
  destruct (shuffle_pools_spec (dict_keys crs) um false w)
    as (um' & w1 & Hsh & Hperm & Ht & Hl & Ho & Hm).
  rewrite Hsh in Hres. cbn [fst snd orb] in Hres.
  unfold degraded in Hd. rewrite Hd in Hres.
  assert (Hdeep : deep_pools um' crs).
  { apply deep_pools_existsb. now rewrite (existsb_short_pool_perm _ _ _ _ Hperm). }
  unfold bind at 1, rand at 1 in Hres.
  destruct (Rand.randint 1 (BALLOT_RECEIPT_ROWS env) (Git.entropy w1))
    as [[voters_row | e] e1] eqn:Hr.
  - right. apply randint_range in Hr.
    destruct (inner_loop_spec um' voters_row crs Hdeep Hr) as (cells & Hin & _).
    unfold bind, lift in Hres. rewrite Hin in Hres.
    cbn -[join] in Hres. fold (receipt_header env crs) in Hres.
    exists um', voters_row, cells. eexists.
    split; [exact Hperm |]. split; [exact Hdeep |]. split; [exact Hr |].
    split; [exact Hin |]. split; [exact Hres |].
    simpl. repeat split; congruence.
  - left. split; [| eauto].
    destruct (Nat.eq_dec (BALLOT_RECEIPT_ROWS env) 0) as [H0 | Hn]; [exact H0 |].
    destruct (randint_total 1 (BALLOT_RECEIPT_ROWS env) (Git.entropy w1))
      as (v & e' & Hv); [lia | congruence].
Qed.

(** C7: [create_ballot_receipt] hands back the degraded empty receipt if
    and only if some uid of [contest_receipts] is absent from the snapshot
    or has a pool of fewer than BALLOT_RECEIPT_ROWS entries; in that case no
    exception is raised and the warning is logged. *)
Theorem degraded_receipt_iff crs um w :
  (fst (create_ballot_receipt env crs um w) = Ok ([], 0, "")
   <-> exists uid, In uid (dict_keys crs)
         /\ (um !! uid = None
             \/ exists pool, um !! uid = Some pool
                  /\ length pool < BALLOT_RECEIPT_ROWS env))
  /\ (degraded env crs um = true ->
      fst (create_ballot_receipt env crs um w) = Ok ([], 0, "")
      /\ In skipping (Git.warnings (snd (create_ballot_receipt env crs um w)))).
Proof.
  rewrite <- degraded_spec. split.
  - split.
    + intros Hret. destruct (degraded env crs um) eqn:Hd; [reflexivity |].
      destruct (create_ballot_receipt_full crs um w Hd)
        as [(_ & e & w' & Heq) | (um' & vr & cells & w' & _ & _ & _ & _ & Heq & _)];
        rewrite Heq in Hret; discriminate.
    + intros Hd.
      destruct (create_ballot_receipt_degraded crs um w Hd) as (w' & -> & _).
      reflexivity.
  - intros Hd.
    destruct (create_ballot_receipt_degraded crs um w Hd) as (w' & -> & Hw & _).
    now split.
Qed.

Lemma elem_of_digests_perm cell pool pool' :
  pool' ≡ₚ pool -> cell ∈ digests pool' -> cell ∈ digests pool.
Proof.
  intros Hp Hin. unfold digests in *.
  now rewrite <- (Permutation_map cvr_digest Hp).
Qed.

(** C10: in a receipt that [create_ballot_receipt] returns and that is not
    the degraded empty one, no sentinel branch of the row loop was taken:
    the set [redacted_uids] is empty at the end and every cell is one of the
    voter's digests or a digest of the pending pool; so no cell is
    INSUFFICIENT_CVRS unless a digest is spelled that way. *)
Theorem receipt_without_sentinel crs um w rows voters_row file w' :
  create_ballot_receipt env crs um w = (Ok (rows, voters_row, file), w') ->
  rows <> [] ->
  exists um' cells,
    pools_perm um um'
    /\ inner_loop env um' voters_row crs = Ok (cells, ∅)
    /\ rows = receipt_header env crs :: map (join ",") cells
    /\ Forall (Forall (fun cell =>
                 cell ∈ dict_values crs
                 \/ exists uid pool, um !! uid = Some pool /\ cell ∈ digests pool))
              cells
    /\ ((forall d, d ∈ dict_values crs -> d <> INSUFFICIENT_CVRS) ->
        (forall uid pool, um !! uid = Some pool -> INSUFFICIENT_CVRS ∉ digests pool) ->
        Forall (Forall (fun cell => cell <> INSUFFICIENT_CVRS)) cells).
Proof.
  intros Hret Hrows.
  destruct (degraded env crs um) eqn:Hd.
  { destruct (create_ballot_receipt_degraded crs um w Hd) as (w1 & Heq & _).
    rewrite Heq in Hret. injection Hret as <- _ _ _. congruence. }
  destruct (create_ballot_receipt_full crs um w Hd)
    as [(_ & e & w1 & Heq)
       | (um' & vr & cells & w1 & Hperm & Hdeep & Hvr & Hin & Heq & _)];
    rewrite Heq in Hret; [discriminate |].
  injection Hret as <- <- _ _.
  exists um', cells. split; [exact Hperm |]. split; [exact Hin |].
  split; [reflexivity |].
  assert (Hfrom : Forall (Forall (fun cell =>
                    cell ∈ dict_values crs
                    \/ exists uid pool, um !! uid = Some pool /\ cell ∈ digests pool))
                  cells).
  { destruct (inner_loop_spec um' vr crs Hdeep Hvr)
      as (cells' & Hin' & _ & Hvoter & Hother).
    rewrite Hin in Hin'. injection Hin' as <-.
    apply Forall_lookup. intros r line Hline.
    destruct (decide (r = vr - 1)) as [-> | Hne].
    - rewrite Hvoter in Hline. injection Hline as <-.
      apply Forall_forall. intros cell Hc. now left.
    - destruct (Hother r line Hline Hne) as (_ & Hpool).
      apply Forall_lookup. intros c cell Hcell.
      destruct (Forall2_lookup_r _ _ _ _ _ Hpool Hcell) as (item & _ & Hc).
      right. destruct Hc as (pool' & Hu & Hc).
      specialize (Hperm (fst item)). rewrite Hu in Hperm.
      destruct (um !! fst item) as [pool |] eqn:Hu0; [| contradiction].
      exists (fst item), pool. split; [exact Hu0 |].
      eapply elem_of_digests_perm; eassumption. }
  split; [exact Hfrom |].
  intros Hvoter Hpool.
  eapply Forall_impl; [exact Hfrom |]. intros line Hline. simpl in Hline.
  eapply Forall_impl; [exact Hline |]. intros cell Hc. simpl in Hc.
  destruct Hc as [Hc | (uid & pool & Hu & Hc)].
  - now apply Hvoter.
  - intros ->. exact (Hpool uid pool Hu Hc).
Qed.


End ReceiptFacts.

(** *** The receipt on the sample election *)

Section ReceiptRuns.

Import Accept.

(** [degraded_receipt_iff] on an empty snapshot: the ballot's only contest
    has no pool, and the empty receipt comes back with the warning. *)
Lemma degraded_receipt_iff_witness :
  fst (create_ballot_receipt sample_env [("A", "dA")] ∅ (sample_world [] []))
  = Ok ([], 0, "")
  /\ In skipping
        (Git.warnings
           (snd (create_ballot_receipt sample_env [("A", "dA")] ∅ (sample_world [] [])))).
Proof.
  apply (proj2 (degraded_receipt_iff sample_env [("A", "dA")] ∅ (sample_world [] []))).
  reflexivity.
Defined.

(** [receipt_without_sentinel] on the sample pool: rows a2, dA, a1. *)
Lemma receipt_without_sentinel_witness :
  exists um' cells,
    pools_perm sample_pool um'
    /\ inner_loop sample_env um' 2 [("A", "dA")] = Ok (cells, ∅)
    /\ [receipt_header sample_env [("A", "dA")]; "a2"; "dA"; "a1"]
       = receipt_header sample_env [("A", "dA")] :: map (join ",") cells
    /\ Forall (Forall (fun cell =>
                 cell ∈ dict_values [("A", "dA")]
                 \/ exists uid pool, sample_pool !! uid = Some pool /\ cell ∈ digests pool))
              cells
    /\ ((forall d, d ∈ dict_values [("A", "dA")] -> d <> INSUFFICIENT_CVRS) ->
        (forall uid pool, sample_pool !! uid = Some pool ->
                          INSUFFICIENT_CVRS ∉ digests pool) ->
        Forall (Forall (fun cell => cell <> INSUFFICIENT_CVRS)) cells).
Proof.
  apply (receipt_without_sentinel sample_env [("A", "dA")] sample_pool
           (sample_world [0; 0; 1] [])
           [receipt_header sample_env [("A", "dA")]; "a2"; "dA"; "a1"] 2 "receipt.csv"
           (snd (create_ballot_receipt sample_env [("A", "dA")] sample_pool
                   (sample_world [0; 0; 1] [])))).
  - vm_compute. reflexivity.
  - discriminate.
Defined.



End ReceiptRuns.

(** ** Operations as state transformers *)

Section MonadFacts.

Lemma bind_Ok {A B} (m : M A) (k : A -> M B) w b w' :
  bind m k w = (Ok b, w') ->
  exists a w1, m w = (Ok a, w1) /\ k a w1 = (Ok b, w').
Proof.
  unfold bind. destruct (m w) as [[a | e] w1]; [eauto | discriminate].
Qed.

Lemma bind_Raise {A B} (m : M A) (k : A -> M B) w e w' :
  bind m k w = (Raise e, w') ->
  m w = (Raise e, w')
  \/ exists a w1, m w = (Ok a, w1) /\ k a w1 = (Raise e, w').
Proof.
  unfold bind. destruct (m w) as [[a | e1] w1]; [eauto |].
  intros H. injection H as -> ->. now left.
Qed.

(** [m] relates every state to the state it leaves, whatever it returns
    or raises. *)
Definition preserves {A} (R : Git.world -> Git.world -> Prop) (m : M A) : Prop :=
  forall w, R w (snd (m w)).

Context (R : Git.world -> Git.world -> Prop).
Context (R_refl : forall w, R w w).
Context (R_trans : forall w1 w2 w3, R w1 w2 -> R w2 w3 -> R w1 w3).

Lemma preserves_ret {A} (a : A) : preserves R (ret a).
Proof. intros w. apply R_refl. Qed.

Lemma preserves_raise {A} e : preserves R (@raise A e).
Proof. intros w. apply R_refl. Qed.

Lemma preserves_lift {A} (r : result A) : preserves R (lift r).
Proof. intros w. apply R_refl. Qed.

Lemma preserves_bind {A B} (m : M A) (k : A -> M B) :
  preserves R m -> (forall a, preserves R (k a)) -> preserves R (bind m k).
Proof.
  intros Hm Hk w. unfold bind. specialize (Hm w).
  destruct (m w) as [[a | e] w1]; simpl in *; [| exact Hm].
  eapply R_trans; [exact Hm | apply Hk].
Qed.

Lemma preserves_finally {A} (body : M A) (cleanup : M unit) :
  preserves R body -> preserves R cleanup -> preserves R (finally body cleanup).
Proof.
  intros Hb Hc w. unfold finally. specialize (Hb w).
  destruct (body w) as [[a | e] w1]; simpl in *;
    specialize (Hc w1); destruct (cleanup w1) as [[u | e'] w2]; simpl in *;
    eapply R_trans; eassumption.
Qed.

Lemma preserves_if {A} (c : bool) (m1 m2 : M A) :
  preserves R m1 -> preserves R m2 -> preserves R (if c then m1 else m2).
Proof. destruct c; auto. Qed.

Lemma preserves_modify (f : Git.world -> Git.world) :
  (forall w, R w (f w)) -> preserves R (modify f).
Proof. intros Hf w. apply Hf. Qed.

Lemma preserves_rand {A} (g : Rand.entropy -> result A * Rand.entropy) :
  (forall e w, R w (Git.set_entropy e w)) -> preserves R (rand g).
Proof.
  intros He w. unfold rand. destruct (g (Git.entropy w)) as [r e]. apply He.
Qed.


End MonadFacts.

(** ** The shell *)

Section ShellFacts.

Variable sha : list string -> string -> string -> string.

Lemma exec_quiet c w : quiet c = true -> repo (snd (Git.exec sha c w)) = repo w.
Proof.
  destruct c; try discriminate; intros _; simpl; try reflexivity.
  - destruct (String.eqb branch "main"); reflexivity.
  - destruct (dict_mem file (Git.worktree w)); reflexivity.
  - destruct (Git.resolve w branch); reflexivity.
  - destruct (Git.resolve w branch); reflexivity.
  - destruct (Git.resolve w branch); reflexivity.
  - destruct remote; reflexivity.
  - destruct (Rand.rand_base64 nbytes (Git.entropy w)); reflexivity.
Qed.

Lemma do_push_trace b w : Git.trace (snd (Git.do_push b w)) = Git.trace w.
Proof.
  unfold Git.do_push. destruct (String.eqb b "main"); [reflexivity |].
  destruct (dict_get (Git.local w) b); [| reflexivity].
  destruct (Git.push_rejects w) as [| [] ?]; reflexivity.
Qed.

Lemma do_delete_trace f b w : Git.trace (snd (Git.do_delete f b w)) = Git.trace w.
Proof.
  unfold Git.do_delete. destruct (dict_get (Git.local w) b); [| reflexivity].
  destruct (String.eqb b (Git.HEAD w)); [reflexivity |].
  destruct (f || Git.fully_merged w b c); reflexivity.
Qed.

Lemma do_commit_trace msg w : Git.trace (snd (Git.do_commit sha msg w)) = Git.trace w.
Proof.
  unfold Git.do_commit.
  destruct (Git.index w), (Git.merge_head w); try reflexivity;
    destruct (String.eqb (Git.HEAD w) "main"); reflexivity.
Qed.

Lemma exec_trace c w : Git.trace (snd (Git.exec sha c w)) = Git.trace w.
Proof.
  destruct c; simpl; try reflexivity.
  - destruct (String.eqb branch "main"); reflexivity.
  - destruct (String.eqb branch "main" || dict_mem branch (Git.local w)); [reflexivity |].
    destruct (find _ _); reflexivity.
  - pose proof (do_push_trace branch w). destruct (Git.do_push branch w). assumption.
  - pose proof (do_push_trace branch w). destruct (Git.do_push branch w). assumption.
  - destruct (dict_mem branch (Git.origin w)); reflexivity.
  - destruct (String.eqb branch "main" || dict_mem branch (Git.local w)); reflexivity.
  - pose proof (do_delete_trace true branch w). destruct (Git.do_delete true branch w). assumption.
  - pose proof (do_delete_trace false branch w). destruct (Git.do_delete false branch w). assumption.
  - destruct (dict_mem file (Git.worktree w)); reflexivity.
  - destruct (dict_get (Git.worktree w) file); [| reflexivity].
    pose proof (do_commit_trace s w). destruct (Git.do_commit sha s w). assumption.
  - pose proof (do_commit_trace msg w). destruct (Git.do_commit sha msg w). assumption.
  - destruct (Git.resolve w branch); reflexivity.
  - destruct (Git.resolve w branch); reflexivity.
  - destruct (Git.resolve w branch); reflexivity.
  - destruct remote; reflexivity.
  - destruct (Rand.rand_base64 nbytes (Git.entropy w)); reflexivity.
Qed.

Lemma Shellout_run_repo c p chk w :
  quiet c = true -> repo (snd (Git.Shellout_run sha c p chk w)) = repo w.
Proof.
  intros Hq. unfold Git.Shellout_run. destruct p; [reflexivity |].
  pose proof (exec_quiet c w Hq) as Hx.
  destruct (Git.exec sha c w) as [r w1]. simpl in Hx.
  destruct (chk && negb (Z.eqb (Git.returncode r) 0)); exact Hx.
Qed.

Lemma Shellout_run_quiet_Ok c p chk w r w1 :
  quiet c = true -> Git.Shellout_run sha c p chk w = (Ok r, w1) -> repo w1 = repo w.
Proof.
  intros Hq H. pose proof (Shellout_run_repo c p chk w Hq) as Hr.
  now rewrite H in Hr.
Qed.

(** What a checked command returned zero. *)
Lemma Shellout_run_checked c w r w1 :
  Git.Shellout_run sha c false true w = (Ok r, w1) ->
  r = fst (Git.exec sha c w) /\ Git.returncode r = 0%Z
  /\ w1 = Git.set_trace ((c, 0%Z) :: Git.trace (snd (Git.exec sha c w)))
                        (snd (Git.exec sha c w)).
Proof.
  unfold Git.Shellout_run. destruct (Git.exec sha c w) as [r0 w0]. simpl.
  destruct (Z.eqb (Git.returncode r0) 0) eqn:E; simpl; [| discriminate].
  apply Z.eqb_eq in E. intros [= <- <-]. rewrite E. auto.
Qed.

Lemma sh_diff_tree_Ok b w r w1 :
  Git.Shellout_run sha (Git.git_diff_tree b) false true w = (Ok r, w1) ->
  exists c, Git.resolve w b = Some c
            /\ Git.stdout_strip r = Git.changed c /\ repo w1 = repo w.
Proof.
  intros H.
  pose proof (Shellout_run_quiet_Ok (Git.git_diff_tree b) _ _ _ _ _ eq_refl H) as Hr.
  apply Shellout_run_checked in H as (-> & Hrc & _). simpl in *.
  destruct (Git.resolve w b) as [c |]; [| discriminate].
  exists c. auto.
Qed.

Lemma sh_commit_m_Ok msg w r w1 :
  Git.HEAD w = "main" ->
  Git.Shellout_run sha (Git.git_commit_m msg) false true w = (Ok r, w1) ->
  exists c, Git.HEAD w1 = "main" /\ Git.local w1 = Git.local w
            /\ Git.origin w1 = Git.origin w /\ Git.main w1 = c :: Git.main w.
Proof.
  intros HH H. apply Shellout_run_checked in H as (-> & Hrc & ->).
  simpl in *. unfold Git.do_commit in *. rewrite HH in *.
  destruct (Git.index w), (Git.merge_head w); simpl in *;
    try discriminate; eexists; repeat split; exact HH.
Qed.

Lemma sh_push_main_Ok chk w r w1 :
  Git.Shellout_run sha (Git.git_push "main") false chk w = (Ok r, w1) ->
  repo w1 = repo w.
Proof.
  unfold Git.Shellout_run. simpl. destruct chk; simpl; intros [= <- <-]; reflexivity.
Qed.

Lemma sh_push_d_Ok n w r w1 :
  Git.Shellout_run sha (Git.git_push_d n) false true w = (Ok r, w1) ->
  dict_mem n (Git.origin w) = true
  /\ Git.HEAD w1 = Git.HEAD w /\ Git.local w1 = Git.local w
  /\ Git.origin w1 = dict_remove n (Git.origin w) /\ Git.main w1 = Git.main w.
Proof.
  intros H. apply Shellout_run_checked in H as (-> & Hrc & ->). simpl in *.
  destruct (dict_mem n (Git.origin w)); simpl in *; [auto | discriminate].
Qed.

Lemma sh_branch_d_Ok b w r w1 :
  Git.Shellout_run sha (Git.git_branch_d b) false true w = (Ok r, w1) ->
  dict_mem b (Git.local w) = true
  /\ Git.HEAD w1 = Git.HEAD w /\ Git.local w1 = dict_remove b (Git.local w)
  /\ Git.origin w1 = Git.origin w /\ Git.main w1 = Git.main w.
Proof.
  intros H. apply Shellout_run_checked in H as (-> & Hrc & ->). simpl in *.
  unfold Git.do_delete, dict_mem in *.
  destruct (dict_get (Git.local w) b); simpl in *; [| discriminate].
  destruct (String.eqb b (Git.HEAD w)); simpl in *; [discriminate |].
  destruct (Git.fully_merged w b c); simpl in *; [auto | discriminate].
Qed.

End ShellFacts.

(** ** vtp/ops/merge_contests_operation.py *)

Section MergeFacts.

Import Merge.

Variable sha : list string -> string -> string -> string.
Variable subdir : string.

(** What a merge that returned did, in a run that is not print-only and
    starts on main: it skipped a branch whose tip changes no file, or it
    added one commit to main and deleted the branch (the remote branch for
    a remote reference, the remote and the local branch otherwise). *)
Lemma merge_contest_branch_effect a b w w' :
  printonly a = false -> Git.HEAD w = "main" ->
  merge_contest_branch sha a b w = (Ok tt, w') ->
  Git.HEAD w' = "main"
  /\ exists c, Git.resolve w b = Some c
     /\ ((Git.changed c = "" /\ Git.local w' = Git.local w
          /\ Git.origin w' = Git.origin w /\ Git.main w' = Git.main w)
         \/ (Git.changed c <> ""
             /\ (exists m, Git.main w' = m :: Git.main w)
             /\ if remote a
                then Git.local w' = Git.local w
                     /\ dict_mem (removeprefix "origin/" b) (Git.origin w) = true
                     /\ Git.origin w' = dict_remove (removeprefix "origin/" b) (Git.origin w)
                else dict_mem b (Git.local w) = true
                     /\ Git.local w' = dict_remove b (Git.local w)
                     /\ Git.origin w' = dict_remove b (Git.origin w))).
Proof.
  intros Hp HH Hm. unfold merge_contest_branch in Hm. rewrite Hp in Hm.
  apply bind_Ok in Hm as (r & w1 & H1 & Hm).
  apply sh_diff_tree_Ok in H1 as (c & Hres & Hs & Hr1).
  cbv zeta in Hm. rewrite Hs in Hm.
  injection Hr1 as HH1 Hl1 Ho1 Hm1.
  destruct (String.eqb (Git.changed c) "") eqn:Hc.
  { apply String.eqb_eq in Hc. unfold modify in Hm. injection Hm as <-.
    split; [simpl; congruence |]. exists c. split; [exact Hres |].
    left. simpl. auto. }
  apply String.eqb_neq in Hc.
  apply bind_Ok in Hm as (r2 & w2 & H2 & Hm).
  apply (Shellout_run_quiet_Ok sha (Git.git_merge_no_ff b)) in H2 as Hr2; [| reflexivity].
  injection Hr2 as HH2 Hl2 Ho2 Hm2.
  apply bind_Ok in Hm as (r3 & w3 & H3 & Hm).
  apply (Shellout_run_quiet_Ok sha (Git.openssl_rand_base64 48)) in H3 as Hr3; [| reflexivity].
  injection Hr3 as HH3 Hl3 Ho3 Hm3.
  destruct (String.eqb (Git.stdout_text r3) ""); [discriminate |].
  apply bind_Ok in Hm as (u4 & w4 & H4 & Hm).
  unfold modify in H4. injection H4 as _ <-.
  apply bind_Ok in Hm as (r5 & w5 & H5 & Hm).
  apply (Shellout_run_quiet_Ok sha (Git.git_add (Git.changed c))) in H5 as Hr5; [| reflexivity].
  injection Hr5 as HH5 Hl5 Ho5 Hm5. simpl in HH5, Hl5, Ho5, Hm5.
  apply bind_Ok in Hm as (r6 & w6 & H6 & Hm).
  apply sh_commit_m_Ok in H6 as (m & HH6 & Hl6 & Ho6 & Hm6); [| congruence].
  apply bind_Ok in Hm as (r7 & w7 & H7 & Hm).
  apply sh_push_main_Ok in H7 as Hr7. injection Hr7 as HH7 Hl7 Ho7 Hm7.
  assert (Hmain : Git.main w7 = m :: Git.main w) by congruence.
  assert (Hloc : Git.local w7 = Git.local w) by congruence.
  assert (Hori : Git.origin w7 = Git.origin w) by congruence.
  assert (Hhead : Git.HEAD w7 = "main") by congruence.
  destruct (remote a); simpl in Hm.
  - apply bind_Ok in Hm as (r8 & w8 & H8 & Hm).
    apply sh_push_d_Ok in H8 as (Hin & HH8 & Hl8 & Ho8 & Hm8).
    injection Hm as <-.
    split; [congruence |]. exists c. split; [exact Hres |]. right.
    split; [exact Hc |]. split; [exists m; congruence |].
    rewrite Hori in Hin, Ho8. repeat split; congruence.
  - apply bind_Ok in Hm as (r8 & w8 & H8 & Hm).
    apply sh_push_d_Ok in H8 as (Hin & HH8 & Hl8 & Ho8 & Hm8).
    apply bind_Ok in Hm as (r9 & w9 & H9 & Hm).
    apply sh_branch_d_Ok in H9 as (Hin9 & HH9 & Hl9 & Ho9 & Hm9).
    injection Hm as <-.
    split; [congruence |]. exists c. split; [exact Hres |]. right.
    split; [exact Hc |]. split; [exists m; congruence |].
    rewrite Hl8, Hloc in Hin9, Hl9. rewrite Hori in Ho8.
    repeat split; congruence.
Qed.

End MergeFacts.

(** ** Branch names *)

Section NameFacts.

Lemma append_cons c s t : (String c s ++ t)%string = String c (s ++ t)%string.
Proof. reflexivity. Qed.

Lemma append_nil s : ("" ++ s)%string = s.
Proof. reflexivity. Qed.

Lemma append_inj_r p s t : (p ++ s)%string = (p ++ t)%string -> s = t.
Proof.
  induction p as [| c p IH]; [now rewrite !append_nil |].
  rewrite !append_cons. intros [= H]. auto.
Qed.

Lemma strip_prefix_app p s : strip_prefix p (p ++ s)%string = Some s.
Proof.
  induction p as [| c p IH]; [reflexivity |].
  rewrite append_cons. simpl. now rewrite Ascii.eqb_refl.
Qed.

Lemma strip_prefix_Some p s r : strip_prefix p s = Some r -> s = (p ++ r)%string.
Proof.
  revert s. induction p as [| c p IH]; intros s; simpl.
  - intros [= ->]. reflexivity.
  - destruct s as [| d s]; [discriminate |].
    destruct (Ascii.eqb c d) eqn:E; [| discriminate].
    apply Ascii.eqb_eq in E. subst d. intros H. rewrite append_cons.
    f_equal. auto.
Qed.

Lemma removeprefix_app p s : removeprefix p (p ++ s)%string = s.
Proof. unfold removeprefix. now rewrite strip_prefix_app. Qed.

Fixpoint has_slash (s : string) : bool :=
  match s with
  | EmptyString => false
  | String c s' => Ascii.eqb c "/"%char || has_slash s'
  end.

Lemma has_slash_app s t : has_slash (s ++ t)%string = has_slash s || has_slash t.
Proof.
  induction s as [| c s IH]; [reflexivity |].
  rewrite append_cons. simpl. now rewrite IH, orb_assoc.
Qed.

(** A line that matches the CVR pattern has a slash in it: it is not the
    line of main, and its uid is not empty. *)
Lemma cvr_uid_Some subdir remote line uid :
  cvr_uid subdir remote line = Some uid -> line <> "main" /\ uid <> "".
Proof.
  unfold cvr_uid. intros H.
  destruct (strip_prefix _ line) as [rest |] eqn:Hp; [| discriminate].
  apply strip_prefix_Some in Hp.
  destruct (until_slash rest) as [[u r] |]; [| discriminate].
  destruct (String.eqb u "") eqn:Hu; [discriminate |].
  injection H as <-. apply String.eqb_neq in Hu. split; [| exact Hu].
  intros ->. apply (f_equal has_slash) in Hp.
  rewrite !has_slash_app in Hp. simpl in Hp.
  rewrite orb_true_r in Hp. simpl in Hp.
  destruct (has_slash _) in Hp; discriminate.
Qed.

Lemma dict_get_remove_ne {V} (d : dict V) k k' :
  k' <> k -> dict_get (dict_remove k d) k' = dict_get d k'.
Proof.
  intros Hne. unfold dict_remove.
  induction d as [| [k0 v] d IH]; [reflexivity |].
  simpl. destruct (String.eqb k0 k) eqn:E; simpl.
  - apply String.eqb_eq in E. subst k0.
    destruct (String.eqb k k') eqn:E'; [| exact IH].
    apply String.eqb_eq in E'. congruence.
  - now rewrite IH.
Qed.

Lemma dict_keys_remove {V} (d : dict V) k :
  dict_keys (dict_remove k d) = filter (fun x => x <> k) (dict_keys d).
Proof.
  unfold dict_remove, dict_keys.
  induction d as [| [k0 v] d IH]; [reflexivity |].
  simpl. destruct (String.eqb k0 k) eqn:E; simpl.
  - apply String.eqb_eq in E. subst k0.
    rewrite filter_cons_False by auto. exact IH.
  - apply String.eqb_neq in E.
    rewrite filter_cons_True by exact E. now rewrite IH.
Qed.

Lemma remote_lines_remove (d : dict Git.commit) k :
  map (fun kv => ("origin/" ++ fst kv)%string) (dict_remove k d)
  = filter (fun x => x <> ("origin/" ++ k)%string)
           (map (fun kv => ("origin/" ++ fst kv)%string) d).
Proof.
  unfold dict_remove.
  induction d as [| [k0 v] d IH]; [reflexivity |].
  simpl. destruct (String.eqb k0 k) eqn:E; simpl.
  - apply String.eqb_eq in E. subst k0.
    rewrite filter_cons_False by auto. exact IH.
  - apply String.eqb_neq in E.
    rewrite filter_cons_True by (intros H; apply append_inj_r in H; auto).
    now rewrite IH.
Qed.

End NameFacts.

(** ** The merge loop *)

Section MergeLoopFacts.

Import Merge.

Variable sha : list string -> string -> string -> string.
Variable subdir : string.
Variable a : args.
Hypothesis Hprint : printonly a = false.

Lemma dict_get_keys {V} (d : dict V) k :
  k ∈ dict_keys d -> exists v, dict_get d k = Some v.
Proof.
  unfold dict_keys. induction d as [| [k0 v] d IH]; simpl.
  - intros H. inversion H.
  - intros H. destruct (String.eqb k0 k) eqn:E; [eauto |].
    apply String.eqb_neq in E. apply elem_of_cons in H as [-> | H]; [congruence | auto].
Qed.

Lemma filter_all {A} (P : A -> Prop) `{!forall x, Decision (P x)} (l : list A) :
  (forall x, x ∈ l -> P x) -> filter P l = l.
Proof.
  induction l as [| x l IH]; intros Hall; [reflexivity |].
  rewrite filter_cons_True by (apply Hall; now left).
  f_equal. apply IH. intros y Hy. apply Hall. now right.
Qed.

(** One merge of a listed branch whose tip changes a file: the branch
    leaves the listing, main grows by one commit, and the other listed
    branches keep their tips. *)
Lemma merge_step b w w' :
  Git.HEAD w = "main" ->
  b ∈ listing (remote a) w -> has_diff w b ->
  merge_contest_branch sha a b w = (Ok tt, w') ->
  Git.HEAD w' = "main"
  /\ listing (remote a) w' = filter (fun x => x <> b) (listing (remote a) w)
  /\ (forall b', b' ∈ listing (remote a) w -> b' <> b -> b' <> "main" ->
                 Git.resolve w' b' = Git.resolve w b')
  /\ exists m, Git.main w' = m :: Git.main w.
Proof.
  intros HH Hin (c0 & Hres0 & Hdiff) Hm.
  destruct (merge_contest_branch_effect sha a b w w' Hprint HH Hm)
    as (HH' & c & Hres & [(Hskip & _) | (_ & Hmain & Heff)]).
  { congruence. }
  split; [exact HH' |]. unfold listing in *.
  destruct (remote a).
  - destruct Heff as (Hl & _ & Ho).
    apply list_elem_of_fmap in Hin as ([n cn] & -> & Hn). simpl in *.
    rewrite removeprefix_app in Ho.
    split; [rewrite Ho; apply remote_lines_remove |].
    split; [| exact Hmain].
    intros b' _ Hne Hnm. unfold Git.resolve.
    apply String.eqb_neq in Hnm. rewrite Hnm, Hl.
    destruct (dict_get (Git.local w) b'); [reflexivity |].
    destruct (strip_prefix "origin/" b') as [n' |] eqn:Hs; [| reflexivity].
    apply strip_prefix_Some in Hs. subst b'.
    rewrite Ho. apply dict_get_remove_ne. congruence.
  - destruct Heff as (_ & Hl & Ho).
    split; [rewrite Hl; apply dict_keys_remove |].
    split; [| exact Hmain].
    intros b' Hb' Hne Hnm. unfold Git.resolve.
    apply String.eqb_neq in Hnm. rewrite Hnm, Hl.
    rewrite (dict_get_remove_ne _ _ _ Hne).
    destruct (dict_get_keys _ _ Hb') as (v & ->). reflexivity.
Qed.

(** The loop of [randomly_merge_contests] on listed, distinct branches
    whose tips change a file: if it returns, it took [loop] distinct
    branches out of the batch and out of the listing. *)
Lemma merge_loop_spec loop : forall batch w batch' w',
  Git.HEAD w = "main" ->
  NoDup batch ->
  (forall b, b ∈ batch -> b ∈ listing (remote a) w /\ b <> "main" /\ has_diff w b) ->
  merge_loop sha a loop batch w = (Ok batch', w') ->
  Git.HEAD w' = "main"
  /\ loop <= length batch
  /\ length batch' = length batch - loop
  /\ batch' ⊆ batch
  /\ exists picked,
       length picked = loop /\ NoDup picked /\ picked ⊆ batch
       /\ listing (remote a) w' = filter (fun x => x ∉ picked) (listing (remote a) w)
       /\ (forall b', b' ∈ listing (remote a) w' -> b' <> "main" ->
                      Git.resolve w' b' = Git.resolve w b')
       /\ length (Git.main w') = loop + length (Git.main w).
Proof.
  induction loop as [| loop IH]; intros batch w batch' w' HH Hnd Hb Hm.
  - simpl in Hm. injection Hm as <- <-.
    split; [exact HH |]. split; [lia |]. split; [lia |]. split; [set_solver |].
    exists []. split; [reflexivity |]. split; [constructor |].
    split; [set_solver |]. split.
    + symmetry. apply filter_all. intros x _. apply not_elem_of_nil.
    + split; [auto | reflexivity].
  - cbn [merge_loop] in Hm.
    apply bind_Ok in Hm as (pick & w1 & H1 & Hm).
    unfold rand in H1.
    destruct (Rand.randrange (length batch) (Git.entropy w)) as [rp e1] eqn:Hr.
    injection H1 as -> <-.
    apply randrange_lt in Hr.
    apply bind_Ok in Hm as (branch & w1' & H2 & Hm).
    unfold lift, list_index in H2.
    destruct (batch !! pick) as [br |] eqn:Hpick; [| discriminate].
    injection H2 as <- <-.
    apply bind_Ok in Hm as ([] & w2 & H3 & Hm).
    assert (Hbr : br ∈ batch) by (apply list_elem_of_lookup; eauto).
    destruct (Hb br Hbr) as (Hbl & Hbm & Hbd).
    destruct (merge_step br (Git.set_entropy e1 w) w2 HH Hbl Hbd H3)
      as (HH2 & Hl2 & Hf2 & (m & Hm2)).
    pose proof (delete_Permutation batch pick br Hpick) as Hperm.
    assert (Hnd1 : NoDup (delete pick batch)).
    { rewrite Hperm in Hnd. now inversion Hnd. }
    assert (Hnotin : br ∉ delete pick batch).
    { rewrite Hperm in Hnd. now inversion Hnd. }
    assert (Hsub : forall b, b ∈ delete pick batch -> b ∈ batch /\ b <> br).
    { intros b Hbin. split; [rewrite Hperm; now right | congruence]. }
    destruct (IH (delete pick batch) w2 batch' w' HH2 Hnd1) as
      (HH' & Hle & Hlen & Hsub' & picked & Hpl & Hpn & Hps & Hl' & Hf' & Hmn);
      [| exact Hm |].
    { intros b Hbin. destruct (Hsub b Hbin) as (Hb0 & Hne).
      destruct (Hb b Hb0) as (Hbl0 & Hbm0 & (c & Hc & Hcd)).
      split; [| split; [exact Hbm0 |]].
      - rewrite Hl2. apply list_elem_of_filter. split; assumption.
      - exists c. split; [| exact Hcd].
        rewrite (Hf2 b Hbl0 Hne Hbm0). exact Hc. }
    assert (Hlenb : length batch = S (length (delete pick batch))).
    { now rewrite (Permutation_length Hperm). }
    split; [exact HH' |]. split; [lia |]. split; [lia |].
    split; [intros x Hx; apply Hsub; auto |].
    exists (br :: picked). split; [simpl; lia |].
    split; [constructor; [intros Hc; apply Hnotin, Hps, Hc | exact Hpn] |].
    split; [intros x Hx; apply elem_of_cons in Hx as [-> | Hx];
            [exact Hbr | apply Hsub, Hps, Hx] |].
    split; [| split].
    + rewrite Hl', Hl2. simpl. rewrite list_filter_filter.
      apply list_filter_iff. intros x. rewrite not_elem_of_cons. tauto.
    + intros b' Hb' Hnm. rewrite (Hf' b' Hb' Hnm).
      rewrite Hl', Hl2 in Hb'.
      apply list_elem_of_filter in Hb' as (_ & Hb').
      apply list_elem_of_filter in Hb' as (Hne & Hb').
      apply Hf2; assumption.
    + rewrite Hmn, Hm2. simpl. lia.
Qed.

End MergeLoopFacts.

(** ** Lists of branches *)

Section BranchListFacts.

Lemma grouped_tail u us : grouped (u :: us) -> grouped us.
Proof. destruct us as [| v us]; simpl; [auto | tauto]. Qed.

Lemma grouped_app_r us vs : grouped (us ++ vs) -> grouped vs.
Proof.
  induction us as [| u us IH]; [auto |].
  intros H. apply IH. exact (grouped_tail _ _ H).
Qed.

(** After a block of [u] that another uid follows, [u] does not come back. *)
Lemma grouped_block (u v : option string) us vs :
  us <> [] -> (forall x, In x us -> x = u) ->
  grouped (us ++ v :: vs) -> v <> u -> ~ In u (v :: vs).
Proof.
  induction us as [| x us IH]; [congruence |].
  intros _ Hall Hg Hne.
  assert (Hx : x = u) by (apply Hall; now left). subst x.
  destruct us as [| y us].
  - simpl in Hg. destruct Hg as ([Heq | Hnot] & _); [congruence | exact Hnot].
  - apply IH; [discriminate | | | exact Hne].
    + intros z Hz. apply Hall. now right.
    + exact (grouped_tail _ _ Hg).
Qed.

Lemma length_filter_picked (batch picked : list string) :
  NoDup batch -> NoDup picked -> picked ⊆ batch ->
  length (filter (fun x => x ∉ picked) batch) = length batch - length picked.
Proof.
  intros Hb Hp Hsub.
  pose proof (filter_app_complement (fun x => x ∉ picked) batch) as Hc.
  apply Permutation_length in Hc. rewrite length_app in Hc.
  assert (Hin : filter (fun x => ~ (x ∉ picked)) batch ≡ₚ picked).
  { apply NoDup_Permutation; [now apply NoDup_filter | exact Hp |].
    intros x. rewrite list_elem_of_filter. split.
    - intros [Hx _]. destruct (decide (x ∈ picked)); [assumption | contradiction].
    - intros Hx. split; [tauto | now apply Hsub]. }
  apply Permutation_length in Hin. lia.
Qed.

End BranchListFacts.

(** ** Merging a batch *)

Section MergeBatchFacts.

Import Merge.

Variable sha : list string -> string -> string -> string.
Variable subdir : string.
Variable a : args.
Hypothesis Hprint : printonly a = false.

(** What a call of [randomly_merge_contests] that returned did: it
    returned the count of the code, took that many distinct branches out
    of the batch and out of the listing, added that many commits to main,
    and left at most the threshold in the batch. *)
Lemma randomly_merge_contests_spec uid batch w count batch' w' :
  Git.HEAD w = "main" ->
  NoDup batch ->
  (forall b, b ∈ batch -> b ∈ listing (remote a) w /\ b <> "main" /\ has_diff w b) ->
  randomly_merge_contests sha a uid batch w = (Ok (count, batch'), w') ->
  count = merge_count a (Z.of_nat (length batch))
  /\ (0 <= count <= Z.of_nat (length batch))%Z
  /\ Z.of_nat (length batch') = (Z.of_nat (length batch) - count)%Z
  /\ (Z.of_nat (length batch') <= minimum_cast_cache a)%Z
  /\ batch' ⊆ batch
  /\ Git.HEAD w' = "main"
  /\ exists picked,
       Z.of_nat (length picked) = count /\ NoDup picked /\ picked ⊆ batch
       /\ listing (remote a) w' = filter (fun x => x ∉ picked) (listing (remote a) w)
       /\ (forall b', b' ∈ listing (remote a) w' -> b' <> "main" ->
                      Git.resolve w' b' = Git.resolve w b')
       /\ length (Git.main w') = length picked + length (Git.main w).
Proof.
  intros HH Hnd Hb Hm. unfold randomly_merge_contests in Hm. unfold merge_count.
  set (n := Z.of_nat (length batch)) in *.
  assert (Hgo : forall c,
    (let* batch'0 := merge_loop sha a (Z.to_nat c) batch in ret (c, batch'0))%M w
    = (Ok (count, batch'), w') ->
    (0 <= c)%Z ->
    count = c
    /\ (0 <= count <= n)%Z
    /\ Z.of_nat (length batch') = (n - count)%Z
    /\ batch' ⊆ batch
    /\ Git.HEAD w' = "main"
    /\ exists picked,
       Z.of_nat (length picked) = count /\ NoDup picked /\ picked ⊆ batch
       /\ listing (remote a) w' = filter (fun x => x ∉ picked) (listing (remote a) w)
       /\ (forall b', b' ∈ listing (remote a) w' -> b' <> "main" ->
                      Git.resolve w' b' = Git.resolve w b')
       /\ length (Git.main w') = length picked + length (Git.main w)).
  { intros c Hc Hc0. apply bind_Ok in Hc as (b1 & w1 & Hl & Hr).
    injection Hr as <- <- <-.
    destruct (merge_loop_spec sha a Hprint (Z.to_nat c) batch w b1 w1 HH Hnd Hb Hl)
      as (HH' & Hle & Hlen & Hsub & picked & Hpl & Hpn & Hps & Hlist & Hfr & Hmn).
    split; [reflexivity |]. subst n. split; [lia |]. split; [lia |].
    split; [exact Hsub |]. split; [exact HH' |].
    exists picked. rewrite Hpl. repeat split; auto. lia. }
  destruct (n <=? minimum_cast_cache a)%Z eqn:Hk.
  - apply Z.leb_le in Hk. destruct (flush a).
    + destruct (Hgo n Hm ltac:(subst n; lia))
        as (-> & Hc & Hlen & Hsub & HH' & Hex).
      repeat split; try assumption; try lia.
    + injection Hm as <- <- <-.
      split; [reflexivity |]. split; [subst n; lia |]. split; [subst n; lia |].
      split; [subst n; lia |]. split; [set_solver |]. split; [exact HH |].
      exists []. split; [reflexivity |]. split; [constructor |].
      split; [set_solver |]. split.
      * symmetry. apply filter_all. intros x _. apply not_elem_of_nil.
      * split; [auto | reflexivity].
  - apply Z.leb_gt in Hk.
    destruct (Hgo (n - minimum_cast_cache a)%Z Hm ltac:(lia))
      as (-> & Hc & Hlen & Hsub & HH' & Hex).
    repeat split; try assumption; try lia.
Qed.

End MergeBatchFacts.

(** ** The run of merge-contests *)

Section MergeRunFacts.

Import Merge.

Variable sha : list string -> string -> string -> string.
Variable subdir : string.
Variable a : args.
Hypothesis Hprint : printonly a = false.

Abbreviation uid_of := (cvr_uid subdir (remote a)).

Lemma pending_listing w b :
  b ∈ pending subdir (remote a) w ->
  b ∈ listing (remote a) w /\ b <> "main" /\ exists u, uid_of b = Some u /\ u <> "".
Proof.
  unfold pending. rewrite list_elem_of_filter. intros ([u Hu] & Hin).
  destruct (cvr_uid_Some _ _ _ _ Hu). eauto.
Qed.

Lemma pending_filter w w' (picked : list string) :
  listing (remote a) w' = filter (fun x => x ∉ picked) (listing (remote a) w) ->
  pending subdir (remote a) w'
  = filter (fun x => x ∉ picked) (pending subdir (remote a) w).
Proof.
  intros H. unfold pending. rewrite H, !list_filter_filter.
  apply list_filter_iff. intros x. tauto.
Qed.

Lemma uid_count_app u l1 l2 :
  uid_count subdir (remote a) u (l1 ++ l2)
  = uid_count subdir (remote a) u l1 + uid_count subdir (remote a) u l2.
Proof. unfold uid_count. now rewrite filter_app, length_app. Qed.

Lemma uid_count_none u l :
  (forall b, b ∈ l -> uid_of b <> u) -> uid_count subdir (remote a) u l = 0.
Proof.
  intros H. unfold uid_count.
  induction l as [| x l IH]; [reflexivity |].
  rewrite filter_cons_False by (apply H; now left).
  apply IH. intros b Hb. apply H. now right.
Qed.

Lemma uid_count_le u l : uid_count subdir (remote a) u l <= length l.
Proof. apply length_filter. Qed.

(** Closing a block: the rest of a batch of one uid joins the branches
    already dealt with. *)
Lemma small_extend k done rest cu :
  small subdir (remote a) k done ->
  (forall b, b ∈ rest -> uid_of b = cu) ->
  (forall b, b ∈ done -> uid_of b <> cu) ->
  (Z.of_nat (length rest) <= k)%Z ->
  small subdir (remote a) k (done ++ rest).
Proof.
  intros Hs Hu Hd Hk b Hb. rewrite uid_count_app.
  apply elem_of_app in Hb as [Hb | Hb].
  - rewrite (uid_count_none _ rest).
    + rewrite Nat.add_0_r. now apply Hs.
    + intros x Hx. rewrite (Hu x Hx). intros Heq. exact (Hd b Hb (eq_sym Heq)).
  - rewrite (Hu b Hb), (uid_count_none _ done) by exact Hd.
    pose proof (uid_count_le cu rest). simpl. lia.
Qed.

(** The loop over the CVR branches.  [done] is what earlier blocks left
    pending; the batch in hand and the branches to come follow it in the
    listing. *)
Lemma run_loop_spec l : forall done batch cu merged w bf cf mf w',
  Git.HEAD w = "main" ->
  NoDup (pending subdir (remote a) w) ->
  pending subdir (remote a) w = done ++ batch ++ l ->
  (forall b, b ∈ batch ++ l -> has_diff w b) ->
  grouped (map uid_of (batch ++ l)) ->
  (forall b, b ∈ batch -> uid_of b = cu) ->
  (batch = [] <-> cu = None) ->
  (forall b b2, b ∈ done -> b2 ∈ batch ++ l -> uid_of b <> uid_of b2) ->
  small subdir (remote a) (minimum_cast_cache a) done ->
  run_loop sha subdir a l batch cu merged w = (Ok (bf, cf, mf), w') ->
  exists done',
    Git.HEAD w' = "main"
    /\ NoDup (pending subdir (remote a) w')
    /\ pending subdir (remote a) w' = done' ++ bf
    /\ (forall b, b ∈ bf -> has_diff w' b)
    /\ (forall b, b ∈ bf -> uid_of b = cf)
    /\ (forall b b2, b ∈ done' -> b2 ∈ bf -> uid_of b <> uid_of b2)
    /\ small subdir (remote a) (minimum_cast_cache a) done'.
Proof.
  induction l as [| branch rest IH];
    intros done batch cu merged w bf cf mf w' HH Hnd Hpend Hdiff Hg Huni Hcu Hdis Hsm Hrun.
  - simpl in Hrun. injection Hrun as <- <- <- <-.
    rewrite app_nil_r in *. exists done. repeat split; auto.
  - cbn [run_loop] in Hrun.
    assert (Hbin : branch ∈ pending subdir (remote a) w).
    { rewrite Hpend. set_solver. }
    destruct (pending_listing w branch Hbin) as (_ & _ & uid & Huid & Hne).
    rewrite Huid in Hrun.
    destruct (decide (cu = Some uid)) as [Hsame | Hnew].
    + (* the branch joins the batch *)
      apply (IH done (batch ++ [branch]) cu merged w bf cf mf w'); auto.
      * now rewrite <- app_assoc.
      * intros b Hb. apply Hdiff. now rewrite <- app_assoc in Hb.
      * now rewrite <- app_assoc.
      * intros b Hb. apply elem_of_app in Hb as [Hb | Hb]; [auto |].
        apply list_elem_of_singleton in Hb. subst b. congruence.
      * split; [intros H; now apply app_eq_nil in H as [_ ?] | congruence].
      * intros b b2 Hb Hb2. apply Hdis; [exact Hb |]. now rewrite <- app_assoc in Hb2.
    + (* a new uid: the batch in hand is dealt with first *)
      apply bind_Ok in Hrun as (merged' & w1z & Hstep & Hrun).
      assert (Hrest : forall b, b ∈ branch :: rest -> uid_of b <> cu \/ batch = []).
      { intros b Hb. destruct batch as [| b0 batch0] eqn:Eb; [now right |]. left.
        rewrite <- Eb in *.
        assert (Hgb : ~ In cu (map uid_of (branch :: rest))).
        { apply (grouped_block cu (uid_of branch) (map uid_of batch) (map uid_of rest)).
          - rewrite Eb. discriminate.
          - intros x Hx. apply in_map_iff in Hx as (y & <- & Hy).
            apply Huni. now apply list_elem_of_In.
          - rewrite map_app in Hg. exact Hg.
          - rewrite Huid. congruence. }
        intros Heq. apply Hgb. rewrite <- Heq.
        apply in_map. now apply list_elem_of_In. }
      destruct (truthy cu) eqn:Htr.
      * destruct cu as [u0 |]; [| discriminate]. simpl in Hstep.
        assert (Hbne : batch <> []) by (intros H; apply Hcu in H; discriminate).
        apply bind_Ok in Hstep as ([count batch'] & w1 & Hmerge & Hret).
        injection Hret as <- <-.
        assert (Hndb : NoDup batch).
        { rewrite Hpend in Hnd. apply NoDup_app in Hnd as (_ & _ & Hnd).
          now apply NoDup_app in Hnd as (Hnd & _). }
        assert (Hbok : forall b, b ∈ batch ->
                  b ∈ listing (remote a) w /\ b <> "main" /\ has_diff w b).
        { intros b Hb.
          assert (Hp : b ∈ pending subdir (remote a) w) by (rewrite Hpend; set_solver).
          destruct (pending_listing w b Hp) as (H1 & H2 & _).
          split; [exact H1 |]. split; [exact H2 |]. apply Hdiff. set_solver. }
        destruct (randomly_merge_contests_spec sha a Hprint u0 batch w count batch' w1
                    HH Hndb Hbok Hmerge)
          as (_ & Hc & Hlen & Hle & _ & HH1 & picked & Hpl & Hpn & Hps & Hlist & Hfr & _).
        pose proof (pending_filter w w1 picked Hlist) as Hp1.
        assert (Hout : forall x, x ∈ done ++ branch :: rest -> x ∉ picked).
        { intros x Hx Hxp. apply Hps in Hxp.
          rewrite Hpend in Hnd. apply NoDup_app in Hnd as (_ & Hd1 & Hnd).
          apply NoDup_app in Hnd as (_ & Hd2 & _).
          apply elem_of_app in Hx as [Hx | Hx].
          - apply (Hd1 x Hx). set_solver.
          - exact (Hd2 x Hxp Hx). }
        assert (Hp1' : pending subdir (remote a) w1
                       = (done ++ filter (fun x => x ∉ picked) batch) ++ [branch] ++ rest).
        { rewrite Hp1, Hpend, !filter_app.
          rewrite (filter_all _ done) by (intros x Hx; apply Hout; set_solver).
          rewrite (filter_all _ (branch :: rest)) by (intros x Hx; apply Hout; set_solver).
          now rewrite <- app_assoc. }
        assert (Hlenf : (Z.of_nat (length (filter (fun x => x ∉ picked) batch))
                         <= minimum_cast_cache a)%Z).
        { rewrite (length_filter_picked batch picked Hndb Hpn Hps). lia. }
        apply (IH (done ++ filter (fun x => x ∉ picked) batch) [branch] (Some uid)
                  (merged + count)%Z w1 bf cf mf w'); auto.
        -- rewrite Hp1. now apply NoDup_filter.
        -- intros b Hb.
           assert (Hp : b ∈ pending subdir (remote a) w1) by (rewrite Hp1'; set_solver).
           destruct (pending_listing w1 b Hp) as (H1 & H2 & _).
           destruct (Hdiff b) as (c & Hc1 & Hc2); [set_solver |].
           exists c. split; [| exact Hc2]. now rewrite (Hfr b H1 H2).
        -- rewrite map_app in Hg. exact (grouped_app_r _ _ Hg).
        -- intros b Hb. apply list_elem_of_singleton in Hb. now subst b.
        -- split; discriminate.
        -- intros b b2 Hb Hb2. apply elem_of_app in Hb as [Hb | Hb].
           ++ apply Hdis; [exact Hb | set_solver].
           ++ apply list_elem_of_filter in Hb as (_ & Hb). rewrite (Huni b Hb).
              destruct (Hrest b2 Hb2) as [H | H]; [congruence | contradiction].
        -- apply small_extend with (cu := Some u0); auto.
           ++ intros b Hb. apply list_elem_of_filter in Hb as (_ & Hb). auto.
           ++ intros b Hb Heq.
              destruct batch as [| b0 batch0]; [contradiction |].
              apply (Hdis b b0 Hb); [set_solver |].
              rewrite Heq. symmetry. apply Huni. set_solver.
      * injection Hstep as <- <-.
        assert (Hbe : batch = []).
        { destruct cu as [u0 |]; [| now apply Hcu].
          destruct batch as [| b0 batch0]; [reflexivity | exfalso].
          assert (Hp : b0 ∈ pending subdir (remote a) w) by (rewrite Hpend; set_solver).
          destruct (pending_listing w b0 Hp) as (_ & _ & u & Hu & Hun).
          rewrite (Huni b0) in Hu by set_solver. injection Hu as ->.
          simpl in Htr. apply negb_false_iff, String.eqb_eq in Htr. contradiction. }
        subst batch. cbn [app] in *.
        apply (IH done [branch] (Some uid) merged w bf cf mf w'); auto.
        -- intros b Hb. apply list_elem_of_singleton in Hb. now subst b.
        -- split; discriminate.
Qed.

End MergeRunFacts.

(** ** A second run *)

Section MergeIdleFacts.

Import Merge.

Variable sha : list string -> string -> string -> string.
Variable subdir : string.
Variable a : args.
Hypothesis Hflush : flush a = false.

Abbreviation uid_of2 := (cvr_uid subdir (remote a)).

Lemma uid_count_uniform cu batch :
  (forall b, b ∈ batch -> uid_of2 b = cu) ->
  uid_count subdir (remote a) cu batch = length batch.
Proof. intros H. unfold uid_count. now rewrite filter_all. Qed.

Lemma small_block cu batch l :
  small subdir (remote a) (minimum_cast_cache a) (batch ++ l) ->
  (forall b, b ∈ batch -> uid_of2 b = cu) ->
  batch <> [] ->
  (Z.of_nat (length batch) <= minimum_cast_cache a)%Z.
Proof.
  intros Hs Hu Hne. destruct batch as [| b0 batch0] eqn:Eb; [congruence |].
  rewrite <- Eb in *.
  assert (Hb0 : b0 ∈ batch) by (rewrite Eb; now left).
  specialize (Hs b0 ltac:(apply elem_of_app; now left)).
  rewrite (Hu b0 Hb0), uid_count_app, (uid_count_uniform cu batch Hu) in Hs. lia.
Qed.

Lemma small_app_r l1 l2 :
  small subdir (remote a) (minimum_cast_cache a) (l1 ++ l2) ->
  small subdir (remote a) (minimum_cast_cache a) l2.
Proof.
  intros Hs b Hb. specialize (Hs b ltac:(apply elem_of_app; now right)).
  rewrite uid_count_app in Hs. lia.
Qed.

(** Without flush, a batch within the threshold is left alone. *)
Lemma randomly_merge_contests_idle uid batch w :
  (Z.of_nat (length batch) <= minimum_cast_cache a)%Z ->
  randomly_merge_contests sha a uid batch w = (Ok (0%Z, batch), w).
Proof.
  intros Hk. unfold randomly_merge_contests.
  apply Z.leb_le in Hk. now rewrite Hk, Hflush.
Qed.

(** The loop over a listing in which no contest is above the threshold
    merges nothing and changes nothing. *)
Lemma run_loop_idle l : forall batch cu merged w,
  (forall b, b ∈ batch ++ l -> exists u, uid_of2 b = Some u /\ u <> "") ->
  small subdir (remote a) (minimum_cast_cache a) (batch ++ l) ->
  (forall b, b ∈ batch -> uid_of2 b = cu) ->
  (batch = [] <-> cu = None) ->
  exists bf cf,
    run_loop sha subdir a l batch cu merged w = (Ok (bf, cf, merged), w)
    /\ (bf = [] \/ (Z.of_nat (length bf) <= minimum_cast_cache a)%Z).
Proof.
  induction l as [| branch rest IH]; intros batch cu merged w Hcvr Hs Hu Hcu.
  - simpl. exists batch, cu. split; [reflexivity |].
    destruct batch as [| b0 batch0] eqn:Eb; [now left | right].
    rewrite <- Eb in *. rewrite app_nil_r in Hs.
    apply (small_block cu batch []); [now rewrite app_nil_r | exact Hu | congruence].
  - cbn [run_loop].
    destruct (Hcvr branch ltac:(apply elem_of_app; right; now left)) as (uid & Huid & Hne).
    rewrite Huid.
    destruct (decide (cu = Some uid)) as [Hsame | Hnew].
    + apply IH.
      * intros b Hb. apply Hcvr. now rewrite <- app_assoc in Hb.
      * now rewrite <- app_assoc.
      * intros b Hb. apply elem_of_app in Hb as [Hb | Hb]; [auto |].
        apply list_elem_of_singleton in Hb. subst b. congruence.
      * split; [intros H; now apply app_eq_nil in H as [_ ?] | congruence].
    + assert (Hnext : exists bf cf,
                run_loop sha subdir a rest [branch] (Some uid) merged w
                = (Ok (bf, cf, merged), w)
                /\ (bf = [] \/ (Z.of_nat (length bf) <= minimum_cast_cache a)%Z)).
      { apply IH.
        - intros b Hb. apply Hcvr. apply elem_of_app. now right.
        - exact (small_app_r batch ([branch] ++ rest) Hs).
        - intros b Hb. apply list_elem_of_singleton in Hb. now subst b.
        - split; discriminate. }
      unfold bind. destruct (truthy cu) eqn:Htr.
      * assert (Hbne : batch <> []).
        { intros H. apply Hcu in H. subst cu. discriminate. }
        rewrite randomly_merge_contests_idle
          by (apply (small_block cu batch (branch :: rest)); assumption).
        simpl. rewrite Z.add_0_r. exact Hnext.
      * simpl. exact Hnext.
Qed.

End MergeIdleFacts.

Section MergeTwice.

Import Merge.

Variable sha : list string -> string -> string -> string.
Variable subdir : string.

Lemma listing_repo remote w w' : repo w' = repo w -> listing remote w' = listing remote w.
Proof. intros [= _ Hl Ho _]. unfold listing. now rewrite Hl, Ho. Qed.

Lemma pending_repo remote w w' :
  repo w' = repo w -> pending subdir remote w' = pending subdir remote w.
Proof. intros H. unfold pending. now rewrite (listing_repo _ _ _ H). Qed.

Lemma resolve_repo w w' b : repo w' = repo w -> Git.resolve w' b = Git.resolve w b.
Proof. intros [= _ Hl Ho Hm]. unfold Git.resolve. now rewrite Hl, Ho, Hm. Qed.

Lemma has_diff_repo w w' b : repo w' = repo w -> has_diff w b -> has_diff w' b.
Proof.
  intros H (c & Hc & Hd). exists c. split; [| exact Hd].
  now rewrite (resolve_repo _ _ _ H).
Qed.

(** The two commands every run starts with. *)
Lemma run_start a w st w' :
  printonly a = false -> branch a = "" ->
  run sha subdir a w = (Ok st, w') ->
  exists w0 bf cf mf w1,
    repo w0 = repo w
    /\ run_loop sha subdir a (pending subdir (remote a) w0) [] None 0%Z w0
       = (Ok (bf, cf, mf), w1)
    /\ match bf with
       | [] => st = mf /\ w' = w1
       | _ :: _ =>
           exists r, randomly_merge_contests sha a (default "" cf) bf w1 = (Ok r, w')
                     /\ st = (mf + fst r)%Z
       end.
Proof.
  intros Hp Hb Hrun. unfold run in Hrun. rewrite Hp, Hb in Hrun. simpl negb in Hrun.
  apply bind_Ok in Hrun as (r1 & wa & H1 & Hrun).
  apply (Shellout_run_quiet_Ok sha Git.git_pull) in H1 as Hr1; [| reflexivity].
  cbv iota in Hrun.
  apply bind_Ok in Hrun as (r2 & wb & H2 & Hrun).
  apply (Shellout_run_quiet_Ok sha (Git.git_branch_list (remote a))) in H2 as Hr2;
    [| reflexivity].
  apply Shellout_run_checked in H2 as (Hout & _ & _).
  assert (Hlist : Git.stdout r2 = listing (remote a) wb).
  { rewrite Hout, (listing_repo _ _ _ Hr2). simpl. unfold listing.
    destruct (remote a); reflexivity. }
  cbv zeta in Hrun. rewrite Hlist in Hrun.
  fold (pending subdir (remote a) wb) in Hrun.
  apply bind_Ok in Hrun as ([[bf cf] mf] & w1 & Hloop & Hrun).
  exists wb, bf, cf, mf, w1. split; [congruence |]. split; [exact Hloop |].
  destruct bf as [| b0 bf0].
  - injection Hrun as <- <-. now split.
  - apply bind_Ok in Hrun as (r & w2 & Hm & Hret).
    injection Hret as <- <-. exists r. now split.
Qed.

(** C8, as the code has it.  On main, with the branches of each contest
    listed next to each other (git lists refs sorted by name) and every
    pending CVR branch carrying a changed file at its tip: after a first
    run that returned (flush or not), a second run without flush, with the
    same threshold, merges zero branches and leaves the local branches,
    the remote branches and main as they are, because the first run left
    no contest with more pending branches than the threshold. *)
Theorem second_run_merges_nothing v k fl rm w m1 w1 :
  Git.HEAD w = "main" ->
  NoDup (listing rm w) ->
  grouped (map (cvr_uid subdir rm) (pending subdir rm w)) ->
  (forall b, b ∈ pending subdir rm w -> has_diff w b) ->
  run sha subdir (mkArgs v false k fl rm "") w = (Ok m1, w1) ->
  small subdir rm k (pending subdir rm w1)
  /\ exists w2,
       run sha subdir (mkArgs v false k false rm "") w1 = (Ok 0%Z, w2)
       /\ repo w2 = repo w1.
Proof.
  intros HH Hnd Hg Hdiff Hrun.
  set (a1 := mkArgs v false k fl rm "") in *.
  set (a2 := mkArgs v false k false rm "").
  destruct (run_start a1 w m1 w1 eq_refl eq_refl Hrun)
    as (w0 & bf & cf & mf & wl & Hr0 & Hloop & Hfin).
  change (remote a1) with rm in *.
  assert (HH0 : Git.HEAD w0 = "main") by (injection Hr0 as -> _ _ _; exact HH).
  assert (Hnd0 : NoDup (pending subdir rm w0)).
  { unfold pending. rewrite (listing_repo _ _ _ Hr0). now apply NoDup_filter. }
  assert (Hdiff0 : forall b, b ∈ [] ++ pending subdir rm w0 -> has_diff w0 b).
  { intros b Hb. simpl in Hb. apply (has_diff_repo w w0 b Hr0).
    apply Hdiff. now rewrite <- (pending_repo rm w w0 Hr0). }
  assert (Hg0 : grouped (map (cvr_uid subdir rm) ([] ++ pending subdir rm w0))).
  { simpl. now rewrite (pending_repo rm w w0 Hr0). }
  assert (Hu0 : forall b : string, b ∈ [] -> cvr_uid subdir rm b = None).
  { intros b Hb. inversion Hb. }
  assert (Hdis0 : forall b b2 : string, b ∈ [] -> b2 ∈ [] ++ pending subdir rm w0 ->
                    cvr_uid subdir rm b <> cvr_uid subdir rm b2).
  { intros b b2 Hb. inversion Hb. }
  assert (Hs0 : small subdir rm (minimum_cast_cache a1) []).
  { intros b Hb. inversion Hb. }
  destruct (run_loop_spec sha subdir a1 eq_refl (pending subdir rm w0)
              [] [] None 0%Z w0 bf cf mf wl HH0 Hnd0 eq_refl Hdiff0 Hg0 Hu0
              (conj (fun _ => eq_refl) (fun _ => eq_refl)) Hdis0 Hs0 Hloop)
    as (done & HHl & Hndl & Hpl & Hdl & Hul & Hdisl & Hsl).
  change (remote a1) with rm in *. change (minimum_cast_cache a1) with k in *.
  assert (Hsmall : small subdir rm k (pending subdir rm w1)).
  { destruct bf as [| b0 bf0] eqn:Ebf.
    - destruct Hfin as (_ & ->). rewrite Hpl, app_nil_r. exact Hsl.
    - rewrite <- Ebf in *.
      destruct Hfin as ([count batch'] & Hm & _).
      assert (Hndb : NoDup bf).
      { rewrite Hpl in Hndl. now apply NoDup_app in Hndl as (_ & _ & ?). }
      assert (Hbok : forall b, b ∈ bf ->
                b ∈ listing (remote a1) wl /\ b <> "main" /\ has_diff wl b).
      { intros b Hb.
        assert (Hp : b ∈ pending subdir (remote a1) wl).
        { change (remote a1) with rm. rewrite Hpl. apply elem_of_app. now right. }
        destruct (pending_listing subdir a1 wl b Hp) as (H1 & H2 & _). auto. }
      destruct (randomly_merge_contests_spec sha a1 eq_refl _ bf wl count batch' w1
                  HHl Hndb Hbok Hm)
        as (_ & Hc & Hlen & Hle & _ & HH1 & picked & Hpk & Hpn & Hps & Hlist & _).
      pose proof (pending_filter sha subdir a1 wl w1 picked Hlist) as Hpf.
      change (remote a1) with rm in Hpf. rewrite Hpf, Hpl, filter_app.
      rewrite (filter_all _ done).
      2:{ intros x Hx Hxp. apply Hps in Hxp.
          rewrite Hpl in Hndl. apply NoDup_app in Hndl as (_ & Hd & _).
          exact (Hd x Hx Hxp). }
      apply (small_extend subdir a1 k done _ cf); change (remote a1) with rm; auto.
      + intros b Hb. apply list_elem_of_filter in Hb as (_ & Hb). auto.
      + intros b Hb Heq. apply (Hdisl b b0 Hb).
        * rewrite Ebf. now left.
        * rewrite Heq. symmetry. apply Hul. rewrite Ebf. now left.
      + rewrite (length_filter_picked bf picked Hndb Hpn Hps).
        change (minimum_cast_cache a1) with k in Hle. lia. }
  split; [exact Hsmall |].
  unfold run. change (printonly a2) with false. change (branch a2) with "".
  change (remote a2) with rm. simpl negb. cbv iota.
  unfold bind at 1. unfold Git.Shellout_run at 1. cbn [Git.exec Git.returncode andb negb Z.eqb].
  unfold bind at 1. unfold Git.Shellout_run at 1. cbn [Git.exec].
  set (wa := Git.set_trace _ w1).
  assert (Hra : repo wa = repo w1) by reflexivity.
  assert (Hout : forall r wx,
            (if rm
             then (Git.mkCompleted 0
                     (map (fun kv => ("origin/" ++ fst kv)%string) (Git.origin wa)), wa)
             else (Git.mkCompleted 0 (dict_keys (Git.local wa)), wa)) = (r, wx) ->
            Git.stdout r = listing rm w1 /\ Git.returncode r = 0%Z /\ wx = wa).
  { intros r wx. unfold listing. destruct rm; intros [= <- <-]; auto. }
  destruct (if rm then _ else _) as [r wx] eqn:Hex.
  destruct (Hout r wx eq_refl) as (Hstd & Hrc & ->).
  rewrite Hrc. cbn [andb negb Z.eqb]. cbv zeta. rewrite Hstd.
  fold (pending subdir rm w1).
  set (wb := Git.set_trace _ wa).
  assert (Hrb : repo wb = repo w1) by reflexivity.
  destruct (run_loop_idle sha subdir a2 eq_refl (pending subdir rm w1) [] None 0%Z wb)
    as (bf2 & cf2 & Hidle & Hbf2).
  { intros b Hb. simpl in Hb.
    change (remote a2) with rm. unfold pending in Hb.
    apply list_elem_of_filter in Hb as ([u Hu] & _).
    exists u. split; [exact Hu |]. exact (proj2 (cvr_uid_Some _ _ _ _ Hu)). }
  { exact Hsmall. }
  { intros b Hb. inversion Hb. }
  { tauto. }
  change (remote a2) with rm in Hidle.
  unfold bind at 1. rewrite Hidle.
  destruct bf2 as [| b0 bf0].
  - exists wb. split; [reflexivity | exact Hrb].
  - destruct Hbf2 as [Hbf2 | Hbf2]; [discriminate |].
    unfold bind. rewrite (randomly_merge_contests_idle sha a2 eq_refl _ _ wb Hbf2).
    exists wb. split; [reflexivity | exact Hrb].
Qed.

End MergeTwice.

(** *** merge-contests on the sample repositories *)

Section MergeRuns.

Import Merge.

(** C2 at the failing input: with flush set, threshold 1 and a batch of
    three branches, [randomly_merge_contests] merges two branches and
    leaves one pending; the claim has all three merged.  Without flush the
    same call also merges two. *)
Theorem flush_leaves_threshold_pending :
  fst (randomly_merge_contests sample_sha (merge_args true) "A"
         ["origin/CVRs/A/01"; "origin/CVRs/A/02"; "origin/CVRs/A/03"]
         (pending_world []))
  = Ok (2%Z, ["origin/CVRs/A/03"])
  /\ dict_keys (Git.origin
       (snd (randomly_merge_contests sample_sha (merge_args true) "A"
               ["origin/CVRs/A/01"; "origin/CVRs/A/02"; "origin/CVRs/A/03"]
               (pending_world []))))
     = ["CVRs/A/03"; "CVRs/B/01"]
  /\ merge_count (merge_args true) 3 = 2%Z
  /\ merge_count (merge_args false) 3 = 2%Z.
Proof. repeat apply conj; vm_compute; reflexivity. Qed.

(** [second_run_merges_nothing] on the sample repository: the first run
    merges two of the three branches of contest A, the second run none. *)
Lemma second_run_merges_nothing_witness :
  small "CVRs" true 1
        (pending "CVRs" true (snd (run sample_sha "CVRs" (merge_args false) (pending_world []))))
  /\ exists w2,
       run sample_sha "CVRs" (mkArgs 3 false 1 false true "")
           (snd (run sample_sha "CVRs" (merge_args false) (pending_world [])))
       = (Ok 0%Z, w2)
       /\ repo w2 = repo (snd (run sample_sha "CVRs" (merge_args false) (pending_world []))).
Proof.
  apply (second_run_merges_nothing sample_sha "CVRs" 3 1 false true (pending_world []) 2
           (snd (run sample_sha "CVRs" (merge_args false) (pending_world [])))).
  - reflexivity.
  - apply (bool_decide_unpack _). vm_compute. exact I.
  - vm_compute. repeat split; auto. right. intros [H | []]; discriminate.
  - intros b Hb. vm_compute in Hb.
    repeat (apply elem_of_cons in Hb as [-> | Hb]);
      [| | | | inversion Hb];
      eexists; (split; [vm_compute; reflexivity | discriminate]).
  - vm_compute. reflexivity.
Defined.

(** C8, as the specification states it, fails when a pending branch has no
    changed file at its tip.  With threshold 1 and the three branches of
    contest A in the orphaned repository, the first run picks the orphaned
    branch first, skips it, and merges one branch; two branches remain
    pending, and the second run merges one of them. *)
Lemma second_run_merges_after_skip :
  fst (run sample_sha "CVRs" (merge_args false) (orphan_world (repeat 0 66 ++ [1])))
  = Ok 2%Z
  /\ dict_keys (Git.origin
       (snd (run sample_sha "CVRs" (merge_args false) (orphan_world (repeat 0 66 ++ [1])))))
     = ["CVRs/A/01"; "CVRs/A/03"]
  /\ fst (run sample_sha "CVRs" (merge_args false)
            (snd (run sample_sha "CVRs" (merge_args false)
                    (orphan_world (repeat 0 66 ++ [1])))))
     = Ok 1%Z
  /\ dict_keys (Git.origin
       (snd (run sample_sha "CVRs" (merge_args false)
               (snd (run sample_sha "CVRs" (merge_args false)
                       (orphan_world (repeat 0 66 ++ [1])))))))
     = ["CVRs/A/01"]
  /\ length (Git.main
       (snd (run sample_sha "CVRs" (merge_args false)
               (snd (run sample_sha "CVRs" (merge_args false)
                       (orphan_world (repeat 0 66 ++ [1])))))))
     = S (length (Git.main
            (snd (run sample_sha "CVRs" (merge_args false)
                    (orphan_world (repeat 0 66 ++ [1])))))).
Proof. repeat apply conj; vm_compute; reflexivity. Qed.

End MergeRuns.

(** ** What an operation can raise, and how its trace grows *)

Section EffectFacts.

Context (P : exn -> Prop).

Lemma raises_only_ret {A} (a : A) : raises_only P (ret a).
Proof. intros w e w' H. discriminate. Qed.

Lemma raises_only_modify f : raises_only P (modify f).
Proof. intros w e w' H. discriminate. Qed.

Lemma raises_only_raise {A} e : P e -> raises_only P (@raise A e).
Proof. intros He w e' w' [= <- _]. exact He. Qed.

Lemma raises_only_bind {A B} (m : M A) (k : A -> M B) :
  raises_only P m -> (forall a, raises_only P (k a)) -> raises_only P (bind m k).
Proof.
  intros Hm Hk w e w' H.
  apply bind_Raise in H as [H | (a & w1 & _ & H)]; [exact (Hm _ _ _ H) | exact (Hk _ _ _ _ H)].
Qed.

Lemma raises_only_if {A} (c : bool) (m1 m2 : M A) :
  raises_only P m1 -> raises_only P m2 -> raises_only P (if c then m1 else m2).
Proof. destruct c; auto. Qed.

Lemma raises_only_Shellout_run sha argv printonly check :
  (forall rc, P (CalledProcessError rc)) ->
  raises_only P (Git.Shellout_run sha argv printonly check).
Proof.
  intros HP w e w'. unfold Git.Shellout_run.
  destruct printonly; [discriminate |].
  destruct (Git.exec sha argv w) as [r w1].
  destruct (check && negb (Z.eqb (Git.returncode r) 0)); [| discriminate].
  intros [= <- _]. apply HP.
Qed.

Lemma raises_only_rand {A} (g : Rand.entropy -> result A * Rand.entropy) :
  (forall e0 e e1, g e0 = (Raise e, e1) -> P e) -> raises_only P (rand g).
Proof.
  intros Hg w e w'. unfold rand.
  destruct (g (Git.entropy w)) as [r e1] eqn:E. intros [= -> _]. eauto.
Qed.

Lemma raises_only_lift {A} (r : result A) :
  (forall e, r = Raise e -> P e) -> raises_only P (lift r).
Proof. intros Hr w e w' [= -> _]. auto. Qed.

End EffectFacts.

Section TraceFacts.

Lemma grows_refl w : grows w w.
Proof. now exists []. Qed.

Lemma grows_trans w1 w2 w3 : grows w1 w2 -> grows w2 w3 -> grows w1 w3.
Proof.
  intros [t1 H1] [t2 H2]. exists (t2 ++ t1). now rewrite H2, H1, app_assoc.
Qed.


Lemma grows_set_trace ev w : grows w (Git.set_trace (ev :: Git.trace w) w).
Proof. now exists [ev]. Qed.

Lemma grows_same w w' : Git.trace w' = Git.trace w -> grows w w'.
Proof. intros H. exists []. exact H. Qed.

Lemma grows_Shellout_run sha argv printonly check :
  preserves grows (Git.Shellout_run sha argv printonly check).
Proof.
  intros w. unfold Git.Shellout_run. destruct printonly; [apply grows_refl |].
  pose proof (exec_trace sha argv w) as Hx.
  destruct (Git.exec sha argv w) as [r w1]. simpl in Hx.
  destruct (check && negb (Z.eqb (Git.returncode r) 0)); simpl;
    exists [(argv, Git.returncode r)]; simpl; now rewrite Hx.
Qed.

Lemma grows_bind {A B} (m : M A) (k : A -> M B) :
  preserves grows m -> (forall a, preserves grows (k a)) -> preserves grows (bind m k).
Proof. apply preserves_bind. exact grows_trans. Qed.

Lemma grows_finally {A} (body : M A) (cleanup : M unit) :
  preserves grows body -> preserves grows cleanup -> preserves grows (finally body cleanup).
Proof. apply preserves_finally. exact grows_trans. Qed.

Lemma grows_ret {A} (a : A) : preserves grows (ret a).
Proof. intros w. apply grows_refl. Qed.

Lemma grows_raise {A} e : preserves grows (@raise A e).
Proof. intros w. apply grows_refl. Qed.

Lemma grows_lift {A} (r : result A) : preserves grows (lift r).
Proof. intros w. apply grows_refl. Qed.

Lemma grows_modify f :
  (forall w, Git.trace (f w) = Git.trace w) -> preserves grows (modify f).
Proof. intros Hf w. apply grows_same, Hf. Qed.

Lemma grows_rand {A} (g : Rand.entropy -> result A * Rand.entropy) :
  preserves grows (rand g).
Proof.
  intros w. unfold rand. destruct (g (Git.entropy w)) as [r e]. now apply grows_same.
Qed.

Lemma preserves_Ok {A} (R : Git.world -> Git.world -> Prop) (m : M A) w r w' :
  preserves R m -> m w = (r, w') -> R w w'.
Proof. intros Hm H. specialize (Hm w). now rewrite H in Hm. Qed.

End TraceFacts.

(** Goals [preserves grows m] and [raises_only P m], by the shape of [m]. *)
Ltac effect_step :=
  first
    [ apply grows_ret | apply grows_raise | apply grows_lift | apply grows_rand
    | apply grows_Shellout_run
    | apply grows_modify; intros; reflexivity
    | apply grows_bind; [| intros ?]
    | apply grows_finally
    | apply raises_only_ret | apply raises_only_modify
    | apply raises_only_raise; exact I
    | apply raises_only_bind; [| intros ?]
    | apply raises_only_if
    | apply raises_only_Shellout_run; intros; exact I
    | apply preserves_if ].

Ltac effect := repeat effect_step.

(** ** checkout_new_contest_branch on a rejecting remote *)

Section BranchNameRuns.

(** Entropy for one branchpoint choice and four tokens. *)
Let tokens : Rand.entropy :=
  [0; 1; 2; 3; 4; 5; 6; 7; 8; 9; 10; 11; 12; 13; 14; 15; 16; 17; 18; 19; 20].

(** C4: on the contest with uid A, with CONTEST_FILE_SUBDIR = CVRs and a
    remote that rejects the first push, checkout_new_contest_branch returns
    the branch A/060708090a: the first attempted name is CVRs/A/0102030405,
    the regenerated name has no CVRs/ in front and is not recognised as a
    contest branch of any uid.  On a remote that rejects three pushes the
    attempted names are CVRs/A/0102030405, A/060708090a and A/0b0c0d0e0f
    and the operation raises RuntimeError, naming a fourth branch that was
    never attempted. *)
Theorem retry_branch_name_lacks_subdir :
  let once := Accept.checkout_new_contest_branch sample_env false mayor "main"
                (sample_world tokens [true]) in
  let thrice := Accept.checkout_new_contest_branch sample_env false mayor "main"
                  (sample_world tokens [true; true; true]) in
  fst once = Ok "A/060708090a"
  /\ attempted (snd once) = ["CVRs/A/0102030405"; "A/060708090a"]
  /\ dict_keys (Git.origin (snd once)) = ["A/060708090a"]
  /\ cvr_uid "CVRs" true "origin/A/060708090a" = None
  /\ fst thrice
     = Raise (RuntimeError "could not create git branch A/1011121314 on the third attempt")
  /\ attempted (snd thrice) = ["CVRs/A/0102030405"; "A/060708090a"; "A/0b0c0d0e0f"].
Proof. cbv zeta. repeat apply conj; vm_compute; reflexivity. Qed.

End BranchNameRuns.

(** ** The order of the pushes and the receipt in accept-ballot *)

Section ShellTrace.

Variable sha : list string -> string -> string -> string.


Lemma grows_merge_contest_branch a branch :
  preserves grows (Merge.merge_contest_branch sha a branch).
Proof. unfold Merge.merge_contest_branch. effect. Qed.

Lemma grows_merge_loop a loop : forall batch,
  preserves grows (Merge.merge_loop sha a loop batch).
Proof.
  induction loop as [| loop IH]; intros batch; cbn [Merge.merge_loop]; effect.
  apply IH.
Qed.

Lemma grows_randomly_merge_contests a uid batch :
  preserves grows (Merge.randomly_merge_contests sha a uid batch).
Proof.
  unfold Merge.randomly_merge_contests. effect; apply grows_merge_loop.
Qed.



End ShellTrace.

Section AcceptTrace.

Variable env : Accept.services.






Lemma grows_attempts p uid bp cur tries : forall branch,
  preserves grows (Accept.attempts env p tries uid bp cur branch).
Proof.
  induction tries as [| tries IH]; intros branch; cbn [Accept.attempts];
    unfold Accept.sh; effect.
  apply IH.
Qed.

Lemma grows_checkout_new_contest_branch p contest ref :
  preserves grows (Accept.checkout_new_contest_branch env p contest ref).
Proof.
  unfold Accept.checkout_new_contest_branch, Accept.get_random_branchpoint, Accept.sh.
  effect.
Qed.










End AcceptTrace.

Section AcceptOrder.


End AcceptOrder.

Section AcceptRuns.



End AcceptRuns.

(** ** What accept-ballot leaves behind when it aborts *)

Abbreviation quietly := (raises_only not_RuntimeError).

Section OtherExceptions.

Lemma quietly_rand_Ok {A} (f : Rand.entropy -> A * Rand.entropy) :
  quietly (rand (fun e => let (t, e') := f e in (Ok t, e'))).
Proof.
  apply raises_only_rand. intros e0 e e1. destruct (f e0). discriminate.
Qed.

Lemma quietly_randrange n : quietly (rand (Rand.randrange n)).
Proof.
  apply raises_only_rand. intros e0 e e1. unfold Rand.randrange.
  destruct (Nat.eqb n 0); [intros [= <- _]; exact I |].
  destruct (Rand.randbelow n e0). discriminate.
Qed.

Lemma quietly_randint a b : quietly (rand (Rand.randint a b)).
Proof.
  apply raises_only_rand. intros e0 e e1. unfold Rand.randint.
  destruct (Nat.ltb b a); [intros [= <- _]; exact I |].
  destruct (Rand.randbelow _ e0). discriminate.
Qed.

Lemma quietly_choice {A} (l : list A) : quietly (rand (Rand.choice l)).
Proof.
  apply raises_only_rand. intros e0 e e1. unfold Rand.choice.
  destruct l; [intros [= <- _]; exact I |].
  destruct (Rand.randbelow _ e0) as [i e2].
  destruct (_ !! i); [discriminate | intros [= <- _]; exact I].
Qed.

Lemma quietly_list_index {A} (l : list A) i : quietly (lift (list_index l i)).
Proof.
  apply raises_only_lift. unfold list_index. intros e.
  destruct (l !! i); [discriminate | intros [= <-]; exact I].
Qed.

Lemma quietly_Shellout_run sha argv p chk :
  quietly (Git.Shellout_run sha argv p chk).
Proof. apply raises_only_Shellout_run. intros rc. exact I. Qed.

End OtherExceptions.

Ltac quiet_step :=
  first
    [ apply quietly_Shellout_run | apply quietly_rand_Ok | apply quietly_randrange
    | apply quietly_randint | apply quietly_choice | apply quietly_list_index
    | apply raises_only_ret | apply raises_only_modify
    | apply raises_only_raise; exact I
    | apply raises_only_bind; [| intros ?]
    | apply raises_only_if ].

Section MergeExceptions.

Variable sha : list string -> string -> string -> string.

Lemma quietly_merge_contest_branch a branch :
  quietly (Merge.merge_contest_branch sha a branch).
Proof. unfold Merge.merge_contest_branch. repeat quiet_step. Qed.

Lemma quietly_merge_loop a loop : forall batch,
  quietly (Merge.merge_loop sha a loop batch).
Proof.
  induction loop as [| loop IH]; intros batch; cbn [Merge.merge_loop];
    repeat first [apply IH | apply quietly_merge_contest_branch | quiet_step].
Qed.

Lemma quietly_randomly_merge_contests a uid batch :
  quietly (Merge.randomly_merge_contests sha a uid batch).
Proof.
  unfold Merge.randomly_merge_contests.
  repeat first [apply quietly_merge_loop | quiet_step].
Qed.

Lemma quietly_run_loop sub a branches : forall batch cur merged,
  quietly (Merge.run_loop sha sub a branches batch cur merged).
Proof.
  induction branches as [| b rest IH]; intros batch cur merged;
    cbn [Merge.run_loop]; [repeat quiet_step |].
  destruct (cvr_uid sub (Merge.remote a) b) as [uid |]; [| repeat quiet_step].
  destruct (decide (cur = Some uid)); [apply IH |].
  repeat first [apply IH | apply quietly_randomly_merge_contests | quiet_step].
Qed.

Lemma quietly_merge_run sub a : quietly (Merge.run sha sub a).
Proof.
  unfold Merge.run.
  repeat first [apply quietly_run_loop | apply quietly_merge_contest_branch | quiet_step].
  match goal with st : (_ * _ * _)%type |- _ => destruct st as [[batch cur] merged] end.
  destruct batch; repeat first [apply quietly_randomly_merge_contests | quiet_step].
Qed.

End MergeExceptions.

Section AcceptExceptions.

Variable env : Accept.services.

Lemma receipt_cell_raises um voters_row row uid digest red e :
  Accept.receipt_cell um voters_row row uid digest red = Raise e -> not_RuntimeError e.
Proof.
  unfold Accept.receipt_cell, list_index.
  destruct (um !! uid) as [pool |]; [| discriminate].
  destruct (Nat.ltb (length pool) row); [discriminate |].
  destruct (pool !! row) as [c |]; cbn [rbind]; [| intros [= <-]; exact I].
  destruct (String.eqb digest _); [| discriminate].
  destruct (Nat.ltb _ _); [discriminate |].
  destruct (pool !! _); cbn [rbind]; [discriminate | intros [= <-]; exact I].
Qed.

Lemma receipt_row_raises um voters_row row items : forall red e,
  Accept.receipt_row um voters_row row items red = Raise e -> not_RuntimeError e.
Proof.
  induction items as [| [uid digest] rest IH]; intros red e; cbn [Accept.receipt_row];
    [discriminate |].
  destruct (Accept.receipt_cell _ _ _ _ _ _) as [c | e1] eqn:Ec; cbn [rbind].
  - destruct (Accept.receipt_row _ _ _ _ _) as [r | e2] eqn:Er; cbn [rbind];
      [discriminate |].
    intros [= <-]. exact (IH _ _ Er).
  - intros [= <-]. exact (receipt_cell_raises _ _ _ _ _ _ _ Ec).
Qed.

Lemma receipt_rows_raises um voters_row crs rows : forall red e,
  Accept.receipt_rows um voters_row crs rows red = Raise e -> not_RuntimeError e.
Proof.
  induction rows as [| row rest IH]; intros red e; cbn [Accept.receipt_rows];
    [discriminate |].
  destruct (Nat.eqb row _).
  - destruct (Accept.receipt_rows _ _ _ rest _) as [r | e2] eqn:Er; cbn [rbind];
      [discriminate |].
    intros [= <-]. exact (IH _ _ Er).
  - destruct (Accept.receipt_row _ _ _ _ _) as [c | e1] eqn:Ec; cbn [rbind].
    + destruct (Accept.receipt_rows _ _ _ rest _) as [r | e2] eqn:Er; cbn [rbind];
        [discriminate |].
      intros [= <-]. exact (IH _ _ Er).
    + intros [= <-]. exact (receipt_row_raises _ _ _ _ _ _ Ec).
Qed.

Lemma contest_get_uid_raises c e :
  Accept.contest_get_uid c = Raise e -> not_RuntimeError e.
Proof.
  unfold Accept.contest_get_uid, dict_index.
  destruct (dict_get _ "uid") as [[] |]; intros [= <-]; exact I.
Qed.

Lemma quietly_create_ballot_receipt crs um :
  quietly (Accept.create_ballot_receipt env crs um).
Proof.
  intros w e w' H. unfold Accept.create_ballot_receipt in H.
  destruct (shuffle_pools_spec env (dict_keys crs) um false w)
    as (um' & w1 & Hs & _).
  unfold bind at 1 in H. rewrite Hs in H. cbn [fst snd orb] in H.
  match type of H with
  | ?m w1 = _ => assert (Hq : quietly m); [| exact (Hq _ _ _ H)]
  end.
  unfold Accept.sh. repeat quiet_step.
  apply raises_only_lift. intros e0. apply receipt_rows_raises.
Qed.

End AcceptExceptions.

Section LocalBranches.

Variable sha : list string -> string -> string -> string.

Lemma dict_mem_set {V} (d : dict V) k v k' :
  dict_mem k' (dict_set d k v) = (dict_mem k' d || String.eqb k k')%bool.
Proof.
  unfold dict_mem. induction d as [| [k0 v0] d IH]; cbn [dict_set dict_get].
  - destruct (String.eqb k k'); reflexivity.
  - destruct (String.eqb k0 k) eqn:E; cbn [dict_get].
    + apply String.eqb_eq in E. subst k0. clear IH.
      destruct (String.eqb k k'); [reflexivity | now rewrite orb_false_r].
    + destruct (String.eqb k0 k'); [reflexivity | exact IH].
Qed.

Lemma dict_mem_app {V} (d1 d2 : dict V) k :
  dict_mem k (d1 ++ d2) = (dict_mem k d1 || dict_mem k d2)%bool.
Proof.
  unfold dict_mem. induction d1 as [| [k0 v0] d1 IH]; cbn [app dict_get].
  - reflexivity.
  - destruct (String.eqb k0 k); [reflexivity | exact IH].
Qed.

Lemma dict_remove_fresh {V} (d : dict V) k :
  dict_mem k d = false -> dict_remove k d = d.
Proof.
  unfold dict_mem, dict_remove. induction d as [| [k0 v0] d IH]; [reflexivity |].
  cbn [dict_get List.filter fst]. destruct (String.eqb k0 k); [discriminate |].
  intros H. cbn [negb]. f_equal. exact (IH H).
Qed.

Lemma dict_remove_last {V} (d : dict V) k v :
  dict_mem k d = false -> dict_remove k (d ++ [(k, v)]) = d.
Proof.
  intros H. unfold dict_remove. rewrite List.filter_app. cbn [List.filter fst].
  rewrite String.eqb_refl. cbn [negb]. rewrite app_nil_r.
  exact (dict_remove_fresh d k H).
Qed.

Lemma keeps_refl w : keeps w w.
Proof. intros b H. exact H. Qed.

Lemma keeps_trans w1 w2 w3 : keeps w1 w2 -> keeps w2 w3 -> keeps w1 w3.
Proof. intros H1 H2 b H. auto. Qed.

Lemma same_local_keeps w w' : same_local w w' -> keeps w w'.
Proof. unfold same_local, keeps. intros ->. auto. Qed.

Lemma same_local_refl w : same_local w w.
Proof. reflexivity. Qed.

Lemma same_local_trans w1 w2 w3 : same_local w1 w2 -> same_local w2 w3 -> same_local w1 w3.
Proof. unfold same_local. congruence. Qed.

Lemma do_push_local b w : Git.local (snd (Git.do_push b w)) = Git.local w.
Proof.
  unfold Git.do_push. destruct (String.eqb b "main"); [reflexivity |].
  destruct (dict_get (Git.local w) b); [| reflexivity].
  destruct (Git.push_rejects w) as [| [] ?]; reflexivity.
Qed.

Lemma do_commit_keeps msg w : keeps w (snd (Git.do_commit sha msg w)).
Proof.
  unfold Git.do_commit.
  destruct (Git.index w), (Git.merge_head w); cbn [snd];
    try apply keeps_refl;
    destruct (String.eqb (Git.HEAD w) "main"); intros b H; cbn;
      try exact H; rewrite dict_mem_set, H; reflexivity.
Qed.

Lemma exec_same_local c w :
  alters_local c = false -> same_local w (snd (Git.exec sha c w)).
Proof.
  unfold same_local. destruct c; try discriminate; intros _; cbn [Git.exec];
    try reflexivity.
  - destruct (String.eqb _ "main"); reflexivity.
  - pose proof (do_push_local branch w). destruct (Git.do_push branch w). assumption.
  - pose proof (do_push_local branch w). destruct (Git.do_push branch w). assumption.
  - destruct (dict_mem _ _); reflexivity.
  - destruct (_ || _); reflexivity.
  - destruct (dict_mem _ _); reflexivity.
  - destruct (Git.resolve _ _); reflexivity.
  - destruct (Git.resolve _ _); reflexivity.
  - destruct (Git.resolve _ _); reflexivity.
  - destruct remote; reflexivity.
  - destruct (Rand.rand_base64 _ _). reflexivity.
Qed.

Lemma exec_keeps c w : deletes c = false -> keeps w (snd (Git.exec sha c w)).
Proof.
  destruct (alters_local c) eqn:Ea;
    [| intros _; apply same_local_keeps, exec_same_local, Ea].
  destruct c; try discriminate; intros _; cbn [Git.exec].
  - destruct (_ || _); [apply keeps_refl |].
    destruct (find _ _); [| apply keeps_refl].
    intros b H. cbn. now rewrite dict_mem_app, H.
  - destruct (dict_get _ _); [| apply keeps_refl].
    pose proof (do_commit_keeps s w). destruct (Git.do_commit sha s w). assumption.
  - pose proof (do_commit_keeps msg w). destruct (Git.do_commit sha msg w). assumption.
Qed.

Lemma same_local_Shellout_run c p chk :
  alters_local c = false -> preserves same_local (Git.Shellout_run sha c p chk).
Proof.
  intros Hc w. unfold Git.Shellout_run. destruct p; [reflexivity |].
  pose proof (exec_same_local c w Hc) as Hx.
  destruct (Git.exec sha c w) as [r w1].
  destruct (chk && _); exact Hx.
Qed.

Lemma keeps_Shellout_run c p chk :
  deletes c = false -> preserves keeps (Git.Shellout_run sha c p chk).
Proof.
  intros Hc w. unfold Git.Shellout_run. destruct p; [apply keeps_refl |].
  pose proof (exec_keeps c w Hc) as Hx.
  destruct (Git.exec sha c w) as [r w1].
  destruct (chk && _); exact Hx.
Qed.

End LocalBranches.

Ltac same_local_step :=
  first
    [ apply same_local_Shellout_run; reflexivity
    | apply (preserves_ret same_local same_local_refl)
    | apply (preserves_raise same_local same_local_refl)
    | apply (preserves_lift same_local same_local_refl)
    | apply (preserves_rand same_local); intros; reflexivity
    | apply (preserves_modify same_local); intros; reflexivity
    | apply (preserves_bind same_local same_local_trans); [| intros ?]
    | apply (preserves_if same_local) ].

Ltac keeps_step :=
  first
    [ apply keeps_Shellout_run; reflexivity
    | apply (preserves_ret keeps keeps_refl)
    | apply (preserves_raise keeps keeps_refl)
    | apply (preserves_lift keeps keeps_refl)
    | apply (preserves_rand keeps); intros ? ? ? Hk; exact Hk
    | apply (preserves_modify keeps); intros ? ? Hk; exact Hk
    | apply (preserves_bind keeps keeps_trans); [| intros ?]
    | apply (preserves_if keeps) ].

Section AbortFacts.

Variable env : Accept.services.

Lemma bind_inv {A B} (m : M A) (k : A -> M B) w r w' :
  bind m k w = (r, w') ->
  exists ra w1, m w = (ra, w1)
    /\ match ra with
       | Ok a => k a w1 = (r, w')
       | Raise e => r = Raise e /\ w' = w1
       end.
Proof.
  unfold bind. destruct (m w) as [[a | e] w1]; intros H; eexists _, _;
    (split; [reflexivity |]); [exact H | now injection H as <- <-].
Qed.

Lemma finally_inv {A} (body : M A) (cleanup : M unit) w r w' :
  finally body cleanup w = (r, w') ->
  exists rb w1 rc, body w = (rb, w1) /\ cleanup w1 = (rc, w')
    /\ r = match rc with Ok _ => rb | Raise e => Raise e end.
Proof.
  unfold finally. destruct (body w) as [[a | e] w1];
    destruct (cleanup w1) as [[u | e'] w2] eqn:Ec; intros [= <- <-];
    eexists _, _, _; (split; [reflexivity |]); (split; [exact Ec | reflexivity]).
Qed.

Lemma not_RuntimeError_match e (P : string -> Prop) :
  not_RuntimeError e -> match e with RuntimeError msg => P msg | _ => True end.
Proof. destruct e; simpl; tauto. Qed.

Lemma outcome_quiet {A} (Q : A -> Prop) (P : Prop) e :
  not_RuntimeError e -> outcome Q P (Raise e).
Proof. destruct e; simpl; tauto. Qed.

Lemma sh_checkout_b b bp w r w1 :
  Git.Shellout_run (Accept.sha env) (Git.git_checkout_b b bp) false false w = (r, w1) ->
  exists c1, r = Ok c1
    /\ ((Git.returncode c1 = 0%Z
         /\ exists c, Git.local w1 = Git.local w ++ [(b, c)]
                      /\ dict_mem b (Git.local w) = false /\ Git.HEAD w1 = b)
        \/ (Git.returncode c1 <> 0%Z /\ Git.local w1 = Git.local w)).
Proof.
  unfold Git.Shellout_run. cbn [Git.exec andb].
  destruct (String.eqb b "main") eqn:Em; cbn [orb].
  - intros [= <- <-]. eexists. split; [reflexivity |]. right. now split.
  - destruct (dict_mem b (Git.local w)) eqn:Ed.
    + intros [= <- <-]. eexists. split; [reflexivity |]. right. now split.
    + destruct (find _ _) as [c |]; intros [= <- <-]; eexists;
        (split; [reflexivity |]); [left | right; now split].
      split; [reflexivity |]. exists c. now repeat split.
Qed.

Lemma sh_push_u b w r w1 :
  Git.Shellout_run (Accept.sha env) (Git.git_push_u b) false false w = (r, w1) ->
  exists c, r = Ok c /\ Git.local w1 = Git.local w.
Proof.
  intros H.
  pose proof (same_local_Shellout_run (Accept.sha env) (Git.git_push_u b) false false
                eq_refl w) as Hs.
  rewrite H in Hs. unfold Git.Shellout_run in H. cbn [andb] in H.
  destruct (Git.exec _ _ w) as [c w0]. injection H as <- _. now exists c.
Qed.

Lemma sh_branch_D b w c w1 :
  Git.Shellout_run (Accept.sha env) (Git.git_branch_D b) false true w = (Ok c, w1) ->
  Git.local w1 = dict_remove b (Git.local w).
Proof.
  intros H. apply Shellout_run_checked in H as (-> & Hrc & ->). cbn in *.
  unfold Git.do_delete in *. destruct (dict_get (Git.local w) b); [| discriminate].
  destruct (String.eqb b (Git.HEAD w)); [discriminate |]. reflexivity.
Qed.

Lemma rand_local {A} (g : Rand.entropy -> result A * Rand.entropy) w r w' :
  rand g w = (r, w') -> Git.local w' = Git.local w.
Proof.
  unfold rand. destruct (g (Git.entropy w)) as [r1 e]. now intros [= _ <-].
Qed.

(** What [attempts] leaves in the local branches: the branch it returns,
    on top of those there were; nothing new when it gives up. *)
Lemma attempts_local uid bp cur tries : forall branch w r w',
  Accept.attempts env false tries uid bp cur branch w = (r, w') ->
  outcome (fun b => exists c, Git.local w' = Git.local w ++ [(b, c)])
          (Git.local w' = Git.local w) r.
Proof.
  unfold outcome.
  induction tries as [| tries IH]; intros branch w r w' H; cbn [Accept.attempts] in H.
  - injection H as <- <-. reflexivity.
  - unfold Accept.sh in H.
    assert (Hretry : forall w2, Git.local w2 = Git.local w ->
              (let* token := rand (fun e => let (t, e') := Rand.token_hex 5 e in (Ok t, e')) in
               Accept.attempts env false tries uid bp cur (uid ++ "/" ++ token))%M w2
              = (r, w') ->
              match r with
              | Ok b => exists c, Git.local w' = Git.local w ++ [(b, c)]
              | Raise e => match e with
                           | RuntimeError _ => Git.local w' = Git.local w
                           | _ => True
                           end
              end).
    { intros w2 Hl Hk. apply bind_inv in Hk as (rt & w3 & Ht & Hk).
      pose proof (rand_local _ _ _ _ Ht) as Hl3.
      destruct rt as [token | e].
      - apply IH in Hk. rewrite Hl3, Hl in Hk. exact Hk.
      - destruct Hk as [-> ->].
        apply (not_RuntimeError_match e (fun _ => Git.local w3 = Git.local w)).
        exact (quietly_rand_Ok _ _ _ _ Ht). }
    apply bind_inv in H as (r1 & w1 & E1 & H).
    apply sh_checkout_b in E1 as (c1 & -> & D).
    apply bind_inv in H as (rp & w2 & E2 & H).
    destruct D as [(Hrc & c & Hl & Hfresh & Hh) | (Hrc & Hl)].
    + rewrite Hrc in E2. change (Z.eqb 0 0) with true in E2. cbv iota in E2.
      apply bind_inv in E2 as (r2 & w3 & E3 & E2).
      apply sh_push_u in E3 as (c2 & -> & Hl3).
      destruct (Z.eqb (Git.returncode c2) 0).
      * injection E2 as <- <-. injection H as <- <-. exists c. congruence.
      * apply bind_inv in E2 as (r3 & w4 & E4 & E2).
        destruct r3 as [c3 | e3].
        2:{ destruct E2 as [-> ->]. destruct H as [-> ->].
            apply (not_RuntimeError_match e3 (fun _ => Git.local w4 = Git.local w)).
            exact (quietly_Shellout_run _ _ _ _ _ _ _ E4). }
        pose proof (preserves_Ok same_local _ _ _ _
                      (same_local_Shellout_run (Accept.sha env) (Git.git_checkout cur)
                         false true eq_refl) E4) as Hl4.
        apply bind_inv in E2 as (r4 & w5 & E5 & E2).
        destruct r4 as [c4 | e4].
        2:{ destruct E2 as [-> ->]. destruct H as [-> ->].
            apply (not_RuntimeError_match e4 (fun _ => Git.local w5 = Git.local w)).
            exact (quietly_Shellout_run _ _ _ _ _ _ _ E5). }
        apply sh_branch_D in E5. injection E2 as <- <-.
        apply (Hretry w5); [| exact H].
        rewrite E5, Hl4, Hl3, Hl. now apply dict_remove_last.
    + apply Z.eqb_neq in Hrc. rewrite Hrc in E2. injection E2 as <- <-.
      now apply (Hretry w1).
Qed.

(** A step that neither touches the local branches nor raises the
    RuntimeError, in front of [k]. *)
Lemma bind_prefix {A B} (m : M A) (k : A -> M B) (Q : B -> Prop) (P : Prop) w r w' :
  preserves same_local m -> quietly m ->
  bind m k w = (r, w') ->
  (forall a w1, Git.local w1 = Git.local w -> k a w1 = (r, w') -> outcome Q P r) ->
  outcome Q P r.
Proof.
  intros Hs Hq H Hk. apply bind_inv in H as (ra & w1 & E & H).
  destruct ra as [a | e].
  - exact (Hk a w1 (preserves_Ok same_local _ _ _ _ Hs E) H).
  - destruct H as [-> ->]. apply outcome_quiet. exact (Hq _ _ _ E).
Qed.

Lemma checkout_new_contest_branch_local contest ref w r w' :
  Accept.checkout_new_contest_branch env false contest ref w = (r, w') ->
  outcome (fun b => exists c, Git.local w' = Git.local w ++ [(b, c)])
          (Git.local w' = Git.local w) r.
Proof.
  unfold Accept.checkout_new_contest_branch, Accept.get_random_branchpoint, Accept.sh.
  intros H.
  eapply bind_prefix; [| | exact H |];
    [repeat same_local_step | repeat quiet_step |]. clear H.
  intros bp w1 Hl1 H.
  eapply bind_prefix; [| | exact H |];
    [repeat same_local_step
    | apply raises_only_lift; intros e; apply contest_get_uid_raises |]. clear H.
  intros uid w2 Hl2 H.
  eapply bind_prefix; [| | exact H |];
    [repeat same_local_step | repeat quiet_step |]. clear H.
  intros token w3 Hl3 H.
  eapply bind_prefix; [| | exact H |];
    [repeat same_local_step | repeat quiet_step |]. clear H.
  intros rp w4 Hl4 H.
  apply attempts_local in H. rewrite Hl4, Hl3, Hl2, Hl1 in H. exact H.
Qed.

Lemma keeps_contest_add_and_commit branch :
  preserves keeps (Accept.contest_add_and_commit env false branch).
Proof. unfold Accept.contest_add_and_commit, Accept.sh. repeat keeps_step. Qed.

Lemma quietly_contest_add_and_commit branch :
  quietly (Accept.contest_add_and_commit env false branch).
Proof. unfold Accept.contest_add_and_commit, Accept.sh. repeat quiet_step. Qed.

(** One contest of the ballot: when it goes through, its branch is among
    the local branches and none was lost; when its branch allocation gives
    up, the local branches are as they were. *)
Lemma submit_contest_local contest branches crs w r w' :
  Accept.submit_contest env false contest branches crs w = (r, w') ->
  outcome (fun st => keeps w w'
                     /\ exists b, fst st = branches ++ [b]
                                  /\ dict_mem b (Git.local w') = true)
          (Git.local w' = Git.local w) r.
Proof.
  unfold Accept.submit_contest, Accept.changed_branch, Accept.sh. intros H.
  eapply bind_prefix; [| | exact H |];
    [repeat same_local_step | repeat quiet_step |]. clear H.
  intros r0 w0 Hl0 H.
  apply finally_inv in H as (rb & w1 & rc & Hb & Hc & ->).
  pose proof (preserves_Ok same_local _ _ _ _
                ltac:(repeat same_local_step) Hc) as Hl1.
  destruct rc as [u | e'].
  2:{ apply outcome_quiet.
      refine ((_ : quietly _) _ _ _ Hc). repeat quiet_step. }
  unfold same_local in Hl1.
  cut (outcome (fun st => keeps w0 w1
                          /\ exists b, fst st = branches ++ [b]
                                       /\ dict_mem b (Git.local w1) = true)
               (Git.local w1 = Git.local w0) rb).
  { unfold outcome, keeps. rewrite Hl1, Hl0. auto. }
  clear Hc Hl1 Hl0 w' u w r0.
  eapply bind_prefix; [| | exact Hb |];
    [repeat same_local_step
    | apply raises_only_lift; intros e; apply contest_get_uid_raises |]. clear Hb.
  intros uid w2 Hl2 H.
  apply bind_inv in H as (rk & w3 & Hk & H).
  apply checkout_new_contest_branch_local in Hk. rewrite Hl2 in Hk.
  destruct rk as [b | e]; [| destruct H as [-> ->]; exact Hk].
  destruct Hk as (c & Hl3).
  assert (K03 : keeps w0 w3).
  { intros b' Hb'. rewrite Hl3, dict_mem_app, Hb'. reflexivity. }
  assert (Hb3 : dict_mem b (Git.local w3) = true).
  { rewrite Hl3, dict_mem_app. unfold dict_mem at 2. cbn [dict_get].
    rewrite String.eqb_refl. apply orb_true_r. }
  match type of H with
  | ?m w3 = _ =>
      assert (Hq : quietly m)
        by (repeat first [apply quietly_contest_add_and_commit | quiet_step];
            destruct (dict_get _ "cloak");
            unfold Accept.get_cloaked_contests, Accept.sh; repeat quiet_step);
      assert (Hp : preserves keeps m)
        by (repeat first [apply keeps_contest_add_and_commit | keeps_step];
            destruct (dict_get _ "cloak");
            unfold Accept.get_cloaked_contests, Accept.sh; repeat keeps_step)
  end.
  pose proof (preserves_Ok keeps _ _ _ _ Hp H) as K31.
  destruct rb as [st | e]; [| apply outcome_quiet; exact (Hq _ _ _ H)].
  cbn [outcome]. split; [exact (keeps_trans _ _ _ K03 K31) |].
  exists b. split; [| exact (K31 _ Hb3)].
  apply bind_Ok in H as (u1 & w4 & _ & H).
  apply bind_Ok in H as (digest & w5 & _ & H).
  destruct (dict_get _ "cloak").
  - apply bind_Ok in H as (u2 & w6 & _ & H). now injection H as <- _.
  - now injection H as <- _.
Qed.

Lemma submit_contests_local contests : forall branches crs w branches' crs' w',
  Accept.submit_contests env false contests branches crs w = (Ok (branches', crs'), w') ->
  keeps w w'
  /\ exists new, branches' = branches ++ new
                 /\ length new = length contests
                 /\ forall b, In b new -> dict_mem b (Git.local w') = true.
Proof.
  induction contests as [| c rest IH]; intros branches crs w branches' crs' w' H;
    cbn [Accept.submit_contests] in H.
  - injection H as <- _ <-. split; [apply keeps_refl |].
    exists []. rewrite app_nil_r. split; [reflexivity |].
    split; [reflexivity | intros b []].
  - apply bind_Ok in H as (st & w1 & H1 & H).
    apply submit_contest_local in H1 as (K1 & b & Hst & Hb). cbn [outcome] in *.
    rewrite Hst in H.
    apply IH in H as (K2 & new & -> & Hlen & Hnew).
    split; [exact (keeps_trans _ _ _ K1 K2) |].
    exists (b :: new). rewrite <- app_assoc. split; [reflexivity |].
    split; [simpl; now rewrite Hlen |].
    intros b' [<- | Hin]; [exact (K2 _ Hb) | exact (Hnew _ Hin)].
Qed.

(** The per-contest loop gives up at the first contest whose branch
    allocation fails, with the local branches the contests before it left. *)
Lemma submit_contests_abort contests : forall branches crs w msg w',
  Accept.submit_contests env false contests branches crs w
  = (Raise (RuntimeError msg), w') ->
  exists done failed rest branches1 crs1 w1,
    contests = done ++ failed :: rest
    /\ Accept.submit_contests env false done branches crs w = (Ok (branches1, crs1), w1)
    /\ Accept.submit_contest env false failed branches1 crs1 w1
       = (Raise (RuntimeError msg), w')
    /\ Git.local w' = Git.local w1.
Proof.
  induction contests as [| c rest IH]; intros branches crs w msg w' H;
    cbn [Accept.submit_contests] in H; [discriminate |].
  apply bind_Raise in H as [H | (st & w1 & H1 & H)].
  - exists [], c, rest, branches, crs, w. repeat split; [exact H |].
    exact (submit_contest_local _ _ _ _ _ _ H).
  - apply IH in H as (done & failed & rest' & branches1 & crs1 & w2 & -> & Hd & Hf & Hl).
    exists (c :: done), failed, rest', branches1, crs1, w2.
    repeat split; [| exact Hf | exact Hl].
    cbn [Accept.submit_contests]. unfold bind. rewrite H1. exact Hd.
Qed.

Lemma quietly_push_branches branches :
  quietly (Accept.push_branches env false branches).
Proof.
  induction branches as [| b rest IH]; cbn [Accept.push_branches]; unfold Accept.sh;
    repeat first [apply IH | quiet_step].
Qed.

Lemma quietly_merge_branches branches :
  quietly (Accept.merge_branches env false branches).
Proof.
  induction branches as [| b rest IH]; cbn [Accept.merge_branches];
    repeat first [apply IH | apply quietly_merge_run | quiet_step].
Qed.

Lemma quietly_get_unmerged_contests : quietly (Accept.get_unmerged_contests env).
Proof.
  unfold Accept.get_unmerged_contests, Accept.sh. repeat quiet_step.
  intros w e w' H. discriminate.
Qed.

End AbortFacts.

Section AcceptAbort.

(** C5, amended: when accept-ballot aborts with the RuntimeError of a
    branch allocation that failed three times, it does so in the
    per-contest loop at some contest of the ballot; the local branches at
    the abort are those the contests before it left, the branch of each of
    those contests among them: nothing is rolled back but the attempts of
    the failing contest. *)
Theorem abort_keeps_earlier_branches env contests merge_contests w msg w' :
  Accept.run env false contests merge_contests w = (Raise (RuntimeError msg), w') ->
  exists done failed rest um w0 branches crs w1,
    contests = done ++ failed :: rest
    /\ Accept.get_unmerged_contests env w = (Ok um, w0)
    /\ Accept.submit_contests env false done [] [] w0 = (Ok (branches, crs), w1)
    /\ length branches = length done
    /\ Git.local w' = Git.local w1
    /\ keeps w0 w'
    /\ forall b, In b branches -> dict_mem b (Git.local w') = true.
Proof.
  unfold Accept.run. intros H.
  apply bind_Raise in H as [H | (um & w0 & Hu & H)];
    [destruct (quietly_get_unmerged_contests env _ _ _ H) |].
  apply bind_Raise in H as [H | (st & w2 & Hs & H)].
  - apply submit_contests_abort in H
      as (done & failed & rest & branches & crs & w1 & -> & Hd & _ & Hl).
    destruct (submit_contests_local env _ _ _ _ _ _ _ Hd) as (K & new & Hnew & Hlen & Hin).
    cbn [app] in Hnew. subst new.
    exists done, failed, rest, um, w0, branches, crs, w1.
    repeat split; try assumption.
    + intros b Hb. rewrite Hl. now apply K.
    + intros b Hb. rewrite Hl. now apply Hin.
  - exfalso.
    match type of H with
    | ?m w2 = _ => assert (Hq : quietly m); [| exact (Hq _ _ _ H)]
    end.
    repeat first [apply quietly_push_branches | apply quietly_merge_branches
                 | apply quietly_create_ballot_receipt | quiet_step].
    match goal with
    | r : (_ * _ * _)%type |- _ => destruct r as [[rows idx] path]
    end.
    repeat quiet_step.
Qed.

End AcceptAbort.

Section AbortRuns.

Lemma abort_keeps_earlier_branches_witness :
  fst aborted_run
  = Raise (RuntimeError "could not create git branch B/0000000000 on the third attempt")
  /\ exists done failed rest um w0 branches crs w1,
       [mayor; clerk] = done ++ failed :: rest
       /\ Accept.get_unmerged_contests sample_env
            (sample_world [] [false; true; true; true]) = (Ok um, w0)
       /\ Accept.submit_contests sample_env false done [] [] w0 = (Ok (branches, crs), w1)
       /\ length branches = length done
       /\ Git.local (snd aborted_run) = Git.local w1
       /\ keeps w0 (snd aborted_run)
       /\ forall b, In b branches -> dict_mem b (Git.local (snd aborted_run)) = true.
Proof.
  apply conj.
  - vm_compute. reflexivity.
  - apply (abort_keeps_earlier_branches sample_env [mayor; clerk] false
             (sample_world [] [false; true; true; true])
             "could not create git branch B/0000000000 on the third attempt"
             (snd aborted_run)).
    vm_compute. reflexivity.
Defined.

(** C5 as stated fails: on a ballot of two contests whose second branch
    allocation is rejected three times, accept-ballot aborts with the
    RuntimeError while the branch created for the first contest, absent
    before the run, is still a local branch; no command deleted it. *)
Lemma abort_leaves_earlier_branch :
  fst aborted_run
  = Raise (RuntimeError "could not create git branch B/0000000000 on the third attempt")
  /\ dict_keys (Git.local (sample_world [] [false; true; true; true])) = []
  /\ dict_keys (Git.local (snd aborted_run)) = ["CVRs/A/0000000000"]
  /\ attempted (snd aborted_run)
     = ["CVRs/A/0000000000"; "CVRs/B/0000000000"; "B/0000000000"; "B/0000000000"]
  /\ existsb (fun ev => match fst ev with
                        | Git.git_branch_D b | Git.git_branch_d b =>
                            String.eqb b "CVRs/A/0000000000"
                        | _ => false
                        end)
             (Git.trace (snd aborted_run)) = false.
Proof. repeat apply conj; vm_compute; reflexivity. Qed.

End AbortRuns.

(** ** Contest: the constructor and the getter *)

Section ContestGet.

Import ContestPy.

Lemma value_eqb_plurality v :
  value_eqb v (VStr "plurality") = true <-> v = VStr "plurality".
Proof.
  destruct v; cbn [value_eqb]; try (split; [discriminate | discriminate]).
  rewrite String.eqb_eq. split; congruence.
Qed.

Lemma dict_get_set_ne {V} (d : dict V) k v k' :
  k <> k' -> dict_get (dict_set d k v) k' = dict_get d k'.
Proof.
  intros Hne. induction d as [| [k0 v0] d IH]; cbn [dict_set dict_get].
  - destruct (String.eqb_spec k k'); [contradiction | reflexivity].
  - destruct (String.eqb_spec k0 k) as [-> | Hk]; cbn [dict_get].
    + destruct (String.eqb_spec k k'); [contradiction | reflexivity].
    + destruct (String.eqb k0 k'); [reflexivity | exact IH].
Qed.

Lemma dict_keys_set {V} (d : dict V) k v :
  dict_keys (dict_set d k v)
  = if dict_mem k d then dict_keys d else dict_keys d ++ [k].
Proof.
  unfold dict_mem. induction d as [| [k0 v0] d IH]; cbn [dict_set dict_get dict_keys map];
    [reflexivity |].
  destruct (String.eqb_spec k0 k) as [-> | Hk]; [reflexivity |].
  cbn [map fst]. fold (dict_keys (dict_set d k v)). rewrite IH.
  destruct (dict_get d k); reflexivity.
Qed.

(** What a successful construction did: the contest is the first entry of
    the blob, all of its keys legitimate, with max defaulted to 1 when it
    was missing and the tally is plurality. *)
Lemma init_Ok blob g idx K :
  init blob g idx = Ok K ->
  exists c rest,
    blob = (name K, c) :: rest
    /\ Forall (fun k => In k _keys) (dict_keys c)
    /\ ggo K = g /\ index K = idx
    /\ ((dict_get c "max" = None /\ dict_get c "tally" = Some (VStr "plurality")
         /\ contest K = dict_set c "max" (VInt 1))
        \/ (contest K = c
            /\ (dict_get c "max" = None ->
                exists t, dict_get c "tally" = Some t /\ t <> VStr "plurality")
            /\ (forall m, dict_get c "max" = Some m -> lt_one m = Ok false))).
Proof.
  unfold init. destruct blob as [| [n c] rest]; [discriminate |].
  rewrite check_syntax_first.
  destruct (check_keys (dict_keys c)) as [[] | e] eqn:Ek; [| discriminate].
  apply check_keys_Ok in Ek. cbn [rbind]. unfold dict_index at 1.
  cbn [dict_get]. rewrite String.eqb_refl. cbn [rbind].
  unfold dict_mem, dict_index.
  destruct (dict_get c "max") as [m |] eqn:Em; cbn [negb rbind].
  - rewrite Em. cbn [rbind].
    destruct (lt_one m) as [[] | e] eqn:El; cbn [rbind]; try discriminate.
    intros [= <-]. exists c, rest. cbn. repeat split; try assumption.
    right. split; [reflexivity |]. split; [intros H; congruence |].
    intros m0 H. congruence.
  - destruct (dict_get c "tally") as [t |] eqn:Et; cbn [rbind]; [| discriminate].
    destruct (value_eqb t (VStr "plurality")) eqn:Ep; cbn [rbind].
    + apply value_eqb_plurality in Ep. subst t.
      rewrite dict_get_set_eq. cbn.
      intros [= <-]. exists c, rest. cbn. repeat split; try assumption.
      left. now repeat split.
    + rewrite Em. cbn [rbind].
      intros [= <-]. exists c, rest. cbn. repeat split; try assumption.
      right. split; [reflexivity |]. split; [| intros m0 H; congruence].
      intros _. exists t. split; [exact Et |].
      intros ->. cbn in Ep. discriminate.
Qed.

Lemma legitimate_key_not_meta k :
  In k _keys ->
  String.eqb k "choices" = false /\ String.eqb k "name" = false
  /\ String.eqb k "ggo" = false /\ String.eqb k "index" = false.
Proof.
  unfold _keys. intros H. repeat (destruct H as [<- | H]; [now vm_compute |]).
  destruct H.
Qed.

Lemma dict_get_In_keys {V} (d : dict V) k v : dict_get d k = Some v -> In k (dict_keys d).
Proof.
  induction d as [| [k0 v0] d IH]; cbn [dict_get dict_keys map fst]; [discriminate |].
  destruct (String.eqb_spec k0 k); [now left | right; now apply IH].
Qed.

Lemma dict_get_not_In_keys {V} (d : dict V) k : ~ In k (dict_keys d) -> dict_get d k = None.
Proof.
  intros H. destruct (dict_get d k) eqn:E; [| reflexivity].
  destruct H. exact (dict_get_In_keys _ _ _ E).
Qed.

Lemma init_keys blob g idx K :
  init blob g idx = Ok K -> Forall (fun k => In k _keys) (dict_keys (contest K)).
Proof.
  intros H. apply init_Ok in H as (c & rest & _ & Hk & _ & _ & [(Hm & _ & ->) | (-> & _)]);
    [| exact Hk].
  rewrite dict_keys_set. unfold dict_mem. rewrite Hm.
  apply Forall_app. split; [exact Hk |]. constructor; [| constructor].
  apply str_in_spec. reflexivity.
Qed.

(** X1: a contest that was constructed gives back, for every key of the
    blob's contest, the value the blob had: no legitimate key is shadowed
    by the meta data (name, ggo, index) or by choices, and the default for
    max overwrites nothing. *)
Theorem get_returns_blob_value blob g idx K c k v :
  init blob g idx = Ok K ->
  dict_get blob (name K) = Some c ->
  dict_get c k = Some v ->
  get K k = Ok v.
Proof.
  intros H Hc Hv. apply init_Ok in H as (c0 & rest & -> & Hk & _ & _ & Hcase).
  cbn [dict_get] in Hc. rewrite String.eqb_refl in Hc. injection Hc as ->.
  pose proof (dict_get_In_keys _ _ _ Hv) as Hin.
  apply (proj1 (List.Forall_forall _ _)) with (x := k) in Hk; [| exact Hin].
  destruct (legitimate_key_not_meta k Hk) as (E1 & E2 & E3 & E4).
  unfold get. rewrite E1, E2, E3, E4. apply dict_index_Ok.
  destruct Hcase as [(Hm & _ & ->) | (-> & _)]; [| exact Hv].
  rewrite dict_get_set_ne; [exact Hv |]. intros <-. congruence.
Qed.

(** X2: the choices of a constructed contest are its candidates when it
    has candidates, else its question; a contest with neither raises
    KeyError for choices. *)
Theorem get_choices blob g idx K :
  init blob g idx = Ok K ->
  get K "choices"
  = match dict_get (contest K) "candidates", dict_get (contest K) "question" with
    | Some v, _ => Ok v
    | None, Some v => Ok v
    | None, None => Raise (KeyError "choices")
    end.
Proof.
  intros H. apply init_keys in H.
  unfold get. cbn [String.eqb Ascii.eqb Bool.eqb]. unfold dict_mem, dict_index.
  destruct (dict_get (contest K) "candidates"); [reflexivity |].
  destruct (dict_get (contest K) "question"); [reflexivity |].
  rewrite dict_get_not_In_keys; [reflexivity |].
  intros Hin. apply (proj1 (List.Forall_forall _ _)) with (x := "choices") in H;
    [| exact Hin].
  apply legitimate_key_not_meta in H as [E _]. discriminate.
Qed.

(** X3: the constructor leaves a contest whose keys are all legitimate,
    the defaulted max included, under the first name of the blob and with
    the ggo and the index it was given. *)
Theorem init_keeps_keys_legitimate blob g idx K :
  init blob g idx = Ok K ->
  Forall (fun k => In k _keys) (dict_keys (contest K))
  /\ hd_error (dict_keys blob) = Some (name K)
  /\ ggo K = g /\ index K = idx.
Proof.
  intros H. split; [exact (init_keys _ _ _ _ H) |].
  apply init_Ok in H as (c & rest & -> & _ & Hg & Hi & _). now repeat split.
Qed.

(** X4: a contest with neither max nor tally cannot be constructed: the
    default for max reads the tally and the constructor raises KeyError
    for tally, whatever else the contest holds. *)
Theorem init_needs_max_or_tally n c rest g idx :
  Forall (fun k => In k _keys) (dict_keys c) ->
  dict_get c "max" = None ->
  dict_get c "tally" = None ->
  init ((n, c) :: rest) g idx = Raise (KeyError "tally").
Proof.
  intros Hk Hm Ht. unfold init. rewrite check_syntax_first.
  apply check_keys_Ok in Hk. rewrite Hk. cbn [rbind].
  unfold dict_index at 1. cbn [dict_get]. rewrite String.eqb_refl. cbn [rbind].
  unfold dict_mem, dict_index. rewrite Hm, Ht. reflexivity.
Qed.

(** X5: constructing again from a constructed contest changes nothing:
    the blob made of its name and its contest gives the same contest, the
    default is not applied twice and the check of max passes again. *)
Theorem init_idempotent blob g idx K :
  init blob g idx = Ok K ->
  init [(name K, contest K)] g idx = Ok K.
Proof.
  intros H. pose proof (init_keys _ _ _ _ H) as Hk.
  apply init_Ok in H as (c & rest & _ & _ & Hg & Hi & Hcase).
  unfold init. rewrite check_syntax_first.
  apply check_keys_Ok in Hk. rewrite Hk. cbn [rbind].
  unfold dict_index at 1. cbn [dict_get]. rewrite String.eqb_refl. cbn [rbind].
  unfold dict_mem, dict_index.
  assert (HK : mkContest (name K) (contest K) g idx = K)
    by (destruct K; cbn in *; congruence).
  destruct Hcase as [(_ & _ & Hc) | (Hc & Ht & Hm)].
  - rewrite Hc, dict_get_set_eq. cbn [negb rbind]. rewrite dict_get_set_eq.
    cbn. rewrite <- Hc. now rewrite HK.
  - rewrite Hc in *. destruct (dict_get c "max") as [m |] eqn:Em; cbn [negb rbind].
    + rewrite Em. cbn [rbind]. rewrite (Hm m eq_refl). cbn [rbind]. now rewrite HK.
    + destruct (Ht eq_refl) as (t & -> & Hne). cbn [rbind].
      destruct (value_eqb t (VStr "plurality")) eqn:Ep;
        [apply value_eqb_plurality in Ep; contradiction |].
      cbn [rbind]. rewrite Em. cbn [rbind]. now rewrite HK.
Qed.

(** X6: the constructor reads the first contest of the blob only: whatever
    follows it, illegitimate keys included, is ignored. *)
Theorem init_reads_first_contest_only n c rest g idx :
  init ((n, c) :: rest) g idx = init [(n, c)] g idx.
Proof.
  unfold init. rewrite !check_syntax_first.
  destruct (check_keys (dict_keys c)); [| reflexivity]. cbn [rbind].
  unfold dict_index. cbn [dict_get]. rewrite String.eqb_refl. reflexivity.
Qed.

End ContestGet.

Section ContestRuns.

Import ContestPy.

Lemma get_returns_blob_value_witness :
  get (mkContest "Bond" [("question", VStr "Borrow?"); ("tally", VStr "plurality");
                         ("max", VInt 1)] "town" 3) "tally"
  = Ok (VStr "plurality").
Proof.
  apply (get_returns_blob_value question_blob "town" 3 _
           [("question", VStr "Borrow?"); ("tally", VStr "plurality")]);
    reflexivity.
Defined.

Lemma get_choices_witness :
  get (mkContest "Bond" [("question", VStr "Borrow?"); ("tally", VStr "plurality");
                         ("max", VInt 1)] "town" 3) "choices"
  = Ok (VStr "Borrow?").
Proof. apply (get_choices question_blob "town" 3). reflexivity. Defined.

Lemma init_keeps_keys_legitimate_witness :
  Forall (fun k => In k _keys) ["candidates"; "tally"]
  /\ hd_error (dict_keys rcv_blob) = Some "Mayor"
  /\ "town" = "town" /\ 0%Z = 0%Z.
Proof.
  apply (init_keeps_keys_legitimate rcv_blob "town" 0
           (mkContest "Mayor" [("candidates", VList ["Ann"; "Bob"]); ("tally", VStr "rcv")]
                      "town" 0)).
  reflexivity.
Defined.

Lemma init_needs_max_or_tally_witness :
  init [("Mayor", [("candidates", VList ["Ann"; "Bob"])])] "town" 0
  = Raise (KeyError "tally").
Proof.
  apply init_needs_max_or_tally; [| reflexivity | reflexivity].
  constructor; [| constructor]. apply str_in_spec. reflexivity.
Defined.

Lemma init_idempotent_witness :
  init [("Bond", [("question", VStr "Borrow?"); ("tally", VStr "plurality");
                  ("max", VInt 1)])] "town" 3
  = Ok (mkContest "Bond" [("question", VStr "Borrow?"); ("tally", VStr "plurality");
                          ("max", VInt 1)] "town" 3).
Proof.
  apply (init_idempotent question_blob "town" 3
           (mkContest "Bond" [("question", VStr "Borrow?"); ("tally", VStr "plurality");
                              ("max", VInt 1)] "town" 3)).
  reflexivity.
Defined.

End ContestRuns.

(** ** merge-contests: one branch *)

(** Reduce the fields of a state built with the setters. *)
Ltac fields :=
  cbn [Git.entropy Git.push_rejects Git.HEAD Git.local Git.origin Git.main
       Git.worktree Git.index Git.merge_head Git.trace Git.warnings
       Git.set_entropy Git.set_push_rejects Git.set_HEAD Git.set_local
       Git.set_origin Git.set_main Git.set_worktree Git.set_index
       Git.set_merge_head Git.set_trace Git.set_warnings Git.warn
       Git.returncode Git.stdout fst snd] in *.

(** Bring a state built with the setters to its fields. *)
Ltac norm H :=
  unfold Git.set_entropy, Git.set_push_rejects, Git.set_HEAD, Git.set_local,
    Git.set_origin, Git.set_main, Git.set_worktree, Git.set_index,
    Git.set_merge_head, Git.set_trace, Git.set_warnings, Git.warn,
    Merge.write_file, Git.stdout_text, Git.stdout_strip in H;
  cbn -[Rand.rand_base64 Git.resolve Git.do_commit Git.do_push Git.do_delete
        dict_set dict_get dict_mem String.eqb join] in H.

Section MergeBranch.

Variable sha : list string -> string -> string -> string.

(** X7: a branch whose tip changes no file (a merge commit or a root
    commit) is skipped: the operation returns normally, logs the error and
    leaves the repository as it was, the branch still pending. *)
Theorem merge_skips_branch_without_files a b w c :
  Git.resolve w b = Some c ->
  Git.changed c = "" ->
  exists w',
    Merge.merge_contest_branch sha a b w = (Ok tt, w')
    /\ repo w' = repo w
    /\ Git.warnings w' = no_files :: Git.warnings w
    /\ Git.trace w' = (Git.git_diff_tree b, 0%Z) :: Git.trace w.
Proof.
  intros Hres Hc. unfold Merge.merge_contest_branch, bind, Git.Shellout_run.
  cbn [Git.exec]. rewrite Hres. cbn. rewrite Hc. cbn.
  eexists. split; [reflexivity |]. now repeat split.
Qed.

(** X8: a branch that does not exist is not merged: [git diff-tree] fails,
    the operation raises CalledProcessError before anything is changed. *)
Theorem merge_unknown_branch_raises a b w :
  Git.resolve w b = None ->
  exists w',
    Merge.merge_contest_branch sha a b w = (Raise (CalledProcessError 128), w')
    /\ repo w' = repo w
    /\ Git.trace w' = (Git.git_diff_tree b, 128%Z) :: Git.trace w.
Proof.
  intros Hres. unfold Merge.merge_contest_branch, bind, Git.Shellout_run.
  cbn [Git.exec]. rewrite Hres. cbn.
  eexists. split; [reflexivity |]. now repeat split.
Qed.

Lemma base64_chars_length n : forall e,
  String.length (fst (Rand.base64_chars n e)) = n.
Proof.
  induction n as [| n IH]; intros e; cbn [Rand.base64_chars]; [reflexivity |].
  destruct (Rand.randbelow 64 e) as [b e1]. specialize (IH e1).
  destruct (Rand.base64_chars n e1) as [t e2]. cbn in *. now rewrite IH.
Qed.




End MergeBranch.

(** ** merge-contests: what it leaves pending, and printonly *)

Section MergeThreshold.

Variable sha : list string -> string -> string -> string.



End MergeThreshold.

Section PrintOnly.

Variable sha : list string -> string -> string -> string.

Lemma same_repo_refl w : same_repo w w.
Proof. reflexivity. Qed.

Lemma same_repo_trans w1 w2 w3 : same_repo w1 w2 -> same_repo w2 w3 -> same_repo w1 w3.
Proof. unfold same_repo. congruence. Qed.

Lemma same_branches_refl w : same_branches w w.
Proof. now repeat split. Qed.

Lemma same_branches_trans w1 w2 w3 :
  same_branches w1 w2 -> same_branches w2 w3 -> same_branches w1 w3.
Proof. unfold same_branches. intros (? & ? & ?) (? & ? & ?). repeat split; congruence. Qed.

Lemma same_repo_branches w w' : same_repo w w' -> same_branches w w'.
Proof. unfold same_repo, same_branches, repo. intros [= _ -> -> ->]. now repeat split. Qed.

Lemma same_repo_printonly c chk : preserves same_repo (Git.Shellout_run sha c true chk).
Proof. intros w. reflexivity. Qed.

Lemma same_repo_quiet c p chk :
  quiet c = true -> preserves same_repo (Git.Shellout_run sha c p chk).
Proof. intros Hq w. exact (Shellout_run_repo sha c p chk w Hq). Qed.

End PrintOnly.

Ltac same_repo_step :=
  first
    [ apply same_repo_printonly
    | apply same_repo_quiet; reflexivity
    | apply (preserves_ret same_repo same_repo_refl)
    | apply (preserves_raise same_repo same_repo_refl)
    | apply (preserves_lift same_repo same_repo_refl)
    | apply (preserves_rand same_repo); intros ? ?; reflexivity
    | apply (preserves_modify same_repo); intros ?; reflexivity
    | apply (preserves_bind same_repo same_repo_trans); [| intros ?]
    | apply (preserves_if same_repo) ].

Section MergePrintOnly.

Variable sha : list string -> string -> string -> string.

Lemma same_repo_merge_contest_branch v k fl rm br b :
  preserves same_repo (Merge.merge_contest_branch sha (Merge.mkArgs v true k fl rm br) b).
Proof.
  unfold Merge.merge_contest_branch. cbn [Merge.printonly Merge.remote].
  repeat same_repo_step.
Qed.

Lemma same_repo_merge_loop v k fl rm br loop : forall batch,
  preserves same_repo (Merge.merge_loop sha (Merge.mkArgs v true k fl rm br) loop batch).
Proof.
  induction loop as [| loop IH]; intros batch; cbn [Merge.merge_loop];
    repeat first [apply IH | apply same_repo_merge_contest_branch | same_repo_step].
Qed.

Lemma same_repo_randomly_merge_contests v k fl rm br uid batch :
  preserves same_repo
    (Merge.randomly_merge_contests sha (Merge.mkArgs v true k fl rm br) uid batch).
Proof.
  unfold Merge.randomly_merge_contests.
  repeat first [apply same_repo_merge_loop | same_repo_step].
Qed.

Lemma same_repo_run_loop sub v k fl rm br branches : forall batch cur merged,
  preserves same_repo
    (Merge.run_loop sha sub (Merge.mkArgs v true k fl rm br) branches batch cur merged).
Proof.
  induction branches as [| b rest IH]; intros batch cur merged;
    cbn [Merge.run_loop]; [repeat same_repo_step |].
  destruct (cvr_uid sub _ b) as [uid |]; [| repeat same_repo_step].
  destruct (decide (cur = Some uid)); [apply IH |].
  repeat first [apply IH | apply same_repo_randomly_merge_contests | same_repo_step].
Qed.

(** X11: with printonly, merge-contests changes nothing in the
    repository: HEAD, the local branches, the remote branches and main are
    what they were, whatever the pending branches, the threshold and the
    flush flag, and whether it returns or raises. *)
Theorem merge_printonly_changes_nothing sub v k fl rm br w :
  repo (snd (Merge.run sha sub (Merge.mkArgs v true k fl rm br) w)) = repo w.
Proof.
  revert w. change (preserves same_repo (Merge.run sha sub (Merge.mkArgs v true k fl rm br))).
  unfold Merge.run. cbn [Merge.printonly Merge.remote Merge.branch].
  repeat first [apply same_repo_run_loop | apply same_repo_merge_contest_branch
               | same_repo_step].
  match goal with st : (_ * _ * _)%type |- _ => destruct st as [[batch cur] merged] end.
  destruct batch;
    repeat first [apply same_repo_randomly_merge_contests | same_repo_step].
Qed.

End MergePrintOnly.

Section MergeBranchRuns.

Lemma merge_skips_branch_without_files_witness :
  exists w',
    Merge.merge_contest_branch sample_sha (merge_args false) "origin/CVRs/A/01"
                               (orphan_world [])
    = (Ok tt, w')
    /\ repo w' = repo (orphan_world [])
    /\ Git.warnings w' = no_files :: Git.warnings (orphan_world [])
    /\ Git.trace w' = (Git.git_diff_tree "origin/CVRs/A/01", 0%Z)
                       :: Git.trace (orphan_world []).
Proof.
  apply (merge_skips_branch_without_files sample_sha (merge_args false)
           "origin/CVRs/A/01" (orphan_world []) root_commit); reflexivity.
Defined.

Lemma merge_unknown_branch_raises_witness :
  exists w',
    Merge.merge_contest_branch sample_sha (merge_args false) "origin/CVRs/A/09"
                               (pending_world [])
    = (Raise (CalledProcessError 128), w')
    /\ repo w' = repo (pending_world [])
    /\ Git.trace w' = (Git.git_diff_tree "origin/CVRs/A/09", 128%Z)
                       :: Git.trace (pending_world []).
Proof.
  apply (merge_unknown_branch_raises sample_sha (merge_args false)
           "origin/CVRs/A/09" (pending_world [])); reflexivity.
Defined.



End MergeBranchRuns.

(** ** accept-ballot: the allocation of a contest branch *)

Ltac norms H := repeat progress (norm H).

(** The branches attempted in a state given by its fields. *)
Ltac att :=
  unfold attempted; cbn [Git.trace rev]; rewrite ?flat_map_app;
  cbn [flat_map fst app]; rewrite ?app_nil_r, <- ?app_assoc; reflexivity.

Section BranchAllocation.

Variable env : Accept.services.

Lemma attempts_S tries uid bp cur branch w :
  Accept.attempts env false (S tries) uid bp cur branch w
  = bind (attempt_once env bp cur branch)
         (fun pushed : bool =>
            if pushed then ret branch
            else
              (let* token := rand (fun e => let (t, e') := Rand.token_hex 5 e in (Ok t, e')) in
               Accept.attempts env false tries uid bp cur (uid ++ "/" ++ token))%M) w.
Proof.
  cbn [Accept.attempts]. unfold attempt_once, bind.
  destruct (Accept.sh env (Git.git_checkout_b branch bp) false false w) as [[c1 | e1] w1];
    [| reflexivity].
  destruct (Z.eqb (Git.returncode c1) 0); [| reflexivity].
  destruct (Accept.sh env (Git.git_push_u branch) false false w1) as [[c2 | e2] w2];
    [| reflexivity].
  destruct (Z.eqb (Git.returncode c2) 0); [reflexivity |].
  destruct (Accept.sh env (Git.git_checkout cur) false true w2) as [[c3 | e3] w3];
    [| reflexivity].
  destruct (Accept.sh env (Git.git_branch_D branch) false true w3) as [[c4 | e4] w4];
    reflexivity.
Qed.

Lemma dict_get_app_fresh {V} (d : dict V) k v :
  dict_mem k d = false -> dict_get (d ++ [(k, v)]) k = Some v.
Proof.
  unfold dict_mem. induction d as [| [k0 v0] d IH]; cbn [app dict_get].
  - now rewrite String.eqb_refl.
  - destruct (String.eqb k0 k); [discriminate | exact IH].
Qed.

Lemma attempted_cons c rc w t :
  Git.trace w = (c, rc) :: t ->
  attempted w = flat_map (fun ev => match fst ev with
                                    | Git.git_checkout_b branch _ => [branch]
                                    | _ => []
                                    end) (rev t)
                ++ match c with Git.git_checkout_b branch _ => [branch] | _ => [] end.
Proof.
  unfold attempted. intros ->. cbn [rev]. rewrite flat_map_app. cbn. now rewrite app_nil_r.
Qed.

(** One round: the branch is created on both sides at a commit of main,
    or both sides are as they were. *)
Lemma attempt_once_spec bp cur branch w r w1 :
  attempt_once env bp cur branch w = (r, w1) ->
  attempted w1 = attempted w ++ [branch]
  /\ Git.main w1 = Git.main w
  /\ match r with
     | Ok true =>
         exists c, In c (Git.main w) /\ Git.digest c = bp
                   /\ Git.local w1 = Git.local w ++ [(branch, c)]
                   /\ Git.origin w1 = dict_set (Git.origin w) branch c
                   /\ Git.HEAD w1 = branch
                   /\ dict_mem branch (Git.local w) = false /\ branch <> "main"
     | Ok false => Git.local w1 = Git.local w /\ Git.origin w1 = Git.origin w
     | Raise e => not_RuntimeError e
     end.
Proof.
  intros H. destruct w as [e p hd l o m wt idx mh tr wn].
  unfold attempt_once, Accept.sh, bind, Git.Shellout_run in H. norms H.
  cbn [Git.main Git.local Git.origin].
  destruct (String.eqb branch "main" || dict_mem branch l) eqn:Eb; norms H.
  { injection H as <- <-. split; [att |]. now repeat split. }
  apply orb_false_elim in Eb as [Em Ed]. apply String.eqb_neq in Em as Hne.
  destruct (find (fun c => String.eqb (Git.digest c) bp) m) as [c |] eqn:Ef; norms H.
  2:{ injection H as <- <-. split; [att |]. now repeat split. }
  apply find_some in Ef as [Hin Hd]. apply String.eqb_eq in Hd.
  unfold Git.do_push in H. norms H. rewrite Em in H.
  rewrite (dict_get_app_fresh l branch c Ed) in H.
  destruct p as [| [] p]; norms H.
  - injection H as <- <-. split; [att |]. split; [reflexivity |].
    exists c. now repeat split.
  - destruct (String.eqb cur "main" || dict_mem cur (l ++ [(branch, c)])); norms H.
    2:{ injection H as <- <-. split; [att |]. split; [reflexivity | exact I]. }
    unfold Git.do_delete in H. norms H.
    rewrite (dict_get_app_fresh l branch c Ed) in H.
    destruct (String.eqb branch cur); norms H.
    { injection H as <- <-. split; [att |]. split; [reflexivity | exact I]. }
    injection H as <- <-. split; [att |]. split; [reflexivity |].
    cbn [Git.local Git.origin]. split; [| reflexivity].
    exact (dict_remove_last l branch c Ed).
  - injection H as <- <-. split; [att |]. split; [reflexivity |].
    exists c. now repeat split.
Qed.

Lemma rand_fields {A} (g : Rand.entropy -> result A * Rand.entropy) w r w' :
  rand g w = (r, w') ->
  exists e', g (Git.entropy w) = (r, e') /\ w' = Git.set_entropy e' w.
Proof.
  unfold rand. destruct (g (Git.entropy w)) as [r1 e1]. intros [= <- <-]. now exists e1.
Qed.

Lemma token_hex_is_token e : is_token (fst (Rand.token_hex 5 e)).
Proof. exact (token_hex_shape 5 e). Qed.

(** The loop: the names it attempts, and where it leaves the branches. *)
Lemma attempts_spec uid bp cur tries : forall branch w r w',
  Accept.attempts env false tries uid bp cur branch w = (r, w') ->
  exists names,
    attempted w' = attempted w ++ names
    /\ length names <= tries
    /\ Git.main w' = Git.main w
    /\ (forall i n, names !! i = Some n ->
          (i = 0 /\ n = branch) \/ (0 < i /\ exists tok, is_token tok /\ n = (uid ++ "/" ++ tok)%string))
    /\ match r with
       | Ok b =>
           last names = Some b
           /\ exists c, In c (Git.main w) /\ Git.digest c = bp
                 /\ Git.local w' = Git.local w ++ [(b, c)]
                 /\ Git.origin w' = dict_set (Git.origin w) b c
                 /\ Git.HEAD w' = b
                 /\ dict_mem b (Git.local w) = false /\ b <> "main"
       | Raise e =>
           match e with
           | RuntimeError _ =>
               length names = tries
               /\ Git.local w' = Git.local w /\ Git.origin w' = Git.origin w
           | _ => True
           end
       end.
Proof.
  induction tries as [| tries IH]; intros branch w r w' H.
  { cbn [Accept.attempts] in H. injection H as <- <-. exists []. rewrite app_nil_r.
    repeat split; try reflexivity. intros i n Hn. discriminate. }
  rewrite attempts_S in H. apply bind_inv in H as (rp & w1 & H1 & H).
  apply attempt_once_spec in H1 as (Ha1 & Hm1 & Hp).
  destruct rp as [[] | e].
  - injection H as <- <-. exists [branch]. split; [exact Ha1 |].
    split; [cbn; lia |]. split; [exact Hm1 |]. split.
    + intros [| i] n Hn; [left; split; [reflexivity | now injection Hn] | discriminate].
    + split; [reflexivity | exact Hp].
  - destruct Hp as (Hl1 & Ho1).
    apply bind_inv in H as (rt & w2 & Ht & H).
    apply rand_fields in Ht as (e' & Hg & ->).
    destruct (Rand.token_hex 5 (Git.entropy w1)) as [tok e2] eqn:Etok.
    injection Hg as <- <-.
    pose proof (token_hex_is_token (Git.entropy w1)) as Htok. rewrite Etok in Htok.
    cbn [fst] in Htok.
    apply IH in H as (names & Ha & Hlen & Hm & Hshape & Hr).
    change (attempted (Git.set_entropy e2 w1)) with (attempted w1) in Ha.
    cbn [Git.set_entropy Git.main Git.local Git.origin] in Hm, Hr.
    exists (branch :: names). split; [rewrite Ha, Ha1, <- app_assoc; reflexivity |].
    split; [cbn; lia |]. split; [congruence |]. split.
    + intros [| i] n Hn; [left; split; [reflexivity | now injection Hn] |].
      right. split; [lia |]. cbn in Hn.
      destruct (Hshape i n Hn) as [(-> & ->) | (_ & Hex)]; [now exists tok | exact Hex].
    + destruct r as [b | []]; try exact I.
      * destruct Hr as (Hlast & c & Hin & Hd & Hl & Ho & Hh & Hf & Hne).
        split; [destruct names; [discriminate | exact Hlast] |].
        exists c. rewrite Hm1 in Hin. rewrite Hl1 in Hl, Hf. rewrite Ho1 in Ho.
        now repeat split.
      * destruct Hr as (Hlen' & Hl & Ho). cbn. split; [lia |]. split; congruence.
  - destruct H as [-> ->]. exists [branch]. split; [exact Ha1 |].
    split; [cbn; lia |]. split; [exact Hm1 |]. split.
    + intros [| i] n Hn; [left; split; [reflexivity | now injection Hn] | discriminate].
    + destruct e; try exact I. destruct Hp.
Qed.

Lemma calm_refl w : calm w w.
Proof. now split. Qed.

Lemma calm_trans w1 w2 w3 : calm w1 w2 -> calm w2 w3 -> calm w1 w3.
Proof. unfold calm. intros [? ?] [? ?]. split; congruence. Qed.

Lemma calm_Shellout_run sha c p chk :
  quiet c = true -> preserves calm (Git.Shellout_run sha c p chk).
Proof.
  intros Hq w. split; [exact (Shellout_run_repo sha c p chk w Hq) |].
  unfold Git.Shellout_run. destruct p; [reflexivity |].
  pose proof (exec_trace sha c w) as Ht. destruct (Git.exec sha c w) as [r w1].
  cbn [snd] in Ht.
  assert (Ha : forall rc, attempted (Git.set_trace ((c, rc) :: Git.trace w1) w1) = attempted w).
  { intros rc.
    rewrite (attempted_cons c rc (Git.set_trace ((c, rc) :: Git.trace w1) w1)
               (Git.trace w1) eq_refl), Ht.
    destruct c; try discriminate; apply app_nil_r. }
  destruct (chk && _); apply Ha.
Qed.

Lemma calm_rand {A} (g : Rand.entropy -> result A * Rand.entropy) : preserves calm (rand g).
Proof. apply preserves_rand. intros e w. now split. Qed.

Lemma calm_get_random_branchpoint ref :
  preserves calm (Accept.get_random_branchpoint env ref).
Proof.
  unfold Accept.get_random_branchpoint, Accept.sh.
  apply (preserves_bind calm calm_trans); [now apply calm_Shellout_run |].
  intros r. apply calm_rand.
Qed.

(** What [checkout_new_contest_branch] attempts and leaves. *)
Lemma checkout_spec contest ref w r w' :
  Accept.checkout_new_contest_branch env false contest ref w = (r, w') ->
  exists names,
    attempted w' = attempted w ++ names
    /\ length names <= 3
    /\ Git.main w' = Git.main w
    /\ (forall i n, names !! i = Some n ->
          exists uid tok,
            Accept.contest_get_uid contest = Ok uid /\ is_token tok
            /\ n = (if Nat.eqb i 0
                    then Accept.CONTEST_FILE_SUBDIR env ++ "/" ++ uid ++ "/" ++ tok
                    else uid ++ "/" ++ tok)%string)
    /\ match r with
       | Ok b =>
           last names = Some b
           /\ exists c, In c (Git.main w)
                 /\ Git.local w' = Git.local w ++ [(b, c)]
                 /\ Git.origin w' = dict_set (Git.origin w) b c
                 /\ Git.HEAD w' = b
                 /\ dict_mem b (Git.local w) = false /\ b <> "main"
       | Raise e =>
           match e with
           | RuntimeError _ =>
               length names = 3
               /\ Git.local w' = Git.local w /\ Git.origin w' = Git.origin w
           | _ => True
           end
       end.
Proof.
  unfold Accept.checkout_new_contest_branch. intros H.
  assert (Hquiet : forall (e : exn) w1, not_RuntimeError e -> calm w w1 ->
            exists names : list string,
              attempted w1 = attempted w ++ names /\ length names <= 3
              /\ Git.main w1 = Git.main w
              /\ (forall i n, names !! i = Some n ->
                    exists uid tok,
                      Accept.contest_get_uid contest = Ok uid /\ is_token tok
                      /\ n = (if Nat.eqb i 0
                              then Accept.CONTEST_FILE_SUBDIR env ++ "/" ++ uid ++ "/" ++ tok
                              else uid ++ "/" ++ tok)%string)
              /\ match e with
                 | RuntimeError _ =>
                     length names = 3
                     /\ Git.local w1 = Git.local w /\ Git.origin w1 = Git.origin w
                 | _ => True
                 end).
  { intros e w1 He [Hr Ha]. exists []. rewrite app_nil_r. injection Hr as _ Hl Ho Hm.
    split; [exact Ha |]. split; [cbn; lia |]. split; [exact Hm |].
    split; [intros i n Hn; discriminate |]. destruct e; try exact I. destruct He. }
  apply bind_inv in H as (rbp & w1 & H1 & H).
  pose proof (preserves_Ok calm _ _ _ _ (calm_get_random_branchpoint ref) H1) as C1.
  destruct rbp as [bp | e].
  2:{ destruct H as [-> ->]. apply Hquiet; [| exact C1].
      refine ((_ : quietly _) _ _ _ H1).
      unfold Accept.get_random_branchpoint, Accept.sh. repeat quiet_step. }
  apply bind_inv in H as (ru & w2 & H2 & H). injection H2 as H2 <-.
  destruct ru as [uid | e].
  2:{ destruct H as [-> ->]. apply Hquiet; [| exact C1].
      exact (contest_get_uid_raises _ _ H2). }
  apply bind_inv in H as (rt & w3 & H3 & H).
  apply rand_fields in H3 as (e3 & Hg & ->).
  destruct (Rand.token_hex 5 (Git.entropy w1)) as [tok e4] eqn:Etok.
  injection Hg as <- <-.
  pose proof (token_hex_is_token (Git.entropy w1)) as Htok. rewrite Etok in Htok.
  cbn [fst] in Htok.
  assert (C3 : calm w (Git.set_entropy e4 w1))
    by (apply (calm_trans _ w1); [exact C1 | now split]).
  apply bind_inv in H as (rr & w4 & H4 & H). unfold Accept.sh in H4.
  pose proof (preserves_Ok calm _ _ _ _
                (calm_Shellout_run _ Git.git_rev_parse_HEAD false true eq_refl) H4) as C4.
  pose proof (calm_trans _ _ _ C3 C4) as C34.
  pose proof C34 as [Hrepo Hatt].
  injection Hrepo as _ Hl Ho Hm.
  destruct rr as [c4 | e].
  2:{ destruct H as [-> ->]. apply Hquiet; [| exact C34].
      exact (quietly_Shellout_run _ _ _ _ _ _ _ H4). }
  apply attempts_spec in H as (names & Ha & Hlen & Hmain & Hshape & Hr).
  exists names. split; [now rewrite Ha, Hatt |]. split; [exact Hlen |].
  split; [now rewrite Hmain |]. split.
  - intros i n Hn. destruct (Hshape i n Hn) as [(-> & ->) | (Hi & tok' & Htok' & ->)].
    + exists uid, tok. split; [exact H2 | split; [exact Htok | reflexivity]].
    + exists uid, tok'. destruct i; [lia |].
      split; [exact H2 | split; [exact Htok' | reflexivity]].
  - destruct r as [b | e].
    + destruct Hr as (Hlast & c & Hin & _ & Hl' & Ho' & Hh & Hf & Hne).
      split; [exact Hlast |]. exists c. rewrite Hm in Hin. rewrite Hl in Hl', Hf.
      rewrite Ho in Ho'. now repeat split.
    + destruct e; try exact I.
      destruct Hr as (Hlen' & Hl' & Ho'). split; [exact Hlen' |]. split; congruence.
Qed.


(** X13: the names [checkout_new_contest_branch] tries, in order: the
    first is CONTEST_FILE_SUBDIR/uid/token, every later one is uid/token,
    each token ten hex digits; nothing else is ever given to
    [git checkout -b]. *)
Theorem checkout_attempted_names contest ref w r w' :
  Accept.checkout_new_contest_branch env false contest ref w = (r, w') ->
  exists names,
    attempted w' = attempted w ++ names
    /\ forall i n, names !! i = Some n ->
         exists uid tok,
           Accept.contest_get_uid contest = Ok uid /\ is_token tok
           /\ n = (if Nat.eqb i 0
                   then Accept.CONTEST_FILE_SUBDIR env ++ "/" ++ uid ++ "/" ++ tok
                   else uid ++ "/" ++ tok)%string.
Proof.
  intros H. apply checkout_spec in H as (names & Ha & _ & _ & Hshape & _).
  now exists names.
Qed.

(** X14: [checkout_new_contest_branch] runs [git checkout -b] at most
    three times.  The branch it returns is the last one it tried; it raises
    RuntimeError only after three tries, and then the local and the remote
    branches are what they were. *)
Theorem checkout_tries_three_times contest ref w r w' :
  Accept.checkout_new_contest_branch env false contest ref w = (r, w') ->
  exists names,
    attempted w' = attempted w ++ names
    /\ length names <= 3
    /\ (forall b, r = Ok b -> last names = Some b)
    /\ (forall msg, r = Raise (RuntimeError msg) ->
          length names = 3
          /\ Git.local w' = Git.local w /\ Git.origin w' = Git.origin w
          /\ Git.main w' = Git.main w).
Proof.
  intros H. apply checkout_spec in H as (names & Ha & Hlen & Hm & _ & Hr).
  exists names. split; [exact Ha |]. split; [exact Hlen |]. split.
  - intros b ->. exact (proj1 Hr).
  - intros msg ->. destruct Hr as (? & ? & ?). now repeat split.
Qed.

End BranchAllocation.

Section BranchAllocationRuns.


Lemma checkout_attempted_names_witness :
  exists names,
    attempted (snd (Accept.checkout_new_contest_branch sample_env false mayor "main"
                      (sample_world [] [true])))
    = attempted (sample_world [] [true]) ++ names
    /\ forall i n, names !! i = Some n ->
         exists uid tok,
           Accept.contest_get_uid mayor = Ok uid /\ is_token tok
           /\ n = (if Nat.eqb i 0
                   then Accept.CONTEST_FILE_SUBDIR sample_env ++ "/" ++ uid ++ "/" ++ tok
                   else uid ++ "/" ++ tok)%string.
Proof.
  apply (checkout_attempted_names sample_env mayor "main" (sample_world [] [true])
           (fst (Accept.checkout_new_contest_branch sample_env false mayor "main"
                   (sample_world [] [true])))
           (snd (Accept.checkout_new_contest_branch sample_env false mayor "main"
                   (sample_world [] [true])))).
  vm_compute. reflexivity.
Defined.

Lemma checkout_tries_three_times_witness :
  exists names,
    attempted (snd (Accept.checkout_new_contest_branch sample_env false mayor "main"
                      (sample_world [] [true; true; true])))
    = attempted (sample_world [] [true; true; true]) ++ names
    /\ length names <= 3
    /\ (forall b,
          fst (Accept.checkout_new_contest_branch sample_env false mayor "main"
                 (sample_world [] [true; true; true])) = Ok b ->
          last names = Some b)
    /\ (forall msg,
          fst (Accept.checkout_new_contest_branch sample_env false mayor "main"
                 (sample_world [] [true; true; true])) = Raise (RuntimeError msg) ->
          length names = 3
          /\ Git.local (snd (Accept.checkout_new_contest_branch sample_env false mayor "main"
                               (sample_world [] [true; true; true])))
             = Git.local (sample_world [] [true; true; true])
          /\ Git.origin (snd (Accept.checkout_new_contest_branch sample_env false mayor "main"
                                (sample_world [] [true; true; true])))
             = Git.origin (sample_world [] [true; true; true])
          /\ Git.main (snd (Accept.checkout_new_contest_branch sample_env false mayor "main"
                              (sample_world [] [true; true; true])))
             = Git.main (sample_world [] [true; true; true])).
Proof.
  apply (checkout_tries_three_times sample_env mayor "main"
           (sample_world [] [true; true; true])
           (fst (Accept.checkout_new_contest_branch sample_env false mayor "main"
                   (sample_world [] [true; true; true])))
           (snd (Accept.checkout_new_contest_branch sample_env false mayor "main"
                   (sample_world [] [true; true; true])))).
  vm_compute. reflexivity.
Defined.

End BranchAllocationRuns.

(** ** accept-ballot: the branchpoint, the commit and the pools *)


Section AcceptSteps.

Variable env : Accept.services.





End AcceptSteps.

(** ** accept-ballot with printonly *)

Section AcceptPrintOnlyFacts.

Variable sha : list string -> string -> string -> string.

Lemma same_branches_of_repo {A} (m : M A) :
  preserves same_repo m -> preserves same_branches m.
Proof. intros H w. apply same_repo_branches, H. Qed.

Lemma same_branches_checkout b p chk :
  preserves same_branches (Git.Shellout_run sha (Git.git_checkout b) p chk).
Proof.
  intros w. unfold Git.Shellout_run. destruct p; [apply same_branches_refl |].
  cbn [Git.exec]. destruct (String.eqb b "main" || dict_mem b (Git.local w));
    cbn [Git.returncode]; destruct (chk && _); now repeat split.
Qed.

(** merge-contests with printonly, as a step of another operation. *)
Lemma same_repo_merge_run_printonly sub v k fl rm br :
  preserves same_repo (Merge.run sha sub (Merge.mkArgs v true k fl rm br)).
Proof.
  unfold Merge.run. cbn [Merge.printonly Merge.remote Merge.branch].
  repeat first [apply same_repo_run_loop | apply same_repo_merge_contest_branch
               | same_repo_step].
  match goal with st : (_ * _ * _)%type |- _ => destruct st as [[batch cur] merged] end.
  destruct batch;
    repeat first [apply same_repo_randomly_merge_contests | same_repo_step].
Qed.

End AcceptPrintOnlyFacts.

Ltac same_branches_step :=
  first
    [ apply same_branches_of_repo; apply same_repo_printonly
    | apply same_branches_of_repo; apply same_repo_quiet; reflexivity
    | apply same_branches_checkout
    | apply (preserves_ret same_branches same_branches_refl)
    | apply (preserves_raise same_branches same_branches_refl)
    | apply (preserves_lift same_branches same_branches_refl)
    | apply (preserves_rand same_branches); intros ? ?;
      solve [unfold same_branches; repeat split; reflexivity]
    | apply (preserves_modify same_branches); intros ?;
      solve [unfold same_branches; repeat split; reflexivity]
    | apply (preserves_bind same_branches same_branches_trans); [| intros ?]
    | apply (preserves_finally same_branches same_branches_trans)
    | apply (preserves_if same_branches) ].

Section AcceptPrintOnly.

Variable env : Accept.services.

Lemma same_branches_attempts uid bp cur tries : forall branch,
  preserves same_branches (Accept.attempts env true tries uid bp cur branch).
Proof.
  induction tries as [| tries IH]; intros branch; cbn [Accept.attempts]; unfold Accept.sh;
    repeat first [apply IH | same_branches_step].
Qed.

Lemma same_branches_submit_contest contest branches crs :
  preserves same_branches (Accept.submit_contest env true contest branches crs).
Proof.
  unfold Accept.submit_contest, Accept.changed_branch,
    Accept.checkout_new_contest_branch, Accept.get_random_branchpoint,
    Accept.contest_add_and_commit, Accept.sh.
  repeat first [apply same_branches_attempts | same_branches_step].
  destruct (dict_get _ "cloak"); unfold Accept.get_cloaked_contests, Accept.sh;
    repeat same_branches_step.
Qed.

Lemma same_branches_submit_contests contests : forall branches crs,
  preserves same_branches (Accept.submit_contests env true contests branches crs).
Proof.
  induction contests as [| c rest IH]; intros branches crs; cbn [Accept.submit_contests];
    repeat first [apply IH | apply same_branches_submit_contest | same_branches_step].
Qed.

Lemma same_branches_push_branches branches :
  preserves same_branches (Accept.push_branches env true branches).
Proof.
  induction branches as [| b rest IH]; cbn [Accept.push_branches]; unfold Accept.sh;
    repeat first [apply IH | same_branches_step].
Qed.

Lemma same_branches_merge_branches branches :
  preserves same_branches (Accept.merge_branches env true branches).
Proof.
  induction branches as [| b rest IH]; cbn [Accept.merge_branches];
    repeat first [apply IH
                 | apply same_branches_of_repo; apply same_repo_merge_run_printonly
                 | same_branches_step].
Qed.

Lemma same_branches_create_ballot_receipt crs um :
  preserves same_branches (Accept.create_ballot_receipt env crs um).
Proof.
  intros w. unfold Accept.create_ballot_receipt.
  destruct (shuffle_pools_spec env (dict_keys crs) um false w)
    as (um' & w1 & Hs & _ & _ & Hl & Ho & Hm).
  unfold bind at 1. rewrite Hs. cbn [fst snd orb].
  apply (same_branches_trans _ w1); [now repeat split |].
  revert w1 Hs Hl Ho Hm. intros w1 _ _ _ _. revert w1.
  match goal with
  | |- forall w1, same_branches w1 (snd (?m w1)) => change (preserves same_branches m)
  end.
  unfold Accept.sh. repeat same_branches_step.
Qed.

(** X19: with printonly, accept-ballot creates, moves, deletes and pushes
    no branch and commits nothing: the local branches, the remote branches
    and main are what they were, whatever the ballot and whether the
    operation returns or raises. *)
Theorem accept_printonly_changes_no_branch contests merge_contests w :
  Git.local (snd (Accept.run env true contests merge_contests w)) = Git.local w
  /\ Git.origin (snd (Accept.run env true contests merge_contests w)) = Git.origin w
  /\ Git.main (snd (Accept.run env true contests merge_contests w)) = Git.main w.
Proof.
  revert w.
  change (preserves same_branches (Accept.run env true contests merge_contests)).
  unfold Accept.run, Accept.get_unmerged_contests, Accept.sh.
  repeat first [apply same_branches_submit_contests | apply same_branches_push_branches
               | apply same_branches_merge_branches
               | apply same_branches_create_ballot_receipt | same_branches_step].
  all: try match goal with r : (_ * _ * _)%type |- _ => destruct r as [[rows idx] path] end.
  all: repeat same_branches_step.
Qed.

End AcceptPrintOnly.

Section AcceptStepRuns.





End AcceptStepRuns.

(** ** accept-ballot against a remote that accepts every push *)


Section Settled.

Variable sha : list string -> string -> string -> string.








End Settled.


Section SubmitContest.

Variable env : Accept.services.









End SubmitContest.

Section PushAll.

Variable env : Accept.services.






End PushAll.

Section AcceptEndToEnd.

Variable env : Accept.services.



End AcceptEndToEnd.

Section AcceptEndToEndRuns.


End AcceptEndToEndRuns.

(** * Properties of the mock election drivers *)

Section ShellTrace.

Import Shell.

Variable W : Type.
Variable exec : list word -> W -> Z * W.

#[local] Abbreviation M := (Shell.M W).
#[local] Abbreviation run_list := (run_list W exec).
#[local] Abbreviation after := (after W exec).

Lemma bind_ext {A B} (m m' : M A) (k k' : A -> M B) s :
  m s = m' s -> (forall a s1, k a s1 = k' a s1) ->
  bind m k s = bind m' k' s.
Proof.
  intros Hm Hk. unfold bind. rewrite Hm.
  destruct (m' s) as [[a|e] s1]; [apply Hk | reflexivity].
Qed.

Lemma bind_assoc {A B C} (m : M A) (k : A -> M B) (h : B -> M C) s :
  bind (bind m k) h s = bind m (fun a => bind (k a) h) s.
Proof.
  unfold bind. destruct (m s) as [[a|e] s1]; reflexivity.
Qed.

Lemma bind_ret_unit (m : M unit) s : bind m (fun _ => ret tt) s = m s.
Proof.
  unfold bind, ret. destruct (m s) as [[[]|e] s1]; reflexivity.
Qed.

Lemma for_each_ext {A} (l : list A) (body body' : A -> M unit) :
  (forall x s, body x s = body' x s) ->
  forall s, for_each l body s = for_each l body' s.
Proof.
  intros Hb. induction l as [|x l IH]; intros s; cbn; [reflexivity|].
  apply bind_ext; [apply Hb | intros _ s1; apply IH].
Qed.

Lemma for_each_app {A} (body : A -> M unit) (l1 l2 : list A) s :
  for_each (l1 ++ l2) body s
  = bind (for_each l1 body) (fun _ => for_each l2 body) s.
Proof.
  revert s. induction l1 as [|x l1 IH]; intros s; [reflexivity|].
  cbn [app for_each].
  rewrite (bind_assoc (body x) (fun _ => for_each l1 body)
                      (fun _ => for_each l2 body)).
  apply bind_ext; [reflexivity | intros _ s1; apply IH].
Qed.

Lemma run_list_app po ck (c1 c2 : list (list word)) s :
  run_list po ck (c1 ++ c2) s
  = bind (run_list po ck c1) (fun _ => run_list po ck c2) s.
Proof. apply for_each_app. Qed.

Lemma run_list_flat_map {A} po ck (f : A -> list (list word)) (l : list A) s :
  for_each l (fun x => run_list po ck (f x)) s = run_list po ck (flat_map f l) s.
Proof.
  revert s. induction l as [|x l IH]; intros s; [reflexivity|].
  cbn [for_each flat_map]. rewrite run_list_app.
  apply bind_ext; [reflexivity | intros _ s1; apply IH].
Qed.

Lemma run_list_single po ck c s :
  bind (Shellout_run W exec c po ck) (fun _ => ret tt) s = run_list po ck [c] s.
Proof.
  unfold run_list. cbn [for_each]. symmetry. apply bind_ret_unit.
Qed.

Lemma run_list_nil po ck s : ret tt s = run_list po ck [] s.
Proof. reflexivity. Qed.

(** A print-only list of commands runs nothing. *)
Lemma run_list_printonly ck cmds s : run_list true ck cmds s = (Ok tt, s).
Proof.
  induction cmds as [|c cmds IH]; [reflexivity|].
  unfold run_list in *. cbn [for_each]. unfold bind at 1.
  unfold bind at 1. unfold Shellout_run, ret. exact IH.
Qed.

(** Without [check] every command runs, whatever the return codes. *)
Lemma run_list_nocheck cmds s r s' :
  run_list false false cmds s = (r, s') ->
  r = Ok tt
  /\ machine s' = after cmds (machine s)
  /\ exists new, trace s' = new ++ trace s /\ rev (map fst new) = cmds.
Proof.
  revert s. induction cmds as [|c cmds IH]; intros s E.
  - inversion E; subst. repeat split. exists []. split; reflexivity.
  - unfold run_list in *. cbn [for_each] in E.
    unfold bind at 1 in E. unfold bind at 1 in E. unfold Shellout_run in E.
    destruct (exec c (machine s)) as [rc w1] eqn:Ex. cbn in E.
    apply IH in E. destruct E as (-> & Em & new & Et & Ec). cbn in Em, Et.
    split; [reflexivity|]. split.
    + rewrite Em. cbn. rewrite Ex. reflexivity.
    + exists (new ++ [(c, rc)]). split.
      * rewrite Et, <- app_assoc. reflexivity.
      * rewrite map_app, rev_app_distr. cbn. rewrite Ec. reflexivity.
Qed.

(** With [check] the list stops at the first command that fails. *)
Lemma run_list_check cmds s r s' :
  run_list false true cmds s = (r, s') ->
  exists new, trace s' = new ++ trace s
    /\ machine s' = after (rev (map fst new)) (machine s)
    /\ match r with
       | Ok _ => rev (map fst new) = cmds /\ Forall passed new
       | Raise e =>
           exists argv rc rest todo,
             e = CalledProcessError rc /\ rc <> 0%Z
             /\ new = (argv, rc) :: rest /\ Forall passed rest
             /\ cmds = rev (map fst rest) ++ argv :: todo
       end.
Proof.
  revert s. induction cmds as [|c cmds IH]; intros s E.
  - inversion E; subst. exists []. repeat split. constructor.
  - unfold run_list in *. cbn [for_each] in E.
    unfold bind at 1 in E. unfold bind at 1 in E. unfold Shellout_run in E.
    destruct (exec c (machine s)) as [rc w1] eqn:Ex. cbn [andb] in E.
    destruct (Z.eqb rc 0) eqn:Erc; cbn [negb] in E.
    + apply Z.eqb_eq in Erc. subst rc. unfold ret at 1 in E.
      apply IH in E. destruct E as (new & Et & Em & Hr). cbn in Et, Em.
      exists (new ++ [(c, 0%Z)]). split; [rewrite Et, <- app_assoc; reflexivity|].
      split.
      { rewrite Em, map_app, rev_app_distr. cbn. rewrite Ex. reflexivity. }
      destruct r as [[]|e].
      * destruct Hr as [Hc Hp]. split.
        -- rewrite map_app, rev_app_distr. cbn. rewrite Hc. reflexivity.
        -- apply Forall_app. split; [exact Hp|]. constructor; [reflexivity|constructor].
      * destruct Hr as (argv & rc & rest & todo & -> & Hn & -> & Hp & ->).
        exists argv, rc, (rest ++ [(c, 0%Z)]), todo.
        split; [reflexivity|]. split; [exact Hn|]. split; [reflexivity|].
        split.
        -- apply Forall_app. split; [exact Hp|]. constructor; [reflexivity|constructor].
        -- rewrite map_app, rev_app_distr. reflexivity.
    + apply Z.eqb_neq in Erc. inversion E; subst. cbn.
      exists [(c, rc)]. split; [reflexivity|]. split.
      { cbn. rewrite Ex. reflexivity. }
      exists c, rc, [], cmds. repeat split; [exact Erc | constructor].
Qed.

End ShellTrace.

Section ScannerMockup.

Import Shell RunMockElection.

Variable W : Type.
Variable exec : list word -> W -> Z * W.
Variable ARGS : args.
Variable sc : scripts.

#[local] Abbreviation scanner_mockup := (scanner_mockup W exec ARGS sc).
#[local] Abbreviation blank_ballots := (blank_ballots sc).
#[local] Abbreviation run_checked := (run_list W exec (printonly ARGS) true).

Lemma run_as_list argv s :
  run W exec ARGS argv s = run_checked [argv] s.
Proof. unfold run. apply run_list_single. Qed.

Lemma cast_one_as_list count blank s :
  cast_one W exec ARGS sc count blank s
  = run_checked (ballot_cmds ARGS sc count blank) s.
Proof.
  unfold cast_one, ballot_cmds.
  change ([git_pull; cast_cmd ARGS sc blank; accept_cmd ARGS sc blank] ++ ?t)
    with ([git_pull] ++ [cast_cmd ARGS sc blank] ++ [accept_cmd ARGS sc blank] ++ t).
  rewrite run_list_app.
  apply bind_ext; [apply run_as_list | intros _ s1].
  rewrite run_list_app.
  apply bind_ext; [apply run_as_list | intros _ s2].
  rewrite run_list_app.
  apply bind_ext; [apply run_as_list | intros _ s3].
  destruct (String.eqb (device ARGS) "both"); [|reflexivity].
  rewrite run_list_app.
  apply bind_ext.
  - destruct (Z.eqb (flush_mode ARGS) 2); apply run_as_list.
  - intros _ s4. destruct (Nat.eqb (count mod 10) 9); [apply run_as_list | reflexivity].
Qed.

(** With a blank ballot to cast, the scanner is its list of commands run
    in order, each checked. *)
Lemma scanner_as_list ballot s :
  blank_ballots ballot <> [] ->
  scanner_mockup ballot s = run_checked (scanner_cmds ARGS sc (blank_ballots ballot)) s.
Proof.
  intros Hne. unfold RunMockElection.scanner_mockup, scanner_cmds.
  destruct (blank_ballots ballot) as [|b0 rest] eqn:Eb; [congruence|].
  rewrite run_list_app.
  apply bind_ext.
  - rewrite <- run_list_flat_map. apply for_each_ext. intros count s1.
    rewrite <- run_list_flat_map. apply for_each_ext. intros blank s2.
    apply cast_one_as_list.
  - intros _ s1. rewrite run_list_app. apply bind_ext.
    + destruct (String.eqb (device ARGS) "both"); [|reflexivity].
      change [merge_flush_cmd ARGS sc; tally_cmd ARGS sc]
        with ([merge_flush_cmd ARGS sc] ++ [tally_cmd ARGS sc]).
      rewrite run_list_app.
      apply bind_ext; [apply run_as_list | intros _ s2; apply run_as_list].
    + intros _ s2. apply run_as_list.
Qed.

Lemma scanner_no_ballots ballot s :
  blank_ballots ballot = [] ->
  scanner_mockup ballot s = (Raise (ValueError "found no blank ballots to cast"), s).
Proof.
  intros Hb. unfold RunMockElection.scanner_mockup. rewrite Hb. reflexivity.
Qed.

Lemma device_not_both : device ARGS <> "both" -> String.eqb (device ARGS) "both" = false.
Proof. intros H. apply String.eqb_neq. exact H. Qed.

Lemma scanner_cmds_scanner ballots :
  device ARGS <> "both" ->
  scanner_cmds ARGS sc ballots
  = flat_map (fun _ => flat_map (cast_and_accept ARGS sc) ballots)
             (seq 0 (Z.to_nat (iterations ARGS)))
    ++ [git_gc].
Proof.
  intros Hd. unfold scanner_cmds, ballot_cmds.
  rewrite (device_not_both Hd). cbn [app]. reflexivity.
Qed.

(** X21: the scanner stops at the first command that fails: every command
    it ran before returned 0, the failing one is the newest of the log and
    its return code is what [CalledProcessError] carries.  [ValueError] is
    raised exactly when there is no blank ballot, before any command. *)
Theorem scanner_stops_at_first_failure ballot s r s' :
  scanner_mockup ballot s = (r, s') ->
  exists new, trace s' = new ++ trace s
    /\ machine s' = after W exec (rev (map fst new)) (machine s)
    /\ match r with
       | Ok _ => blank_ballots ballot <> [] /\ Forall passed new
       | Raise (CalledProcessError rc) =>
           blank_ballots ballot <> [] /\ rc <> 0%Z
           /\ exists argv rest, new = (argv, rc) :: rest /\ Forall passed rest
       | Raise (ValueError _) => blank_ballots ballot = [] /\ s' = s
       | Raise _ => False
       end.
Proof.
  intros E. destruct (blank_ballots ballot) as [|b0 bs] eqn:Eb.
  - rewrite (scanner_no_ballots _ _ Eb) in E. inversion E; subst.
    exists []. repeat split.
  - assert (Hne : blank_ballots ballot <> []) by (rewrite Eb; discriminate).
    rewrite (scanner_as_list _ _ Hne) in E.
    destruct (printonly ARGS) eqn:Ep.
    + rewrite run_list_printonly in E. inversion E; subst.
      exists []. repeat split; [discriminate | constructor].
    + apply run_list_check in E. destruct E as (new & Et & Em & Hr).
      exists new. split; [exact Et|]. split; [exact Em|].
      destruct r as [[]|e].
      * split; [discriminate | apply Hr].
      * destruct Hr as (argv & rc & rest & todo & -> & Hrc & -> & Hp & _).
        split; [discriminate|]. split; [exact Hrc|].
        exists argv, rest. split; [reflexivity | exact Hp].
Qed.

(** X22: a print-only scanner runs no command at all: the machine and the
    log are as they were, and the only error left is the one for no blank
    ballot. *)
Theorem scanner_printonly_runs_nothing ballot s :
  printonly ARGS = true ->
  snd (scanner_mockup ballot s) = s
  /\ (fst (scanner_mockup ballot s) = Ok tt <-> blank_ballots ballot <> []).
Proof.
  intros Ep. destruct (blank_ballots ballot) as [|b0 bs] eqn:Eb.
  - rewrite (scanner_no_ballots _ _ Eb). cbn. split; [reflexivity|].
    split; [discriminate | congruence].
  - assert (Hne : blank_ballots ballot <> []) by (rewrite Eb; discriminate).
    rewrite (scanner_as_list _ _ Hne), Ep, run_list_printonly. cbn.
    split; [reflexivity|]. split; [discriminate | reflexivity].
Qed.

Lemma run_list_check_In cmds s r s' :
  run_list W exec false true cmds s = (r, s') ->
  exists new, trace s' = new ++ trace s
              /\ forall argv rc, In (argv, rc) new -> In argv cmds.
Proof.
  intros E. apply run_list_check in E. destruct E as (new & Et & _ & Hr).
  exists new. split; [exact Et|]. intros argv rc Hin.
  assert (Hm : In argv (rev (map fst new))).
  { apply in_rev. rewrite rev_involutive.
    apply (in_map fst) in Hin. exact Hin. }
  destruct r as [[]|e].
  - destruct Hr as [<- _]. exact Hm.
  - destruct Hr as (a0 & rc0 & rest & todo & _ & _ & -> & _ & ->).
    cbn in Hm. apply in_app_or in Hm. apply in_or_app.
    destruct Hm as [Hm | [<- | []]]; [left; exact Hm | right; left; reflexivity].
Qed.

(** X23: a device that is not "both" never merges and never tallies:
    whatever the outcome, every command it ran is git gc or one of the
    three commands that cast and accept one of its blank ballots. *)
Theorem scanner_never_merges ballot s r s' :
  device ARGS <> "both" ->
  scanner_mockup ballot s = (r, s') ->
  exists new, trace s' = new ++ trace s
    /\ forall argv rc, In (argv, rc) new ->
         argv = git_gc
         \/ exists b, In b (blank_ballots ballot)
                      /\ In argv (cast_and_accept ARGS sc b).
Proof.
  intros Hd E. destruct (blank_ballots ballot) as [|b0 bs] eqn:Eb.
  - rewrite (scanner_no_ballots _ _ Eb) in E. inversion E; subst.
    exists []. split; [reflexivity | intros ? ? []].
  - assert (Hne : blank_ballots ballot <> []) by (rewrite Eb; discriminate).
    rewrite (scanner_as_list _ _ Hne) in E.
    destruct (printonly ARGS) eqn:Ep.
    + rewrite run_list_printonly in E. inversion E; subst.
      exists []. split; [reflexivity | intros ? ? []].
    + apply run_list_check_In in E. destruct E as (new & Et & Hin).
      exists new. split; [exact Et|]. intros argv rc Ha.
      apply Hin in Ha. rewrite (scanner_cmds_scanner _ Hd) in Ha.
      apply in_app_or in Ha. destruct Ha as [Ha | [<- | []]]; [|left; reflexivity].
      right. apply in_flat_map in Ha. destruct Ha as (count & _ & Ha).
      apply in_flat_map in Ha. destruct Ha as (b & Hb & Ha).
      exists b. rewrite <- Eb. split; assumption.
Qed.

(** X24: a successful run of a device that is not "both" pulls, casts and
    accepts every blank ballot once per iteration, in the order of the
    ballots, and ends with one git gc; nothing else is run. *)
Theorem scanner_casts_every_ballot ballot s s' :
  device ARGS <> "both" ->
  printonly ARGS = false ->
  scanner_mockup ballot s = (Ok tt, s') ->
  exists new, trace s' = new ++ trace s
    /\ Forall passed new
    /\ rev (map fst new)
       = flat_map (fun _ => flat_map (cast_and_accept ARGS sc) (blank_ballots ballot))
                  (seq 0 (Z.to_nat (iterations ARGS)))
         ++ [git_gc].
Proof.
  intros Hd Ep E. destruct (blank_ballots ballot) as [|b0 bs] eqn:Eb.
  - rewrite (scanner_no_ballots _ _ Eb) in E. discriminate.
  - assert (Hne : blank_ballots ballot <> []) by (rewrite Eb; discriminate).
    rewrite (scanner_as_list _ _ Hne), Ep in E.
    apply run_list_check in E. destruct E as (new & Et & _ & Hc & Hp).
    exists new. split; [exact Et|]. split; [exact Hp|].
    rewrite Hc, Eb. apply scanner_cmds_scanner. exact Hd.
Qed.

(** X25: a successful run of the device "both" ends by flushing the
    remaining contests, tallying and collecting garbage, whatever the
    flush mode: the three newest commands of the log are merge -f, tally
    and git gc. *)
Theorem both_flushes_and_tallies_at_exit ballot s s' :
  device ARGS = "both" ->
  printonly ARGS = false ->
  scanner_mockup ballot s = (Ok tt, s') ->
  exists older,
    trace s' = (git_gc, 0%Z) :: (tally_cmd ARGS sc, 0%Z)
               :: (merge_flush_cmd ARGS sc, 0%Z) :: older ++ trace s.
Proof.
  intros Hd Ep E. destruct (blank_ballots ballot) as [|b0 bs] eqn:Eb.
  - rewrite (scanner_no_ballots _ _ Eb) in E. discriminate.
  - assert (Hne : blank_ballots ballot <> []) by (rewrite Eb; discriminate).
    rewrite (scanner_as_list _ _ Hne), Ep in E.
    apply run_list_check in E. destruct E as (new & Et & _ & Hc & Hp).
    unfold scanner_cmds in Hc. rewrite Hd in Hc. cbn [String.eqb Ascii.eqb Bool.eqb] in Hc.
    set (loop := flat_map _ _) in Hc.
    assert (Hn : map fst new = [git_gc; tally_cmd ARGS sc; merge_flush_cmd ARGS sc]
                               ++ rev loop).
    { rewrite <- (rev_involutive (map fst new)), Hc.
      rewrite rev_app_distr. reflexivity. }
    destruct new as [|[a1 r1] [|[a2 r2] [|[a3 r3] older]]]; try discriminate.
    cbn in Hn. injection Hn as -> -> -> _.
    inversion Hp as [|? ? H1 Hp1]; subst. inversion Hp1 as [|? ? H2 Hp2]; subst.
    inversion Hp2 as [|? ? H3 _]; subst. cbn in H1, H2, H3. subst.
    exists older. rewrite Et. reflexivity.
Qed.

End ScannerMockup.

Section ScannerMockupRuns.

Import Shell RunMockElection.

Lemma scanner_stops_at_first_failure_witness :
  exists new,
    trace (snd (scanner_mockup nat refusing scanner_args sample_scripts None fresh))
    = new ++ trace fresh
    /\ machine (snd (scanner_mockup nat refusing scanner_args sample_scripts None
                       fresh))
       = after nat refusing (rev (map fst new)) (machine fresh)
    /\ (blank_ballots sample_scripts None <> [] /\ 1%Z <> 0%Z
        /\ exists argv rest, new = (argv, 1%Z) :: rest /\ Forall passed rest).
Proof.
  apply (scanner_stops_at_first_failure nat refusing scanner_args sample_scripts
           None fresh (Raise (CalledProcessError 1))
           (snd (scanner_mockup nat refusing scanner_args sample_scripts None fresh))).
  vm_compute. reflexivity.
Defined.

Lemma scanner_printonly_runs_nothing_witness :
  snd (scanner_mockup nat refusing dry_args sample_scripts None fresh) = fresh
  /\ (fst (scanner_mockup nat refusing dry_args sample_scripts None fresh) = Ok tt
      <-> blank_ballots sample_scripts None <> []).
Proof.
  apply (scanner_printonly_runs_nothing nat refusing dry_args sample_scripts
           None fresh).
  reflexivity.
Defined.

Lemma scanner_never_merges_witness :
  exists new,
    trace (snd (scanner_mockup nat refusing scanner_args sample_scripts None fresh))
    = new ++ trace fresh
    /\ forall argv rc, In (argv, rc) new ->
         argv = git_gc
         \/ exists b, In b (blank_ballots sample_scripts None)
                      /\ In argv (cast_and_accept scanner_args sample_scripts b).
Proof.
  apply (scanner_never_merges nat refusing scanner_args sample_scripts None fresh
           (fst (scanner_mockup nat refusing scanner_args sample_scripts None fresh))
           (snd (scanner_mockup nat refusing scanner_args sample_scripts None fresh))).
  - discriminate.
  - vm_compute. reflexivity.
Defined.

Lemma scanner_casts_every_ballot_witness :
  exists new,
    trace (snd (scanner_mockup nat obliging scanner_args sample_scripts None fresh))
    = new ++ trace fresh
    /\ Forall passed new
    /\ rev (map fst new)
       = flat_map (fun _ => flat_map (cast_and_accept scanner_args sample_scripts)
                                     (blank_ballots sample_scripts None))
                  (seq 0 (Z.to_nat (iterations scanner_args)))
         ++ [git_gc].
Proof.
  apply (scanner_casts_every_ballot nat obliging scanner_args sample_scripts None
           fresh
           (snd (scanner_mockup nat obliging scanner_args sample_scripts None fresh))).
  - discriminate.
  - reflexivity.
  - vm_compute. reflexivity.
Defined.

Lemma both_flushes_and_tallies_at_exit_witness :
  exists older,
    trace (snd (scanner_mockup nat obliging both_args sample_scripts None fresh))
    = (git_gc, 0%Z) :: (tally_cmd both_args sample_scripts, 0%Z)
      :: (merge_flush_cmd both_args sample_scripts, 0%Z) :: older ++ trace fresh.
Proof.
  apply (both_flushes_and_tallies_at_exit nat obliging both_args sample_scripts
           None fresh
           (snd (scanner_mockup nat obliging both_args sample_scripts None fresh))).
  - reflexivity.
  - reflexivity.
  - vm_compute. reflexivity.
Defined.

End ScannerMockupRuns.

Section ParseArguments.

Import Shell RunMockElection.

(** X26: [parse_arguments] hands the namespace back unchanged exactly when
    the verbosity is one of 0..4, the device is scanner, server or both
    and the flush mode is one of 0..2.  A verbosity out of range is a
    [KeyError] whatever the rest; the two other faults are [ValueError]s. *)
Theorem parse_arguments_validates (a : args) :
  match parse_arguments a with
  | Ok a' =>
      a' = a /\ (0 <= verbosity a <= 4)%Z
      /\ In (device a) ["scanner"; "server"; "both"]
      /\ (0 <= flush_mode a <= 2)%Z
  | Raise (KeyError _) => ~ (0 <= verbosity a <= 4)%Z
  | Raise (ValueError _) =>
      (0 <= verbosity a <= 4)%Z
      /\ (~ In (device a) ["scanner"; "server"; "both"]
          \/ ~ (0 <= flush_mode a <= 2)%Z)
  | Raise _ => False
  end.
Proof.
  unfold parse_arguments.
  destruct (existsb (Z.eqb (verbosity a)) [0; 1; 2; 3; 4]%Z) eqn:Ev; cbn [negb].
  - assert (Hv : (0 <= verbosity a <= 4)%Z).
    { cbn in Ev. repeat (apply orb_prop in Ev; destruct Ev as [Ev|Ev]);
        try discriminate; apply Z.eqb_eq in Ev; lia. }
    destruct (str_in (device a) ["scanner"; "server"; "both"]) eqn:Ed; cbn [negb].
    + assert (Hd : In (device a) ["scanner"; "server"; "both"]).
      { unfold str_in in Ed. apply existsb_exists in Ed.
        destruct Ed as (x & Hx & Ex). apply String.eqb_eq in Ex. subst. exact Hx. }
      destruct (existsb (Z.eqb (flush_mode a)) [0; 1; 2]%Z) eqn:Ef; cbn [negb].
      * repeat split; try apply Hv; try exact Hd;
          cbn in Ef; repeat (apply orb_prop in Ef; destruct Ef as [Ef|Ef]);
          try discriminate; apply Z.eqb_eq in Ef; lia.
      * split; [exact Hv|]. right. intros Hf.
        cbn in Ef. repeat (apply orb_false_elim in Ef; destruct Ef as [? Ef]).
        repeat match goal with H : Z.eqb _ _ = false |- _ => apply Z.eqb_neq in H end.
        lia.
    + split; [exact Hv|]. left. intros Hd.
      assert (str_in (device a) ["scanner"; "server"; "both"] = true); [|congruence].
      unfold str_in. apply existsb_exists. exists (device a).
      split; [exact Hd | apply String.eqb_refl].
  - intros Hv. cbn in Ev.
    repeat (apply orb_false_elim in Ev; destruct Ev as [? Ev]).
    repeat match goal with H : Z.eqb _ _ = false |- _ => apply Z.eqb_neq in H end.
    lia.
Qed.

End ParseArguments.

Section BinMain.

Import Shell BinRunMockElection.

Variable W : Type.
Variable exec : list word -> W -> Z * W.
Variable iterations : Z.
Variable printonly : bool.
Variable walk : list (string * list string).

#[local] Abbreviation run_loose := (run_list W exec printonly false).

Lemma bin_run_as_list argv s :
  run W exec printonly argv s = run_loose [argv] s.
Proof. unfold run. apply run_list_single. Qed.

Lemma bin_cast_one_as_list blank s :
  cast_one W exec printonly blank s = run_loose (bin_ballot_cmds blank) s.
Proof.
  unfold cast_one, bin_ballot_cmds.
  match goal with
  | |- _ = run_loose [?a; ?b; ?c] s =>
      change [a; b; c] with ([a] ++ [b] ++ [c])
  end.
  rewrite run_list_app.
  apply bind_ext; [apply bin_run_as_list | intros _ s1].
  rewrite run_list_app.
  apply bind_ext; [apply bin_run_as_list | intros _ s2].
  apply bin_run_as_list.
Qed.

Lemma bin_main_as_list s :
  main W exec iterations printonly walk s
  = run_loose (flat_map (fun _ => flat_map bin_ballot_cmds (find_blank_ballots walk))
                        (seq 0 (Z.to_nat iterations))
               ++ [[Str "./merge_ballot.py"; Str "-f"]; [Str "./tally_ballot.py"]]) s.
Proof.
  unfold main. rewrite run_list_app. apply bind_ext.
  - rewrite <- run_list_flat_map. apply for_each_ext. intros count s1.
    rewrite <- run_list_flat_map. apply for_each_ext. intros blank s2.
    apply bin_cast_one_as_list.
  - intros _ s1.
    match goal with
    | |- _ = run_loose [?a; ?b] s1 => change [a; b] with ([a] ++ [b])
    end.
    rewrite run_list_app.
    apply bind_ext; [apply bin_run_as_list | intros _ s2; apply bin_run_as_list].
Qed.

(** X27: bin/run_mock_election.py never checks a return code: it always
    returns, and unless it is print-only it has run, in order, the three
    commands of every blank ballot once per iteration, then merge -f and
    the tally, whatever failed on the way and even with no blank ballot.
    Print-only, it runs nothing. *)
Theorem bin_main_runs_every_command s :
  fst (main W exec iterations printonly walk s) = Ok tt
  /\ exists new,
       trace (snd (main W exec iterations printonly walk s)) = new ++ trace s
       /\ rev (map fst new)
          = if printonly then []
            else flat_map (fun _ => flat_map bin_ballot_cmds (find_blank_ballots walk))
                          (seq 0 (Z.to_nat iterations))
                 ++ [[Str "./merge_ballot.py"; Str "-f"]; [Str "./tally_ballot.py"]].
Proof.
  rewrite bin_main_as_list. destruct printonly.
  - rewrite run_list_printonly. cbn. split; [reflexivity|].
    exists []. split; reflexivity.
  - match goal with
    | |- context [run_list W exec false false ?c s] =>
        destruct (run_list W exec false false c s) as [r s'] eqn:E
    end.
    apply run_list_nocheck in E. destruct E as (-> & _ & new & Et & Ec).
    cbn [fst snd]. split; [reflexivity|]. exists new. split; assumption.
Qed.

End BinMain.

Section BlankBallots.

Import Shell.

Lemma substring_all s : substring 0 (String.length s) s = s.
Proof. induction s as [|c s IH]; cbn; [reflexivity | rewrite IH; reflexivity]. Qed.

Lemma substring_skip pre n s :
  substring (String.length pre) n (pre ++ s) = substring 0 n s.
Proof. induction pre as [|c pre IH]; cbn; [reflexivity | exact IH]. Qed.

Lemma substring_split s : forall k,
  k <= String.length s ->
  (substring 0 k s ++ substring k (String.length s - k) s)%string = s.
Proof.
  induction s as [|c s IH]; intros k Hk.
  - cbn in Hk. assert (k = 0) by lia. subst. reflexivity.
  - destruct k as [|k].
    + cbn [substring]. cbn [String.append]. rewrite Nat.sub_0_r.
      apply (substring_all (String c s)).
    + cbn in Hk. change (String c (substring 0 k s ++ substring k (String.length s - k) s)
                         = String c s).
      f_equal. apply IH. lia.
Qed.

Lemma string_app_length (a b : string) :
  String.length (a ++ b) = String.length a + String.length b.
Proof.
  induction a as [|c a IH]; [reflexivity|].
  change (S (String.length (a ++ b)) = S (String.length a + String.length b)).
  f_equal. exact IH.
Qed.

(** [s.endswith(suffix)] holds exactly of the strings that are something
    followed by the suffix. *)
Lemma endswith_spec suffix s :
  endswith suffix s = true <-> exists pre, s = (pre ++ suffix)%string.
Proof.
  unfold endswith. split.
  - intros H. apply andb_prop in H. destruct H as [Hl He].
    apply Nat.leb_le in Hl. apply String.eqb_eq in He.
    exists (substring 0 (String.length s - String.length suffix) s).
    pose proof (substring_split s (String.length s - String.length suffix)) as Hs.
    replace (String.length s - (String.length s - String.length suffix))
      with (String.length suffix) in Hs by lia.
    rewrite He in Hs. symmetry. apply Hs. lia.
  - intros [pre ->]. rewrite string_app_length. apply andb_true_intro. split.
    + apply Nat.leb_le. lia.
    + apply String.eqb_eq.
      replace (String.length pre + String.length suffix - String.length suffix)
        with (String.length pre) by lia.
      rewrite substring_skip. apply substring_all.
Qed.

(** X28: the blank ballots found under the election data are exactly the
    files whose name ends in ,ballot.json and whose directory ends in
    blank-ballots/json, each given as directory/name. *)
Theorem blank_ballots_found walk p :
  In p (find_blank_ballots walk)
  <-> exists dir files name pre_d pre_n,
        In (dir, files) walk /\ In name files
        /\ dir = (pre_d ++ "blank-ballots/json")%string
        /\ name = (pre_n ++ ",ballot.json")%string
        /\ p = (dir ++ "/" ++ name)%string.
Proof.
  unfold find_blank_ballots. rewrite in_flat_map. split.
  - intros ([dir files] & Hw & Hp). cbn [fst snd] in Hp.
    apply in_map_iff in Hp. destruct Hp as (name & <- & Hf).
    apply List.filter_In in Hf. destruct Hf as [Hn Hf].
    apply andb_prop in Hf. destruct Hf as [Hfn Hfd].
    apply endswith_spec in Hfn. apply endswith_spec in Hfd.
    destruct Hfn as [pre_n ->]. destruct Hfd as [pre_d ->].
    exists (pre_d ++ "blank-ballots/json")%string, files,
           (pre_n ++ ",ballot.json")%string, pre_d, pre_n.
    repeat split; try assumption.
    unfold path_join. destruct pre_d; reflexivity.
  - intros (dir & files & name & pre_d & pre_n & Hw & Hn & -> & -> & ->).
    exists ((pre_d ++ "blank-ballots/json")%string, files). split; [exact Hw|].
    cbn [fst snd]. apply in_map_iff. exists (pre_n ++ ",ballot.json")%string. split.
    + unfold path_join. destruct pre_d; reflexivity.
    + apply List.filter_In. split; [exact Hn|].
      apply andb_true_intro. split; apply endswith_spec; eexists; reflexivity.
Qed.

End BlankBallots.
